(** * Firstly.js: the bot's pure helpers and in-memory state machines

    A shallow embedding of [src/Firstly.js]: the duration parser, the
    tic-tac-toe evaluator and move handler, the poll and giveaway
    sessions, the event listeners with their exception boundaries, and
    the health endpoint.

    Conventions.
    - A JS string is a [string] of 8-bit code units (the Latin-1 range
      of UTF-16 code units); only code units below 256 are represented.
    - A JS number that the program only ever uses as a small integer
      (an index, a counter, a score) is a [Z]; [NaN] is [None] in the
      type [num].  Where the program computes with numbers that can
      leave the integers below 2^53 (the duration parser) or multiplies
      by a fraction (the random draws), numbers are doubles: see
      [Double].
    - [null] and [undefined] are both [None] wherever the program only
      tests them for truthiness. *)

From Stdlib Require Import ZArith QArith Qround Ascii String List Bool Lia.
From Stdlib Require Import SpecFloat.
From stdpp Require Import base option list gmap strings pretty.
From stdpp Require Import sorting.

#[local] Open Scope string_scope.
#[local] Open Scope Z_scope.

(** ** JS string primitives *)

Module Js.

(** A user, guild or session identifier (a Discord snowflake or a
    generated id). *)
Definition uid := string.

(** A JS number used as an index: an integer, or [None] for [NaN]. *)
Definition num := option Z.

Definition code (c : ascii) : Z := Z.of_nat (nat_of_ascii c).

(** [\d] : the ten ASCII digits. *)
Definition isDigit (c : ascii) : bool :=
  (48 <=? code c) && (code c <=? 57).

(** [\s] restricted to code units below 256: TAB, LF, VT, FF, CR,
    SPACE and NBSP.  [String.prototype.trim] strips the same set. *)
Definition isSpace (c : ascii) : bool :=
  ((9 <=? code c) && (code c <=? 13)) || (code c =? 32) || (code c =? 160).

Definition digitVal (c : ascii) : Z := code c - 48.

(** The maximal run of digits at the head of [s], and what follows. *)
Fixpoint spanDigits (s : string) : string * string :=
  match s with
  | String c s' =>
      if isDigit c
      then let '(ds, r) := spanDigits s' in (String c ds, r)
      else (EmptyString, s)
  | EmptyString => (EmptyString, EmptyString)
  end.

(** Drop the maximal run of white space at the head of [s]. *)
Fixpoint skipSpaces (s : string) : string :=
  match s with
  | String c s' => if isSpace c then skipSpaces s' else s
  | EmptyString => EmptyString
  end.

(** The value of a digit string in base ten, most significant first. *)
Fixpoint digitsValue (acc : Z) (ds : string) : Z :=
  match ds with
  | String c ds' => digitsValue (10 * acc + digitVal c) ds'
  | EmptyString => acc
  end.

(** [parseInt(s, 10)]: leading white space is skipped, an optional
    sign is read, then the longest digit prefix; with no digit the
    result is [NaN]. *)
Definition parseInt (s : string) : num :=
  let body (neg : bool) (r : string) : num :=
    let '(ds, _) := spanDigits r in
    match ds with
    | EmptyString => None
    | _ => Some (if neg then - digitsValue 0 ds else digitsValue 0 ds)
    end in
  match skipSpaces s with
  | String "-" r => body true r
  | String "+" r => body false r
  | r => body false r
  end.

(** [s.startsWith(p)] *)
Fixpoint startsWith (p s : string) : bool :=
  match p, s with
  | EmptyString, _ => true
  | String a p', String b s' => Ascii.eqb a b && startsWith p' s'
  | String _ _, EmptyString => false
  end.

(** [s.split(sep)] for a one-character separator: the pieces between
    the separators, in order (always at least one piece). *)
Fixpoint split (sep : ascii) (s : string) : list string :=
  match s with
  | EmptyString => [EmptyString]
  | String c s' =>
      if Ascii.eqb c sep then EmptyString :: split sep s'
      else match split sep s' with
           | p :: ps => String c p :: ps
           | [] => [String c EmptyString]
           end
  end.

(** [s.trim()] *)
Fixpoint trimEnd (s : string) : string :=
  match s with
  | EmptyString => EmptyString
  | String c s' =>
      match trimEnd s' with
      | EmptyString => if isSpace c then EmptyString else String c EmptyString
      | t => String c t
      end
  end.

Definition trim (s : string) : string := trimEnd (skipSpaces s).

(** Truthiness of a string: [Boolean(s)] is false only for [""]. *)
Definition nonEmpty (s : string) : bool :=
  match s with EmptyString => false | _ => true end.

(** [toLowerCase] of one code unit, on the ASCII letters (the model
    applies it to the unit letter captured by the duration pattern). *)
Definition toLowerCase (c : ascii) : ascii :=
  if (65 <=? code c) && (code c <=? 90)
  then ascii_of_nat (nat_of_ascii c + 32) else c.

(** [arr[i]] for a number [i]: [undefined] outside the array. *)
Definition atNum {A} (arr : list A) (i : num) : option A :=
  match i with
  | Some z => if 0 <=? z then arr !! Z.to_nat z else None
  | None => None
  end.

(** [a === b] on numbers: [NaN] equals nothing, not even itself. *)
Definition numEq (a b : num) : bool :=
  match a, b with
  | Some x, Some y => x =? y
  | _, _ => false
  end.

(** [`${n}`] for a number. *)
Definition showNum (n : num) : string :=
  match n with Some z => pretty z | None => "NaN" end.

End Js.

(** ** Doubles

    JS numbers are IEEE 754 binary64 values and every operation rounds
    its exact result to the nearest double, ties to the even mantissa.
    The two places of the program where this shows are modelled with
    the definitions below: sums and products of non-negative integers
    (the duration parser), and the product of a fraction below 1 with
    an array length (the random draws). *)

Module Double.

(** The nearest number with 53 significant bits to the non-negative
    integer [z], ties to even.  Below 2^53 every integer has at most
    53 bits.  From there on, with [e] the position of the leading bit,
    the 53-bit numbers around [z] are the multiples of [2^(e-52)]. *)
Definition round53 (z : Z) : Z :=
  if z <? 2 ^ 53 then z
  else
    let s := Z.log2 z - 52 in
    let q := z / 2 ^ s in
    let rest := z mod 2 ^ s in
    let half := 2 ^ (s - 1) in
    if (half <? rest) || ((rest =? half) && Z.odd q)
    then (q + 1) * 2 ^ s else q * 2 ^ s.

(** The numbers the duration parser computes with: the doubles that
    are non-negative integers ([Fin n], for a double [n]), [Infinity]
    and [NaN]. *)
Inductive number :=
| Fin (n : N)
| Infinity
| NaN.

(** The double nearest to the exact value [z >= 0]: a result that
    rounds to 2^1024 or more overflows to [Infinity]. *)
Definition rnd (z : Z) : number :=
  if round53 z <? 2 ^ 1024 then Fin (Z.to_N (round53 z)) else Infinity.

(** [x * y] *)
Definition mul (x y : number) : number :=
  match x, y with
  | Fin a, Fin b => rnd (Z.of_N a * Z.of_N b)
  | Infinity, Fin b | Fin b, Infinity => if (b =? 0)%N then NaN else Infinity
  | Infinity, Infinity => Infinity
  | NaN, _ | _, NaN => NaN
  end.

(** [x + y] *)
Definition add (x y : number) : number :=
  match x, y with
  | Fin a, Fin b => rnd (Z.of_N a + Z.of_N b)
  | Infinity, Fin _ | Fin _, Infinity | Infinity, Infinity => Infinity
  | NaN, _ | _, NaN => NaN
  end.

(** [x > 0] *)
Definition positive (x : number) : bool :=
  match x with
  | Fin n => (0 <? n)%N
  | Infinity => true
  | NaN => false
  end.

(** Every finite double is an integer multiple of 2^-1074, the
    smallest positive double.  A non-negative double that need not be
    an integer is given by that multiple: [x] stands for
    [x * 2^-1074]. *)
Definition grid : Z := 2 ^ 1074.

(** [x] units of 2^-1074 make a double: below 2^53 units these are the
    subnormal numbers and the first normal ones, all multiples of the
    unit; above, the numbers with 53 significant bits. *)
Definition double (x : Z) : bool := (0 <=? x) && (round53 x =? x).

(** What [Math.random()] may return: a double [r] with [0 <= r < 1]. *)
Definition random (r : Z) : Prop := double r = true /\ r < grid.

(** [Math.floor(r * n)] for a double [r] given in units of 2^-1074 and
    an integer [n] below 2^53: the exact product is rounded to a double
    and [Math.floor] of a double is exact. *)
Definition floorTimes (r n : Z) : Z := round53 (r * n) / grid.

(** The doubles of the Standard Library's specification of binary64
    ([prec = 53], [emax = 1024]) that are non-negative integers, read
    as a [number]; used to compare the definitions above with it. *)
Definition ofSpec (f : spec_float) : number :=
  match f with
  | S754_zero _ => Fin 0
  | S754_finite false m e =>
      if 0 <=? e then Fin (Z.to_N (Z.pos m * 2 ^ e))
      else if Z.pos m mod 2 ^ (- e) =? 0 then Fin (Z.to_N (Z.pos m / 2 ^ (- e)))
      else NaN
  | S754_infinity false => Infinity
  | _ => NaN
  end.

(** A non-negative integer as a double of the specification. *)
Definition toSpec (z : Z) : spec_float := binary_normalize 53 1024 z 0 false.

End Double.

(** ** parseDuration *)

Module Duration.
Import Js Double.

(** The alternation [(d|h|m|s)] under the [i] flag. *)
Definition isUnit (c : ascii) : bool :=
  match toLowerCase c with
  | "d" | "h" | "m" | "s" => true
  | _ => false
  end%char.

(** One attempt of [/(\d+)\s*(d|h|m|s)/i] anchored at the head of [s]:
    the digits of group 1, the character of group 2 and the text after
    the match.  The greedy choice is the only one that can succeed:
    giving back a digit leaves a digit where [\s*(d|h|m|s)] must
    start, and giving back a space leaves a space where the unit must
    stand (see [matchHere_complete]). *)
Definition matchHere (s : string) : option (string * ascii * string) :=
  let '(ds, r) := spanDigits s in
  match ds with
  | EmptyString => None
  | _ =>
      match skipSpaces r with
      | String u rest => if isUnit u then Some (ds, u, rest) else None
      | EmptyString => None
      end
  end.

(** [regex.exec(str)] with the [g] flag, where the argument is the
    part of [str] from [lastIndex] on: the leftmost match, with the
    text after it (the new [lastIndex]); [None] is the [null] that
    ends the loop. *)
Fixpoint exec (s : string) : option (string * ascii * string) :=
  match matchHere s with
  | Some m => Some m
  | None =>
      match s with
      | String _ s' => exec s'
      | EmptyString => None
      end
  end.

(** The body of the [while] loop: the four [if (unit === ...)] lines.
    Products associate to the left and every one of them, like the
    sum, is rounded. *)
Definition addUnit (ms val : number) (unit : ascii) : number :=
  let ms := if Ascii.eqb unit "d"
            then add ms (mul (mul (mul (mul val (Fin 24)) (Fin 60)) (Fin 60)) (Fin 1000))
            else ms in
  let ms := if Ascii.eqb unit "h"
            then add ms (mul (mul (mul val (Fin 60)) (Fin 60)) (Fin 1000))
            else ms in
  let ms := if Ascii.eqb unit "m"
            then add ms (mul (mul val (Fin 60)) (Fin 1000))
            else ms in
  let ms := if Ascii.eqb unit "s"
            then add ms (mul val (Fin 1000))
            else ms in
  ms.

(** The [while ((match = regex.exec(str)) !== null)] loop, started on
    the text [rest] with the accumulator [ms].  [None] means the fuel
    ran out before [exec] returned [null].  [parseInt] of a run of
    digits is the double nearest to the integer they write (as V8
    computes it; the language lets an implementation replace the
    digits after the twentieth by zeros). *)
Fixpoint whileExec (fuel : nat) (rest : string) (ms : number) : option number :=
  match fuel with
  | O => None
  | S fuel' =>
      match exec rest with
      | None => Some ms
      | Some (ds, u, rest') =>
          let val := rnd (digitsValue 0 ds) in
          let unit := toLowerCase u in
          whileExec fuel' rest' (addUnit ms val unit)
      end
  end.

(** [parseDuration(str)]; [None] is [null].  Every iteration consumes
    at least two characters, so [S (length str)] iterations are
    enough (see [whileExec_enough]). *)
Definition parseDuration (str : string) : option number :=
  if negb (nonEmpty str) then None
  else match whileExec (S (String.length str)) str (Fin 0) with
       | Some ms => if positive ms then Some ms else None
       | None => None
       end.

(** The successive matches that the loop sees on [s]: the trace of the
    [exec] calls, as (value of group 1, lower-cased group 2). *)
Inductive Tokens : string -> list (Z * ascii) -> Prop :=
| Tokens_done s :
    exec s = None -> Tokens s []
| Tokens_step s ds u rest l :
    exec s = Some (ds, u, rest) ->
    Tokens rest l ->
    Tokens s ((digitsValue 0 ds, toLowerCase u) :: l).

(** What the loop has in [ms] after the tokens [l], started on [ms]:
    the sum as the program computes it. *)
Definition computed (ms : number) (l : list (Z * ascii)) : number :=
  fold_left (fun acc t => addUnit acc (rnd (fst t)) (snd t)) l ms.

(** What one token adds, in milliseconds, as an exact integer. *)
Definition contribution (t : Z * ascii) : Z :=
  let '(val, unit) := t in
  match unit with
  | "d" => val * 86400000
  | "h" => val * 3600000
  | "m" => val * 60000
  | "s" => val * 1000
  | _ => 0
  end%char.

Definition total (l : list (Z * ascii)) : Z :=
  fold_right (fun t acc => contribution t + acc) 0 l.

(** A unit token somewhere in [s], stated without the matcher: one or
    more digits, optional white space, then one of d, h, m, s in
    either case. *)
Fixpoint allChars (p : ascii -> bool) (s : string) : Prop :=
  match s with
  | EmptyString => True
  | String c s' => p c = true /\ allChars p s'
  end.

Definition hasToken (s : string) : Prop :=
  exists pre ds ws u post,
    s = pre +:+ ds +:+ ws +:+ String u post
    /\ ds <> EmptyString /\ allChars isDigit ds /\ allChars isSpace ws
    /\ isUnit u = true.

End Duration.

(** ** Tic-tac-toe *)

Module TicTacToe.
Import Js.

Inductive mark := X | O.

(** A cell of the board: [null], ['X'] or ['O']. *)
Definition cell := option mark.

(** What [tttWinner] returns: a mark, ['TIE'] or [null]. *)
Inductive verdict := Winner (m : mark) | TIE | Pending.

Definition mark_eqb (a b : mark) : bool :=
  match a, b with X, X | O, O => true | _, _ => false end.

(** [x === y] on cells. *)
Definition cell_eqb (a b : cell) : bool :=
  match a, b with
  | Some m, Some n => mark_eqb m n
  | None, None => true
  | _, _ => false
  end.

Definition lines : list (nat * nat * nat) :=
  [ (0, 1, 2); (3, 4, 5); (6, 7, 8);
    (0, 3, 6); (1, 4, 7); (2, 5, 8);
    (0, 4, 8); (2, 4, 6) ]%nat.

(** [board[i]] for an array index [i]; reading past the end gives
    [undefined], which is falsy like [null]. *)
Definition cellAt (board : list cell) (i : nat) : cell :=
  default None (board !! i).

(** The test of the [for] loop on one line, and the value returned
    when it succeeds. *)
Definition lineWinner (board : list cell) (l : nat * nat * nat) : option mark :=
  let '(a, b, c) := l in
  match cellAt board a with
  | Some m =>
      if cell_eqb (cellAt board a) (cellAt board b)
         && cell_eqb (cellAt board a) (cellAt board c)
      then Some m else None
  | None => None
  end.

(** The [for (const [a,b,c] of lines)] loop: the first line that
    passes the test decides. *)
Fixpoint firstWinner (board : list cell) (ls : list (nat * nat * nat)) : option mark :=
  match ls with
  | [] => None
  | l :: ls' =>
      match lineWinner board l with
      | Some m => Some m
      | None => firstWinner board ls'
      end
  end.

Definition tttWinner (board : list cell) : verdict :=
  match firstWinner board lines with
  | Some m => Winner m
  | None => if forallb (fun c : cell => bool_decide (is_Some c)) board then TIE else Pending
  end.

(** The session record [data] of one game. *)
Record game := Game {
  players : list uid;
  turn : Z;
  board : list cell;
}.

(** The button interaction a collector receives. *)
Record button := Button {
  customId : string;
  user : uid;
}.

(** What the handler sends back: nothing, an ephemeral reply, or an
    update of the game message.  [over] is the truthiness of [win]:
    the buttons are then rendered disabled, and
    [collector.stop('game_end')] is called once the awaited update has
    resolved (see [Board.deliver]). *)
Inductive reaction :=
| Silent
| Reply (content : string)
| Update (desc : string) (over : bool).

(** [`<@${id}>`], where an absent element prints as [undefined]. *)
Definition mention (id : option uid) : string :=
  "<@" +:+ default "undefined" id +:+ ">".

Definition newline : string := String (ascii_of_nat 10) EmptyString.

(** [data.board[idx] = v].  The model follows writes inside the
    array; a write to any other key (an index past the end, a negative
    number, [NaN]) is [None]: no button rendered by [renderTTT]
    carries such an index. *)
Definition writeCell (board : list cell) (idx : num) (v : cell) : option (list cell) :=
  match idx with
  | Some z =>
      if (0 <=? z) && (z <? Z.of_nat (length board))
      then Some (<[Z.to_nat z := v]> board)
      else None
  | None => None
  end.

(** [parseInt(btn.customId.split(':')[1], 10)] *)
Definition target (btn : button) : num :=
  parseInt (default "undefined" (split ":" (customId btn) !! 1%nat)).

(** [collector.on('collect', ...)]: the state after the event and the
    reaction; [None] when the handler writes outside the board. *)
Definition collect (data : game) (btn : button) : option (game * reaction) :=
  if negb (startsWith "ttt:" (customId btn)) then Some (data, Silent)
  else
    let idx := target btn in
    if negb (existsb (String.eqb (user btn)) (players data))
    then Some (data, Reply "Not your game.")
    else if negb (bool_decide (Some (user btn) = atNum (players data) (Some (turn data))))
    then Some (data, Reply "Wait your turn.")
    else if bool_decide (is_Some (mjoin (atNum (board data) idx)))
    then Some (data, Reply "Spot taken.")
    else
      match writeCell (board data) idx (Some (if turn data =? 0 then X else O)) with
      | None => None
      | Some board' =>
          let win := tttWinner board' in
          let desc := mention (players data !! 0%nat) +:+ " (X) vs "
                      +:+ mention (players data !! 1%nat) +:+ " (O)" +:+ newline in
          match win with
          | TIE =>
              Some (Game (players data) (turn data) board',
                    Update (desc +:+ "Result: Tie!") true)
          | Winner m =>
              Some (Game (players data) (turn data) board',
                    Update (desc +:+ "Winner: "
                            +:+ mention (players data !! (match m with X => 0 | O => 1 end)%nat))
                           true)
          | Pending =>
              let turn' := 1 - turn data in
              Some (Game (players data) turn' board',
                    Update (desc +:+ "Turn: "
                            +:+ mention (atNum (players data) (Some turn')))
                           false)
          end
      end.

(** The record created by the [/ttt] command. *)
Definition newGame (challenger opponent : uid) : game :=
  Game [challenger; opponent] 0 (replicate 9 None).

(** Line [l] is fully occupied by the mark [m]. *)
Definition occupies (board : list cell) (m : mark) (l : nat * nat * nat) : Prop :=
  let '(a, b, c) := l in
  cellAt board a = Some m /\ cellAt board b = Some m /\ cellAt board c = Some m.


(** Some line is fully occupied by identical marks. *)
Definition someLine (board : list cell) : Prop :=
  exists m l, In l lines /\ occupies board m l.

(** The reactions that refuse a move. *)
Definition refusal (r : reaction) : Prop :=
  r = Silent \/ r = Reply "Not your game." \/ r = Reply "Wait your turn."
  \/ r = Reply "Spot taken.".

End TicTacToe.

(** ** Polls *)

Module Poll.
Import Js.

Record pollOption := PollOption {
  label : string;
  count : Z;
}.

(** The record stored in [store.polls]. *)
Record poll := MkPoll {
  question : string;
  multiple : bool;
  options : list pollOption;
  voters : gmap uid num;
  multiVoters : gset string;
}.

(** [raw.split(';').map(s => s.trim()).filter(Boolean).slice(0, 5)] *)
Definition parseOptions (raw : string) : list string :=
  take 5 (filter (fun s => nonEmpty s = true) (map trim (split ";" raw))).

(** The [/poll] command: [None] is the reply "Provide at least 2
    options." (nothing is stored). *)
Definition createPoll (q raw : string) (multi : bool) : option poll :=
  let opts := parseOptions raw in
  if (length opts <? 2)%nat then None
  else Some (MkPoll q multi (map (fun o => PollOption o 0) opts) ∅ ∅).

(** [poll.options[i].count += d]; [None] is the [TypeError] raised
    when [poll.options[i]] is [undefined]. *)
Definition bump (d : Z) (opts : list pollOption) (i : num) : option (list pollOption) :=
  match atNum opts i with
  | Some o => Some (<[Z.to_nat (default 0 i) := PollOption (label o) (count o + d)]> opts)
  | None => None
  end.

(** [poll.options.reduce((a,b) => a + b.count, 0)] *)
Definition totalVotes (opts : list pollOption) : Z :=
  fold_left (fun a b => a + count b) opts 0.

Inductive outcome :=
| AlreadyVoted            (* the ephemeral reply of the single-vote branch *)
| Rendered (labels : list string) (totalText : string)
| Threw.                  (* a [TypeError] left the handler *)

(** The labels and the footer of the re-rendered message. *)
Definition render (p : poll) : outcome :=
  Rendered (map (fun o => label o +:+ " (" +:+ pretty (count o) +:+ ")") (options p))
           ("Total votes: " +:+ pretty (totalVotes (options p))).

Definition withOptions (p : poll) (opts : list pollOption) : poll :=
  MkPoll (question p) (multiple p) opts (voters p) (multiVoters p).

Definition withVoters (p : poll) (v : gmap uid num) : poll :=
  MkPoll (question p) (multiple p) (options p) v (multiVoters p).

Definition withMultiVoters (p : poll) (s : gset string) : poll :=
  MkPoll (question p) (multiple p) (options p) (voters p) s.

(** [poll.voters.set(user, idx); poll.options[idx].count++] and the
    re-rendering that follows. *)
Definition recordVote (p : poll) (user : uid) (idx : num) : poll * outcome :=
  let p1 := withVoters p (<[user := idx]> (voters p)) in
  match bump 1 (options p1) idx with
  | None => (p1, Threw)
  | Some opts => let p2 := withOptions p1 opts in (p2, render p2)
  end.

(** The poll branch of the button handler, once the poll is found:
    the record after the click (mutated in place by the source) and
    how the handler ended. *)
Definition vote (p : poll) (user : uid) (idx : num) : poll * outcome :=
  if negb (multiple p) then
    match voters p !! user with
    | Some prev =>
        if numEq prev idx then (p, AlreadyVoted)
        else match bump (-1) (options p) prev with
             | None => (p, Threw)
             | Some opts => recordVote (withOptions p opts) user idx
             end
    | None => recordVote p user idx
    end
  else
    let key := user +:+ ":" +:+ showNum idx in
    if bool_decide (key ∈ multiVoters p) then
      let p1 := withMultiVoters p (multiVoters p ∖ {[key]}) in
      match bump (-1) (options p1) idx with
      | None => (p1, Threw)
      | Some opts => let p2 := withOptions p1 opts in (p2, render p2)
      end
    else
      let p1 := withMultiVoters p ({[key]} ∪ multiVoters p) in
      match bump 1 (options p1) idx with
      | None => (p1, Threw)
      | Some opts => let p2 := withOptions p1 opts in (p2, render p2)
      end.

(** The custom ids of the buttons rendered for a poll:
    [`poll:${pollId}:${i}`] for each option index [i]. *)
Definition buttonId (pollId : string) (i : nat) : string :=
  "poll:" +:+ pollId +:+ ":" +:+ pretty (Z.of_nat i).

Definition buttonIds (pollId : string) (p : poll) : list string :=
  imap (fun i _ => buttonId pollId i) (options p).

(** A vote-button event: who clicked, and the index carried by the
    button. *)
Record click := Click {
  clicker : uid;
  target : num;
}.

(** The index is one of the rendered buttons of [p]. *)
Definition onButton (p : poll) (c : click) : Prop :=
  exists i : nat, target c = Some (Z.of_nat i) /\ (i < length (options p))%nat.

(** The poll after a sequence of clicks, oldest first. *)
Definition votes (p : poll) (cs : list click) : poll :=
  fold_left (fun q c => fst (vote q (clicker c) (target c))) cs p.

(** The invariant of a single-vote poll: the counters add up to the
    number of recorded voters, and every recorded choice is the index
    of an option. *)
Definition counted (p : poll) : Prop :=
  multiple p = false
  /\ totalVotes (options p) = Z.of_nat (size (voters p))
  /\ forall u v, voters p !! u = Some v ->
       exists i : nat, v = Some (Z.of_nat i) /\ (i < length (options p))%nat.

(** The entry of the voter map records option [k]. *)
Definition choseOption (k : nat) (kv : uid * num) : Prop :=
  kv.2 = Some (Z.of_nat k).

#[global] Instance choseOption_dec k kv : Decision (choseOption k kv).
Proof. unfold choseOption. apply _. Defined.

(** How many voters have option [k] as their recorded choice. *)
Definition votersFor (p : poll) (k : nat) : nat :=
  size (filter (choseOption k) (voters p)).

(** Every counter is the number of voters recorded for its option. *)
Definition tallied (p : poll) : Prop :=
  forall k o, options p !! k = Some o -> count o = Z.of_nat (votersFor p k).

End Poll.

(** ** Giveaways *)

Module Giveaway.
Import Js.

(** A JS [Set] of ids, in insertion order (the order [[...set]]
    yields); [setAdd] is [Set.prototype.add]. *)
Definition setAdd (u : uid) (s : list uid) : list uid :=
  if existsb (String.eqb u) s then s else s ++ [u].

Record giveaway := MkGiveaway {
  prize : string;
  endsAt : Z;
  entrants : list uid;
}.

(** [data.entrants.add(user)] *)
Definition join (u : uid) (g : giveaway) : giveaway :=
  MkGiveaway (prize g) (endsAt g) (setAdd u (entrants g)).

(** [choice(arr)]: [arr[Math.floor(Math.random() * arr.length)]],
    with the double [r] that [Math.random()] returns given in units of
    2^-1074 (see [Double.random]); the product is rounded. *)
Definition choice {A} (r : Z) (arr : list A) : option A :=
  atNum arr (Some (Double.floorTimes r (Z.of_nat (length arr)))).

(** The [winner] of the ['end'] handler; [None] is [null]. *)
Definition drawWinner (r : Z) (g : giveaway) : option uid :=
  let arr := entrants g in
  if (0 <? length arr)%nat then choice r arr else None.

(** The test [winner ? ... : ...] that picks the closing embed's text:
    [true] announces a winner, [false] prints "No entries.". *)
Definition announced (winner : option uid) : bool :=
  match winner with Some w => nonEmpty w | None => false end.

End Giveaway.

(** ** The event listeners *)

Module Bot.
Import Js.

(** The in-memory store (the sessions the model follows). *)
Record store := Store {
  polls : gmap string Poll.poll;
  giveaways : gmap string Giveaway.giveaway;
}.

(** Calls to the platform made on behalf of one event. *)
Inductive call :=
| CReply (content : string)
| CFollowUp (content : string)
| CFetchMessage
| CUpdate (labels : list string) (footer : string).

Inductive exn :=
| ApiError (c : call)         (* the platform call rejected *)
| TypeError.                  (* a property of [undefined] was read *)

(** What an observer sees: accepted platform calls and console lines. *)
Inductive event :=
| Sent (c : call)
| ConsoleError (e : exn).

(** The world one listener runs in: the store, what was emitted so
    far, the [replied] flag of the interaction, and for each platform
    call still to come whether it will be rejected ([true]); calls
    beyond the list succeed. *)
Record world := World {
  st : store;
  out : list event;
  replied : bool;
  rejects : list bool;
}.

(** How an [async] listener body ends: normally; by an exception
    raised where it stands (a [throw], or the rejection of a promise
    it [await]s); or by handing back, with [return p], a promise [p]
    that rejects.  The last one happens after the body has left every
    [try] block around the [return]: no [catch] of the body sees it. *)
Inductive result (A : Type) :=
| Ok (a : A)
| Raise (e : exn)
| Reject (e : exn).
Arguments Ok {A} a.
Arguments Raise {A} e.
Arguments Reject {A} e.

(** A listener body, from a world to its end and a new world. *)
Definition M (A : Type) : Type := world -> result A * world.

Definition ret {A} (a : A) : M A := fun w => (Ok a, w).

Definition bind {A B} (m : M A) (k : A -> M B) : M B :=
  fun w => match m w with
           | (Ok a, w') => k a w'
           | (Raise e, w') => (Raise e, w')
           | (Reject e, w') => (Reject e, w')
           end.

Definition throw {A} (e : exn) : M A := fun w => (Raise e, w).

(** [try { m } catch (err) { h(err) }] *)
Definition tryCatch {A} (m : M A) (h : exn -> M A) : M A :=
  fun w => match m w with
           | (Ok a, w') => (Ok a, w')
           | (Raise e, w') => h e w'
           | (Reject e, w') => (Reject e, w')
           end.

Declare Scope listener_scope.
Delimit Scope listener_scope with M.
Bind Scope listener_scope with M.
Notation "x ← m ; k" := (bind m (fun x => k))
  (at level 20, m at level 100, k at level 200, only parsing) : listener_scope.
Notation "m ;; k" := (bind m (fun _ => k))
  (at level 100, k at level 200, only parsing, right associativity) : listener_scope.
#[local] Open Scope listener_scope.

Definition getStore : M store := fun w => (Ok (st w), w).

Definition putStore (s : store) : M unit :=
  fun w => (Ok tt, World s (out w) (replied w) (rejects w)).

Definition isReplied : M bool := fun w => (Ok (replied w), w).

(** [console.error(err)] *)
Definition consoleError (e : exn) : M unit :=
  fun w => (Ok tt, World (st w) (out w ++ [ConsoleError e]) (replied w) (rejects w)).

(** [await c] for a platform call [c]: rejected or accepted as
    [rejects] says; an accepted reply or update marks the interaction
    as replied. *)
Definition platform (c : call) : M unit :=
  fun w =>
    let '(bad, rest) := match rejects w with
                        | b :: bs => (b, bs)
                        | [] => (false, [])
                        end in
    if bad then (Raise (ApiError c), World (st w) (out w) (replied w) rest)
    else (Ok tt,
          World (st w) (out w ++ [Sent c])
                (match c with
                 | CReply _ | CUpdate _ _ => true
                 | _ => replied w
                 end)
                rest).

(** [return c] for a platform call [c], the last statement of a
    branch: the same call, whose rejection is that of the returned
    promise. *)
Definition returning (c : call) : M unit :=
  fun w => match platform c w with
           | (Raise e, w') => (Reject e, w')
           | r => r
           end.

(** [try { await c } catch {}], and [c.catch(() => {})] *)
Definition bestEffort (c : call) : M unit :=
  tryCatch (platform c) (fun _ => ret tt).

Inductive kind :=
| Autocomplete | ButtonClick | ModalSubmit | Command | OtherKind.

Record interaction := Interaction {
  ikind : kind;
  customId : string;
  user : uid;
}.

Definition isButton (i : interaction) : bool :=
  match ikind i with ButtonClick => true | _ => false end.

Definition setPoll (id : string) (p : Poll.poll) (s : store) : store :=
  Store (<[id := p]> (polls s)) (giveaways s).

Definition setGiveaway (id : string) (g : Giveaway.giveaway) (s : store) : store :=
  Store (polls s) (<[id := g]> (giveaways s)).

(** The poll branch of the button handler (lines 343-389). *)
Definition pollButton (rest : list string) (u : uid) : M unit :=
  s ← getStore;
  match rest !! 0%nat ≫= (fun pollId => (fun p => (pollId, p)) <$> polls s !! pollId) with
  | None => returning (CReply "Poll expired.")
  | Some (pollId, poll) =>
      let idx := parseInt (default "undefined" (rest !! 1%nat)) in
      let '(poll', o) := Poll.vote poll u idx in
      putStore (setPoll pollId poll' s) ;;
      match o with
      | Poll.AlreadyVoted => returning (CReply "You already voted for this option.")
      | Poll.Threw => throw TypeError
      | Poll.Rendered labels footer =>
          platform CFetchMessage ;;
          platform (CUpdate labels footer)
      end
  end.

(** The [catch (err)] block of the interaction router. *)
Definition routerCatch (e : exn) : M unit :=
  consoleError e ;;
  r ← isReplied;
  if r then bestEffort (CFollowUp "An error occurred.")
  else bestEffort (CReply "An error occurred.").

Section Router.
(** Every branch the model does not spell out (autocomplete, the
    rock-paper-scissors button, modals, slash and context commands):
    any computation at all. *)
Variable others : interaction -> M unit.

(** The [try] block of the first [InteractionCreate] listener. *)
Definition routerBody (i : interaction) : M unit :=
  match ikind i with
  | ButtonClick =>
      match split ":" (customId i) with
      | "poll" :: rest => pollButton rest (user i)
      | "rps" :: _ => others i
      | _ => ret tt
      end
  | _ => others i
  end.

(** The first [InteractionCreate] listener. *)
Definition onInteraction (i : interaction) : M unit :=
  tryCatch (routerBody i) routerCatch.

(** The [MessageCreate] listener, for a message that passes the
    prefix guard: the commands run inside [try], and the [catch]
    logs and sends a reply whose rejection is discarded. *)
Definition onMessage (commands : M unit) : M unit :=
  tryCatch commands
           (fun e => consoleError e ;; bestEffort (CReply "An error occurred.")).
End Router.

(** The second [InteractionCreate] listener (lines 821-831): giveaway
    joins.  It has no [try], and it returns its replies.  (The reply
    to a join is written without the emoji that ends it in the source,
    which lies outside the code units the model represents.) *)
Definition onGiveawayJoin (i : interaction) : M unit :=
  if negb (isButton i) then ret tt
  else if startsWith "gaw_join:" (customId i) then
    s ← getStore;
    match split ":" (customId i) !! 1%nat ≫= (fun gwId => (fun g => (gwId, g)) <$> giveaways s !! gwId) with
    | None => returning (CReply "Giveaway ended.")
    | Some (gwId, data) =>
        putStore (setGiveaway gwId (Giveaway.join (user i) data) s) ;;
        returning (CReply "You are entered!")
    end
  else ret tt.

(** The ['collect'] handler of the collector of giveaway [gwId]
    (lines 687-691), whose [data] is the record stored under [gwId]
    for as long as the collector runs.  It awaits its reply, outside
    any [try]. *)
Definition onGiveawayCollect (gwId : string) (i : interaction) : M unit :=
  if negb (String.eqb (customId i) ("gaw_join:" +:+ gwId)) then ret tt
  else
    s ← getStore;
    match giveaways s !! gwId with
    | None => ret tt
    | Some data =>
        putStore (setGiveaway gwId (Giveaway.join (user i) data) s) ;;
        platform (CReply "You are entered!")
    end.

(** An id without a colon, as [makeId] generates them
    ([`${prefix}_${...toString(36)...}`]). *)
Definition plainId (id : string) : Prop := split ":" id = [id].

(** A listener lets an exception escape to the emitter: its promise
    rejects. *)
Definition propagates {A} (m : M A) (w : world) : Prop :=
  exists e, fst (m w) = Raise e \/ fst (m w) = Reject e.

(** The entrants of giveaway [gwId] in a store. *)
Definition entrantsOf (gwId : string) (s : store) : option (list uid) :=
  Giveaway.entrants <$> giveaways s !! gwId.

(** [n] join clicks by the same user, one after the other, each in a
    world that keeps the store of the previous one. *)
Fixpoint joins (listener : interaction -> M unit) (i : interaction)
         (n : nat) (w : world) : world :=
  match n with
  | O => w
  | S n' => joins listener i n' (snd (listener i w))
  end.

End Bot.

(** ** The health endpoint *)

Module Health.
Import Js.



Inductive json :=
| JString (s : string)
| JNumber (z : Z)
| JBool (b : bool).

(** A response body: plain text, or [JSON.stringify] of an object
    given by its fields in order. *)
Inductive body :=
| Text (s : string)
| Json (fields : list (string * json)).


Definition newline : string := String (ascii_of_nat 10) EmptyString.

(** [lines.join('\n')] *)
Fixpoint join (sep : string) (ls : list string) : string :=
  match ls with
  | [] => EmptyString
  | [l] => l
  | l :: ls' => l +:+ sep +:+ join sep ls'
  end.








End Health.

(** ** humanize *)

Module Timing.
Import Js.

(** [humanize(ms)] for an integer [ms] with [0 <= ms < 2^53], the
    range in which the function is modelled.  There [ms / 1000] and
    the later quotients are rounded, but a quotient that is not an
    integer lies at least 1/1000 (1/86400, 1/3600, 1/60) below the next
    integer, which is more than half the distance between doubles of
    that size, so [Math.floor] of the rounded quotient is [Z.div]; [%]
    is exact and is the remainder that takes the sign of the dividend,
    [Z.rem]; and an integer below 10^21 prints in decimal digits.
    (From 2^53 on the quotients can round up and large amounts print
    in exponent notation; [Infinity] prints as "Infinityd".) *)
Definition humanize (ms : Z) : string :=
  let s := ms / 1000 in
  let d := s / 86400 in
  let h := Z.rem s 86400 / 3600 in
  let m := Z.rem s 3600 / 60 in
  let sec := Z.rem s 60 in
  let parts : list string := [] in
  let parts := if d =? 0 then parts else (parts ++ [pretty d +:+ "d"])%list in
  let parts := if h =? 0 then parts else (parts ++ [pretty h +:+ "h"])%list in
  let parts := if m =? 0 then parts else (parts ++ [pretty m +:+ "m"])%list in
  let parts := if negb (sec =? 0) && (length parts =? 0)%nat
               then (parts ++ [pretty sec +:+ "s"])%list else parts in
  match Health.join " " parts with
  | EmptyString => "0s"
  | text => text
  end.

(** The text of one part of [humanize]: an amount and its unit. *)
Definition part (t : Z * ascii) : string :=
  pretty (fst t) +:+ String (snd t) EmptyString.

End Timing.

(** ** Rock, paper, scissors *)

Module Rps.
Import Js.

(** The local function [result(a, b)] of the button handler. *)
Definition result (a b : string) : string :=
  if String.eqb a b then "Tie!"
  else if (String.eqb a "rock" && String.eqb b "scissors")
          || (String.eqb a "paper" && String.eqb b "rock")
          || (String.eqb a "scissors" && String.eqb b "paper")
  then "You win!"
  else "You lose!".

(** [['rock','paper','scissors'][Math.floor(Math.random()*3)]], with
    the double [r] that [Math.random()] returns given in units of
    2^-1074 (see [Double.random]); the product is rounded. *)
Definition otherChoice (r : Z) : option string :=
  atNum ["rock"; "paper"; "scissors"] (Some (Double.floorTimes r 3)).

(** How the rock-paper-scissors branch of the button handler ends:
    with the refusal, or with the embed's description. *)
Inductive outcome :=
| NotYourGame
| Resolved (description : string).




(** The three moves offered by the buttons of the [/rps] command. *)
Definition move (s : string) : Prop :=
  s = "rock" \/ s = "paper" \/ s = "scissors".

End Rps.

(** ** Rendering the tic-tac-toe board, and a game as its collector
    sees it *)

Module Board.
Import Js TicTacToe.

Inductive style := Danger | Primary | Secondary.

Record tttButton := TttButton {
  bCustomId : string;
  bLabel : string;
  bStyle : style;
  bDisabled : bool;
}.

(** The button built for cell [i] in the inner loop of [renderTTT]. *)
Definition renderCell (board : list cell) (i : nat) : tttButton :=
  let val := cellAt board i in
  TttButton ("ttt:" +:+ pretty (Z.of_nat i))
            (match val with Some X => "X" | Some O => "O" | None => " " end)
            (match val with Some X => Danger | Some O => Primary | None => Secondary end)
            (bool_decide (is_Some val)).

(** [renderTTT(board)]: three rows of three buttons. *)
Definition renderTTT (board : list cell) : list (list tttButton) :=
  map (fun r => map (fun c => renderCell board (r * 3 + c)) [0; 1; 2]%nat) [0; 1; 2]%nat.

(** A game and its collector: [running] is false once the collector
    has ended (stopped by the handler, or timed out), after which no
    click is delivered; [awaiting] counts the handlers that sent the
    update of a decided board and wait for it to settle. *)
Record session := Session {
  data : game;
  running : bool;
  awaiting : nat;
}.

Definition start (challenger opponent : uid) : session :=
  Session (newGame challenger opponent) true 0.

(** What happens to a game after its creation: a click reaches the
    collector and its handler runs up to [await btn.update(...)]; an
    awaited update of a decided board settles, accepted by the platform
    or rejected; the collector ends by itself when the ten minutes it
    was created for are over. *)
Inductive event :=
| Click (btn : button)
| Settled (accepted : bool)
| TimeUp.

(** One event; [None] as for [collect].  What follows the [await] is
    [if (win) collector.stop('game_end')]: it does nothing for an
    update sent without a verdict, and it is not reached when the
    update is rejected, so that the collector keeps running on the
    decided board (the rejection is not handled; the model follows the
    game for as long as the process goes on).  Until the update has
    settled the collector delivers further clicks. *)
Definition deliver (s : session) (e : event) : option session :=
  match e with
  | Click btn =>
      if running s then
        match collect (data s) btn with
        | Some (g, Update _ over) =>
            Some (Session g true (if over then S (awaiting s) else awaiting s))
        | Some (g, _) => Some (Session g true (awaiting s))
        | None => None
        end
      else Some s
  | Settled accepted =>
      match awaiting s with
      | 0%nat => Some s
      | S k => Some (Session (data s) (running s && negb accepted) k)
      end
  | TimeUp => Some (Session (data s) false (awaiting s))
  end.

(** A sequence of events, oldest first. *)
Fixpoint play (s : session) (es : list event) : option session :=
  match es with
  | [] => Some s
  | e :: es' =>
      match deliver s e with
      | Some s' => play s' es'
      | None => None
      end
  end.

(** A click on one of the nine buttons of the game message. *)
Definition onBoard (btn : button) : Prop :=
  exists i : nat, (i < 9)%nat /\ customId btn = "ttt:" +:+ pretty (Z.of_nat i).

#[global] Instance mark_eq_dec : EqDecision mark.
Proof. solve_decision. Defined.

(** How many cells hold the mark [m]. *)
Definition marks (m : mark) (board : list cell) : Z :=
  Z.of_nat (length (filter (fun c : cell => c = Some m) board)).

(** The mark of the player whose turn it is. *)
Definition moverMark (g : game) : mark := if turn g =? 0 then X else O.

(** The clicks of the event are on buttons of the board. *)
Definition onBoardEvent (e : event) : Prop :=
  match e with Click btn => onBoard btn | _ => True end.

(** The events come in good order from [s] on: the platform accepts
    every update, and no click reaches a running collector while the
    update of a decided board is awaited. *)
Fixpoint orderly (s : session) (es : list event) : Prop :=
  match es with
  | [] => True
  | e :: es' =>
      match e with
      | Click _ => awaiting s = 0%nat \/ running s = false
      | Settled accepted => accepted = true
      | TimeUp => True
      end
      /\ match deliver s e with
         | Some s' => orderly s' es'
         | None => True
         end
  end.

(** What holds of a game between [a] and [b] whatever happens: the
    players and the nine cells stay and the turn is 0 or 1. *)
Definition shape (a b : uid) (s : session) : Prop :=
  players (data s) = [a; b]
  /\ length (board (data s)) = 9%nat
  /\ (turn (data s) = 0 \/ turn (data s) = 1).

(** What holds as long as the events come in good order: on a board
    without verdict no update is awaited, the marks are level when X
    is to move and X is one ahead when O is; on a decided board the
    last mover is the one still in turn, and a collector that still
    runs awaits the update of that board. *)
Definition fair (s : session) : Prop :=
  match tttWinner (board (data s)) with
  | Pending =>
      awaiting s = 0%nat
      /\ marks X (board (data s)) = marks O (board (data s)) + turn (data s)
  | _ =>
      (running s = true -> awaiting s = 1%nat)
      /\ marks X (board (data s)) + turn (data s) = marks O (board (data s)) + 1
  end.

End Board.

(** ** Quotes, to-do lists and karma *)

Module Social.
Import Js.

(** [ensureMap(map, key, init)]: the map after the call and the value
    returned. *)
Definition ensureMap {V} (map : gmap string V) (key : string) (init : V)
  : gmap string V * V :=
  match map !! key with
  | Some v => (map, v)
  | None => (<[key := init]> map, init)
  end.

Definition newline : string := String (ascii_of_nat 10) EmptyString.

(** [/quote add]: the array stored for the guild is extended in place. *)
Definition quoteAdd (quotes : gmap string (list string)) (guildId text : string)
  : gmap string (list string) * string :=
  let '(m, list) := ensureMap quotes guildId [] in
  let list' := (list ++ [text])%list in
  (<[guildId := list']> m, "Added quote #" +:+ pretty (length list') +:+ ".").

(** The line built for quote [q] at index [i] by [/quote list]. *)
Definition quoteLine (i : nat) (q : string) : string :=
  pretty (i + 1)%nat +:+ ". " +:+ q +:+ newline.

(** The [forEach] of [/quote list] over the lines still to come, with
    the chunks pushed so far and the current chunk. *)
Fixpoint chunkLoop (lines chunks : list string) (cur : string) : list string * string :=
  match lines with
  | [] => (chunks, cur)
  | line :: rest =>
      if (1900 <? String.length cur + String.length line)%nat
      then chunkLoop rest (chunks ++ [cur])%list line
      else chunkLoop rest chunks (cur +:+ line)
  end.

(** The chunks of [/quote list], the last one pushed when not empty. *)
Definition chunksOf (lines : list string) : list string :=
  let '(chunks, cur) := chunkLoop lines [] EmptyString in
  if nonEmpty cur then (chunks ++ [cur])%list else chunks.

(** [/quote random]: the quote drawn, [None] for the reply "No quotes
    yet.". *)
Definition quoteRandom (r : Z) (quotes : gmap string (list string)) (guildId : string)
  : gmap string (list string) * option string :=
  let '(m, list) := ensureMap quotes guildId [] in
  if (length list =? 0)%nat then (m, None) else (m, Giveaway.choice r list).

(** The text of a sequence of strings, one after the other. *)
Definition joined (ls : list string) : string :=
  fold_right String.append EmptyString ls.

Record todo := Todo {
  text : string;
  done : bool;
}.

(** [/todo add] *)
Definition todoAdd (todos : gmap string (list todo)) (userId txt : string)
  : gmap string (list todo) * string :=
  let '(m, items) := ensureMap todos userId [] in
  let items' := (items ++ [Todo txt false])%list in
  (<[userId := items']> m, "Added TODO #" +:+ pretty (length items') +:+ ".").

(** [/todo done], with the number typed by the user. *)
Definition todoDone (todos : gmap string (list todo)) (userId : string) (index : Z)
  : gmap string (list todo) * string :=
  let '(m, items) := ensureMap todos userId [] in
  let idx := index - 1 in
  match atNum items (Some idx) with
  | None => (m, "Invalid index.")
  | Some t =>
      (<[userId := <[Z.to_nat idx := Todo (text t) true]> items]> m,
       "Marked #" +:+ pretty (idx + 1) +:+ " done.")
  end.

(** The list a user sees as theirs. *)
Definition todosOf (todos : gmap string (list todo)) (userId : string) : list todo :=
  default [] (todos !! userId).

(** A JS [Map] from ids to numbers, in insertion order. *)
Definition scores := list (uid * Z).

(** [map.get(key)] *)
Fixpoint mapGet (m : scores) (key : uid) : option Z :=
  match m with
  | [] => None
  | (k, v) :: m' => if String.eqb k key then Some v else mapGet m' key
  end.

(** [map.set(key, v)]: an existing key keeps its place. *)
Fixpoint mapSet (key : uid) (v : Z) (m : scores) : scores :=
  match m with
  | [] => [(key, v)]
  | (k, w) :: m' => if String.eqb k key then (k, v) :: m' else (k, w) :: mapSet key v m'
  end.

(** [/karma give]; [amount] is the option as received ([None] when it
    was left out, which counts as 1), [tag] the recipient's tag. *)
Definition karmaGive (karma : gmap string scores) (guildId : string)
           (userId tag : string) (amount : option Z)
  : gmap string scores * string :=
  let '(m, map) := ensureMap karma guildId [] in
  let amount := default 1 amount in
  let map' := mapSet userId (default 0 (mapGet map userId) + amount) map in
  (<[guildId := map']> m,
   "Gave " +:+ pretty amount +:+ " karma to " +:+ tag +:+ ". Total: "
   +:+ showNum (mapGet map' userId) +:+ ".").

(** Where [x] goes in a list already in descending order of score,
    ahead of the entries that do not beat it. *)
Fixpoint insertDesc (x : uid * Z) (l : scores) : scores :=
  match l with
  | [] => [x]
  | y :: l' => if snd y <=? snd x then x :: y :: l' else y :: insertDesc x l'
  end.

(** [entries.sort((a,b) => (b[1]||0) - (a[1]||0))].  The sort of an
    array is stable and this comparator orders by score alone, so the
    result is the one arrangement in descending order of score that
    keeps equal scores in their order; this is how it is computed
    here. *)
Definition sortDesc (m : scores) : scores := fold_right insertDesc [] m.

(** The array [arr] of [/karma leaderboard]. *)
Definition leaderboard (m : scores) : scores := take 10 (sortDesc m).

(** The score a member sees as theirs in a guild. *)
Definition karmaOf (karma : gmap string scores) (guildId userId : string) : Z :=
  default 0 (mapGet (default [] (karma !! guildId)) userId).

(** A sequence of gifts in one guild, oldest first: recipient and
    amount. *)
Definition gifts (karma : gmap string scores) (guildId : string)
           (gs : list (uid * Z)) : gmap string scores :=
  fold_left (fun k g => fst (karmaGive k guildId (fst g) (fst g) (Some (snd g)))) gs karma.

(** The amounts given to [userId] in a sequence of gifts. *)
Definition given (userId : uid) (gs : list (uid * Z)) : Z :=
  fold_right (fun g acc => (if String.eqb (fst g) userId then snd g else 0) + acc) 0 gs.

End Social.

(** ** The last deleted message *)

Module Snipe.
Import Js.

(** What the [MessageDelete] listener reads from the deleted message. *)
Record deleted := Deleted {
  inGuild : bool;
  channelId : option string;
  content : option string;
  authorTag : option string;
  memberTag : option string;
}.

Record snipe := MkSnipe {
  sContent : string;
  sAuthorTag : string;
  sCreatedAt : Z;
}.

(** [x || fallback] on a string that may be absent. *)
Definition orElse (x : option string) (fallback : string) : string :=
  match x with
  | Some s => if nonEmpty s then s else fallback
  | None => fallback
  end.

(** The record stored for a deleted message. *)
Definition recordOf (msg : deleted) (now : Z) : snipe :=
  MkSnipe (orElse (content msg) "")
          (match authorTag msg with
           | Some t => t
           | None => orElse (memberTag msg) "Unknown"
           end)
          now.

(** The [MessageDelete] listener, at time [now]. *)
Definition onDelete (snipes : gmap string snipe) (msg : deleted) (now : Z)
  : gmap string snipe :=
  match channelId msg with
  | Some c => if inGuild msg then <[c := recordOf msg now]> snipes else snipes
  | None => snipes
  end.

(** What [/snipe] and [!snipe] answer: nothing to show, or the author,
    content and footer of the embed. *)
Inductive shown :=
| Nothing
| Embed (author contentField footer : string).

Definition snipeCommand (snipes : gmap string snipe) (channel : string) (now : Z) : shown :=
  match snipes !! channel with
  | None => Nothing
  | Some d =>
      Embed (sAuthorTag d) (orElse (Some (sContent d)) "(no content)")
            ("Deleted " +:+ pretty ((now - sCreatedAt d) / 1000) +:+ "s ago")
  end.

(** A sequence of deletions, oldest first, each with its time. *)
Definition deletions (snipes : gmap string snipe) (ds : list (deleted * Z))
  : gmap string snipe :=
  fold_left (fun s d => onDelete s (fst d) (snd d)) ds snipes.

(** The deletion is recorded for [channel]. *)
Definition recordedIn (channel : string) (d : deleted * Z) : bool :=
  inGuild (fst d) && bool_decide (channelId (fst d) = Some channel).

End Snipe.

(** ** Prefix commands *)

Module Prefix.
Import Js.

(** [toLowerCase] of a code unit below 256. *)
Definition lowerChar (c : ascii) : ascii :=
  if ((65 <=? code c) && (code c <=? 90))
     || ((192 <=? code c) && (code c <=? 222) && negb (code c =? 215))
  then ascii_of_nat (nat_of_ascii c + 32) else c.

Fixpoint lower (s : string) : string :=
  match s with
  | EmptyString => EmptyString
  | String c s' => String (lowerChar c) (lower s')
  end.

(** [s.split(/\s+/)]: the pieces between maximal runs of white space. *)
Fixpoint splitWs (s : string) : list string :=
  match s with
  | EmptyString => [EmptyString]
  | String c s' =>
      if isSpace c then
        match s' with
        | String c' _ => if isSpace c' then splitWs s' else EmptyString :: splitWs s'
        | EmptyString => [EmptyString; EmptyString]
        end
      else match splitWs s' with
           | p :: ps => String c p :: ps
           | [] => [String c EmptyString]
           end
  end.

(** [s.slice(1)] *)
Definition slice1 (s : string) : string :=
  match s with String _ s' => s' | EmptyString => EmptyString end.

Record message := Message {
  content : string;
  authorIsBot : bool;
  inGuild : bool;
}.

(** The command word and its arguments, [None] when the guard of the
    listener returns.  ([split] never returns an empty array, so
    [args.shift()] always finds the command word.) *)
Definition parse (msg : message) : option (string * list string) :=
  if negb (startsWith "!" (content msg)) || authorIsBot msg || negb (inGuild msg)
  then None
  else match splitWs (trim (slice1 (content msg))) with
       | cmd :: args => Some (lower cmd, args)
       | [] => None
       end.

(** What the moderation commands depend on besides the message: the
    permissions of the author, the first mentioned user (id and tag),
    whether fetching the member resolves, and whether the kick or ban
    resolves (with the error's message when it does not). *)
Record context := Context {
  mayKick : bool;
  mayBan : bool;
  mentioned : option (uid * string);
  memberFound : bool;
  platformError : option string;
}.

(** The calls a moderation command makes, in order. *)
Inductive action :=
| Say (textOf : string)
| FetchMember (userId : uid)
| Kick (userId : uid) (reason : string)
| Ban (userId : uid) (reason : string)
| SayDone (verb tag reason : string)        (* the reply after a success *)
| SayFailed (verb tag error : string).      (* the reply after a failure *)

(** [args.slice(1).join(' ') || 'No reason provided'] *)
Definition reasonOf (args : list string) : string :=
  match Health.join " " (drop 1 args) with
  | EmptyString => "No reason provided"
  | r => r
  end.

(** The [kick] branch. *)
Definition kick (ctx : context) (args : list string) : list action :=
  if negb (mayKick ctx) then [Say "You need the Kick Members permission."]
  else match mentioned ctx with
       | None => [Say "Mention a user to kick."]
       | Some (id, tag) =>
           if negb (memberFound ctx)
           then [FetchMember id; Say "User not found in this server."]
           else match platformError ctx with
                | None => [FetchMember id; Kick id (reasonOf args);
                           SayDone "Kicked" tag (reasonOf args)]
                | Some err => [FetchMember id; Kick id (reasonOf args);
                               SayFailed "kick" tag err]
                end
       end.

(** The [ban] branch. *)
Definition ban (ctx : context) (args : list string) : list action :=
  if negb (mayBan ctx) then [Say "You need the Ban Members permission."]
  else match mentioned ctx with
       | None => [Say "Mention a user to ban."]
       | Some (id, tag) =>
           match platformError ctx with
           | None => [Ban id (reasonOf args); SayDone "Banned" tag (reasonOf args)]
           | Some err => [Ban id (reasonOf args); SayFailed "ban" tag err]
           end
       end.

(** The calls of the [MessageCreate] listener that come from its
    moderation commands. *)
Definition moderation (ctx : context) (msg : message) : list action :=
  match parse msg with
  | Some (cmd, args) =>
      if String.eqb cmd "kick" then kick ctx args
      else if String.eqb cmd "ban" then ban ctx args
      else []
  | None => []
  end.

(** No white space in a word. *)
Definition word (s : string) : Prop :=
  Duration.allChars (fun c => negb (isSpace c)) s.

End Prefix.

(** * Properties *)

#[local] Arguments String.append !s1 s2 : simpl nomatch.

(** ** Doubles *)

Section DoubleFacts.
Import Double.

Lemma round53_small z : z < 2 ^ 53 -> round53 z = z.
Proof. intros H. unfold round53. now rewrite (proj2 (Z.ltb_lt _ _) H). Qed.

(** The pieces of [round53] above 2^53. *)
Lemma round53_large z :
  2 ^ 53 <= z ->
  exists s q rest,
    s = Z.log2 z - 52 /\ 1 <= s
    /\ z = q * 2 ^ s + rest /\ 0 <= rest < 2 ^ s
    /\ 2 ^ 52 <= q < 2 ^ 53
    /\ 2 ^ s = 2 * 2 ^ (s - 1)
    /\ (round53 z = q * 2 ^ s
        \/ round53 z = (q + 1) * 2 ^ s /\ 2 ^ (s - 1) <= rest).
Proof.
  intros Hz.
  assert (Hpos : 0 < z) by (assert (0 < 2 ^ 53) by reflexivity; lia).
  destruct (Z.log2_spec z Hpos) as [Hlo Hhi].
  assert (He : 53 <= Z.log2 z).
  { apply Z.log2_le_pow2; [exact Hpos | exact Hz]. }
  set (s := Z.log2 z - 52) in *.
  assert (Hs : 1 <= s) by (unfold s; lia).
  assert (Hp : 0 < 2 ^ s) by (apply Z.pow_pos_nonneg; lia).
  assert (Hsplit : 2 ^ Z.log2 z = 2 ^ 52 * 2 ^ s).
  { rewrite <- Z.pow_add_r by lia. f_equal. unfold s. lia. }
  assert (Hsplit' : 2 ^ Z.succ (Z.log2 z) = 2 ^ 53 * 2 ^ s).
  { rewrite <- Z.pow_add_r by lia. f_equal. unfold s. lia. }
  assert (Hhalf : 2 ^ s = 2 * 2 ^ (s - 1)).
  { replace s with (1 + (s - 1)) at 1 by lia. rewrite Z.pow_add_r by lia. reflexivity. }
  exists s, (z / 2 ^ s), (z mod 2 ^ s).
  pose proof (Z.div_mod z (2 ^ s) ltac:(lia)) as Hdm.
  pose proof (Z.mod_pos_bound z (2 ^ s) Hp) as Hm.
  split; [reflexivity |]. split; [exact Hs |].
  split; [lia |]. split; [exact Hm |].
  split.
  { split.
    - apply Z.div_le_lower_bound; [exact Hp |]. rewrite Z.mul_comm, <- Hsplit. exact Hlo.
    - apply Z.div_lt_upper_bound; [exact Hp |]. rewrite Z.mul_comm, <- Hsplit'. exact Hhi. }
  split; [exact Hhalf |].
  unfold round53. rewrite (proj2 (Z.ltb_ge _ _) Hz). fold s. cbv zeta.
  destruct ((2 ^ (s - 1) <? z mod 2 ^ s)
            || ((z mod 2 ^ s =? 2 ^ (s - 1)) && Z.odd (z / 2 ^ s))) eqn:E.
  - right. split; [reflexivity |].
    apply orb_true_iff in E as [E | E].
    + apply Z.ltb_lt in E. lia.
    + apply andb_true_iff in E as [E _]. apply Z.eqb_eq in E. lia.
  - now left.
Qed.

Lemma round53_nonneg z : 0 <= z -> 0 <= round53 z.
Proof.
  intros Hz. destruct (Z_lt_le_dec z (2 ^ 53)) as [H | H].
  - now rewrite round53_small.
  - destruct (round53_large z H) as (s & q & rest & _ & Hs & _ & _ & Hq & _ & [-> | [-> _]]);
      assert (0 < 2 ^ s) by (apply Z.pow_pos_nonneg; lia);
      assert (0 < 2 ^ 52) by reflexivity; nia.
Qed.

(** Rounding leaves a large number large. *)
Lemma round53_big z : 2 ^ 53 <= z -> 2 ^ 53 <= round53 z.
Proof.
  intros H.
  destruct (round53_large z H) as (s & q & rest & _ & Hs & _ & _ & Hq & Hh & Hr).
  assert (Hp : 2 <= 2 ^ s).
  { assert (0 < 2 ^ (s - 1)) by (apply Z.pow_pos_nonneg; lia). lia. }
  change (2 ^ 53) with (2 ^ 52 * 2).
  destruct Hr as [-> | [-> _]]; nia.
Qed.

(** Rounding moves a number up by at most one part in 2^53. *)
Lemma round53_above z : 0 <= z -> 2 ^ 53 * round53 z <= (2 ^ 53 + 1) * z.
Proof.
  intros Hz. destruct (Z_lt_le_dec z (2 ^ 53)) as [H | H].
  - rewrite round53_small by exact H. nia.
  - destruct (round53_large z H) as (s & q & rest & _ & Hs & Hzq & Hrest & Hq & Hh & Hr).
    set (P := 2 ^ s) in *. set (Hf := 2 ^ (s - 1)) in *.
    assert (HqP : 2 ^ 52 * P <= q * P) by nia.
    destruct Hr as [-> | [-> Hup]].
    + nia.
    + change (2 ^ 53) with (2 * 2 ^ 52) in *. nia.
Qed.

(** Rounding never moves a number below a double under it. *)
Lemma round53_floor k z :
  0 <= k -> round53 k = k -> k <= z -> k <= round53 z.
Proof.
  intros Hk Hrep Hle.
  destruct (Z_lt_le_dec z (2 ^ 53)) as [H | H].
  - now rewrite round53_small.
  - destruct (round53_large z H) as (s & q & rest & Hsd & Hs & Hzq & Hrest & Hq & Hh & Hr).
    assert (HP : 0 < 2 ^ s) by (apply Z.pow_pos_nonneg; lia).
    assert (Hdown : k <= q * 2 ^ s).
    { destruct (Z_lt_le_dec k (2 ^ 53)) as [Hk53 | Hk53].
      - change (2 ^ 53) with (2 ^ 52 * 2) in Hk53.
        assert (0 < 2 ^ (s - 1)) by (apply Z.pow_pos_nonneg; lia). nia.
      - destruct (round53_large k Hk53)
          as (sk & qk & rk & Hskd & Hsk & Hkq & Hrk & Hqk & Hhk & Hrk').
        assert (Hlog : Z.log2 k <= Z.log2 z) by (apply Z.log2_le_mono; exact Hle).
        assert (Hmult : exists a, k = a * 2 ^ sk).
        { destruct Hrk' as [E | [E _]]; rewrite Hrep in E; eauto. }
        destruct Hmult as [a Ha].
        destruct (Z.eq_dec sk s) as [-> | Hne].
        + assert (a <= q); [| nia].
          apply Z.lt_succ_r. apply Z.mul_lt_mono_pos_r with (2 ^ s); [exact HP |]. lia.
        + assert (Hlt : Z.log2 k < Z.log2 z) by lia.
          assert (Hpos : 0 < k) by (assert (0 < 2 ^ 53) by reflexivity; lia).
          destruct (Z.log2_spec k Hpos) as [_ Hhi].
          assert (2 ^ Z.succ (Z.log2 k) <= 2 ^ Z.log2 z)
            by (apply Z.pow_le_mono_r; lia).
          assert (Hsplit : 2 ^ Z.log2 z = 2 ^ 52 * 2 ^ s).
          { rewrite <- Z.pow_add_r by lia. f_equal. lia. }
          nia. }
    destruct Hr as [-> | [-> _]]; nia.
Qed.

(** A number of at most 53 bits times a power of two is a double. *)
Lemma round53_scaled m j : 0 <= m < 2 ^ 53 -> 0 <= j -> round53 (m * 2 ^ j) = m * 2 ^ j.
Proof.
  intros Hm Hj.
  destruct (Z_lt_le_dec (m * 2 ^ j) (2 ^ 53)) as [H | H]; [now apply round53_small |].
  assert (HPj : 0 < 2 ^ j) by (apply Z.pow_pos_nonneg; lia).
  assert (Hpos : 0 < m * 2 ^ j) by (assert (0 < 2 ^ 53) by reflexivity; lia).
  assert (Hlog : Z.log2 (m * 2 ^ j) < 53 + j).
  { apply Z.log2_lt_pow2; [exact Hpos |]. rewrite Z.pow_add_r by lia. nia. }
  assert (He : 53 <= Z.log2 (m * 2 ^ j)) by (apply Z.log2_le_pow2; assumption).
  unfold round53. rewrite (proj2 (Z.ltb_ge _ _) H). cbv zeta.
  set (s := Z.log2 (m * 2 ^ j) - 52).
  assert (Hs : 1 <= s <= j) by (unfold s; lia).
  assert (Hdiv : m * 2 ^ j = (m * 2 ^ (j - s)) * 2 ^ s).
  { rewrite <- Z.mul_assoc, <- Z.pow_add_r by lia. do 2 f_equal. lia. }
  assert (HPs : 0 < 2 ^ s) by (apply Z.pow_pos_nonneg; lia).
  assert (Hrest : (m * 2 ^ j) mod 2 ^ s = 0).
  { rewrite Hdiv. apply Z.mod_mul. lia. }
  assert (Hq : (m * 2 ^ j) / 2 ^ s = m * 2 ^ (j - s)).
  { rewrite Hdiv at 1. apply Z.div_mul. lia. }
  rewrite Hrest, Hq.
  assert (Hhalf : 0 < 2 ^ (s - 1)) by (apply Z.pow_pos_nonneg; lia).
  rewrite (proj2 (Z.ltb_ge _ _)) by lia.
  rewrite (proj2 (Z.eqb_neq _ _)) by lia.
  cbn [orb andb]. now rewrite <- Hdiv.
Qed.

(** A double below 1 is at most 1 - 2^-53. *)
Lemma random_below r : random r -> 0 <= r /\ 2 ^ 53 * r <= (2 ^ 53 - 1) * grid.
Proof.
  intros [Hd Hlt]. unfold double in Hd. apply andb_true_iff in Hd as [H0 Hrep].
  apply Z.leb_le in H0. apply Z.eqb_eq in Hrep. split; [exact H0 |].
  assert (HG : grid = 2 ^ 53 * 2 ^ 1021) by reflexivity.
  assert (HP : 0 < 2 ^ 1021) by reflexivity.
  destruct (Z_lt_le_dec r (2 ^ 53)) as [H | H].
  - rewrite HG. change (2 ^ 53) with 9007199254740992 in *. nia.
  - destruct (round53_large r H) as (s & q & rest & Hsd & Hs & Hrq & Hrest & Hq & _ & Hr).
    assert (Hlog : Z.log2 r < 1074).
    { apply Z.log2_lt_pow2; [assert (0 < 2 ^ 53) by reflexivity; lia | exact Hlt]. }
    assert (Hs' : 2 ^ s <= 2 ^ 1021) by (apply Z.pow_le_mono_r; lia).
    assert (HPs : 0 < 2 ^ s) by (apply Z.pow_pos_nonneg; lia).
    assert (Hmult : exists a, r = a * 2 ^ s).
    { destruct Hr as [E | [E _]]; rewrite Hrep in E; eauto. }
    destruct Hmult as [a Ha].
    assert (Ha' : a <= 2 ^ 53 - 1).
    { assert (a < 2 ^ 53); [| lia].
      apply Z.mul_lt_mono_pos_r with (2 ^ s); [exact HPs |]. nia. }
    rewrite HG, Ha. change (2 ^ 53) with 9007199254740992 in *. nia.
Qed.

(** The index [Math.floor(Math.random() * n)] lies in [0, n). *)
Lemma floorTimes_index r n : random r -> 0 < n -> 0 <= floorTimes r n < n.
Proof.
  intros Hr Hn. destruct (random_below r Hr) as [H0 Hb].
  unfold floorTimes.
  assert (HG : 0 < grid) by reflexivity.
  assert (HN : 0 <= r * n) by nia.
  pose proof (round53_nonneg _ HN) as Hlo.
  pose proof (round53_above _ HN) as Hup.
  split; [apply Z.div_pos; assumption |].
  apply Z.div_lt_upper_bound; [exact HG |].
  assert (Hmul : 2 ^ 53 * (r * n) <= (2 ^ 53 - 1) * (grid * n)) by nia.
  assert (HGn : 0 < grid * n) by nia.
  change (2 ^ 53) with 9007199254740992 in *.
  generalize dependent (round53 (r * n)). generalize dependent (grid * n).
  generalize dependent (r * n). intros. lia.
Qed.

(** A number at least 2^53, or [Infinity]. *)
Definition big (x : number) : Prop :=
  match x with
  | Fin n => 2 ^ 53 <= Z.of_N n
  | Infinity => True
  | NaN => False
  end.

(** [x] is what the program has where exact arithmetic has [z]: the
    same integer as long as [z] is below 2^53, and a number of at
    least 2^53 from there on. *)
Definition tracks (x : number) (z : Z) : Prop :=
  (z < 2 ^ 53 /\ x = Fin (Z.to_N z)) \/ (2 ^ 53 <= z /\ big x).

Lemma rnd_small z : 0 <= z < 2 ^ 53 -> rnd z = Fin (Z.to_N z).
Proof.
  intros [H0 H1]. unfold rnd. rewrite (round53_small z H1).
  assert (H : z < 2 ^ 1024).
  { eapply Z.lt_trans; [exact H1 | reflexivity]. }
  now rewrite (proj2 (Z.ltb_lt _ _) H).
Qed.

Lemma rnd_big z : 2 ^ 53 <= z -> big (rnd z).
Proof.
  intros H. unfold rnd.
  pose proof (round53_big z H) as Hb.
  destruct (round53 z <? 2 ^ 1024); [| exact I].
  cbn [big]. rewrite Z2N.id; [exact Hb |].
  assert (0 < 2 ^ 53) by reflexivity. lia.
Qed.

Lemma tracks_rnd z : 0 <= z -> tracks (rnd z) z.
Proof.
  intros H0. destruct (Z_lt_le_dec z (2 ^ 53)) as [H | H].
  - left. split; [exact H | now apply rnd_small].
  - right. split; [exact H | now apply rnd_big].
Qed.

Lemma tracks_mul x z k :
  0 <= z -> (0 < k)%N -> tracks x z -> tracks (mul x (Fin k)) (z * Z.of_N k).
Proof.
  intros Hz Hk [[Hs ->] | [Hb Hx]].
  - cbn [mul]. rewrite Z2N.id by exact Hz. apply tracks_rnd. nia.
  - right. split; [nia |].
    destruct x as [m | |]; cbn [mul big] in *.
    + apply rnd_big. nia.
    + destruct (N.eqb_spec k 0); [lia | exact I].
    + contradiction.
Qed.

Lemma tracks_add x y a b :
  0 <= a -> 0 <= b -> tracks x a -> tracks y b -> tracks (add x y) (a + b).
Proof.
  intros Ha Hb [[Hsa ->] | [Hba Hx]] [[Hsb ->] | [Hbb Hy]].
  - cbn [add]. rewrite !Z2N.id by assumption. apply tracks_rnd. lia.
  - right. split; [lia |].
    destruct y as [n | |]; cbn [add big] in *; [| exact I | contradiction].
    apply rnd_big. rewrite Z2N.id by assumption. lia.
  - right. split; [lia |].
    destruct x as [m | |]; cbn [add big] in *; [| exact I | contradiction].
    apply rnd_big. rewrite Z2N.id by assumption. lia.
  - right. split; [lia |].
    destruct x as [m | |], y as [n | |]; cbn [add big] in *;
      try exact I; try contradiction.
    apply rnd_big. lia.
Qed.

Lemma tracks_positive x z : 0 <= z -> tracks x z -> positive x = (0 <? z).
Proof.
  intros Hz [[Hs ->] | [Hb Hx]].
  - cbn [positive]. destruct (Z.ltb_spec 0 z), (N.ltb_spec 0 (Z.to_N z)); try reflexivity; lia.
  - assert (0 < 2 ^ 53) by reflexivity.
    rewrite (proj2 (Z.ltb_lt 0 z)) by lia.
    destruct x as [m | |]; cbn [positive big] in *; [| reflexivity | contradiction].
    apply N.ltb_lt. lia.
Qed.

(** The definitions agree with the Standard Library's specification
    of binary64 where rounding shows: at ties, next to them, and at the
    overflow threshold. *)
Example rnd_as_specified :
  Forall (fun z => ofSpec (toSpec z) = rnd z)
         [0; 1; 2 ^ 53 - 1; 2 ^ 53; 2 ^ 53 + 1; 2 ^ 53 + 2; 2 ^ 53 + 3;
          2 ^ 54 + 2; 2 ^ 54 + 5; 2 ^ 54 + 6; 2 ^ 54 + 7;
          9007199254740993000; 10 ^ 23; 10 ^ 308; 2 * 10 ^ 308;
          2 ^ 1024 - 2 ^ 971; 2 ^ 1024 - 2 ^ 970 - 1; 2 ^ 1024 - 2 ^ 970; 2 ^ 1024]
  /\ ofSpec (SFmul 53 1024 (toSpec 9007199254740993) (toSpec 1000))
     = mul (rnd 9007199254740993) (Fin 1000)
  /\ ofSpec (SFadd 53 1024 (toSpec 9007199254740992000) (toSpec 1000))
     = add (Fin 9007199254740992000) (Fin 1000)
  /\ ofSpec (SFmul 53 1024 (toSpec (10 ^ 305)) (toSpec 1000)) = mul (rnd (10 ^ 305)) (Fin 1000)
  /\ ofSpec (SFmul 53 1024 (toSpec (2 * 10 ^ 305)) (toSpec 1000)) = Infinity
  /\ mul (rnd (2 * 10 ^ 305)) (Fin 1000) = Infinity.
Proof. repeat split; repeat constructor; vm_compute; reflexivity. Qed.

(** The same for a product with a fraction: 2573485501354569 / 2^52
    times 7, which is a little under 4 and rounds to 4. *)
Example floorTimes_as_specified :
  double (2573485501354569 * 2 ^ 1022) = true
  /\ binary_normalize 53 1024 (2573485501354569 * 7) (-52) false
     = S754_finite false (2 ^ 52) (-50)
  /\ round53 (2573485501354569 * 2 ^ 1022 * 7) = 4 * grid
  /\ floorTimes (2573485501354569 * 2 ^ 1022) 7 = 4.
Proof. repeat split; vm_compute; reflexivity. Qed.

End DoubleFacts.

(** ** parseDuration *)

Section DurationFacts.
Import Js Double Duration.

Lemma spanDigits_app s ds r :
  spanDigits s = (ds, r) -> s = ds +:+ r /\ allChars isDigit ds.
Proof.
  revert ds r. induction s as [|c s IH]; simpl; intros ds r E.
  - inversion E. split; [reflexivity | exact I].
  - destruct (isDigit c) eqn:Hc.
    + destruct (spanDigits s) as [ds' r'] eqn:Es. inversion E; subst.
      destruct (IH _ _ eq_refl) as [-> Hd]. simpl. repeat split; assumption.
    + inversion E; subst. split; [reflexivity | exact I].
Qed.

Lemma skipSpaces_app s :
  exists ws, s = ws +:+ skipSpaces s /\ allChars isSpace ws.
Proof.
  induction s as [|c s [ws [E Hws]]]; simpl.
  - exists EmptyString. split; [reflexivity | exact I].
  - destruct (isSpace c) eqn:Hc.
    + exists (String c ws). simpl. rewrite <- E. repeat split; assumption.
    + exists EmptyString. split; [reflexivity | exact I].
Qed.

Lemma length_app (a b : string) :
  String.length (a +:+ b) = (String.length a + String.length b)%nat.
Proof. induction a; simpl; [reflexivity | now rewrite IHa]. Qed.

Lemma app_assoc' (a b c : string) : (a +:+ b) +:+ c = a +:+ (b +:+ c).
Proof. induction a; simpl; [reflexivity | now rewrite IHa]. Qed.

(** A match found by [matchHere] is a token at the head of the text. *)
Lemma matchHere_sound s ds u rest :
  matchHere s = Some (ds, u, rest) ->
  exists ws, s = ds +:+ ws +:+ String u rest
             /\ ds <> EmptyString /\ allChars isDigit ds
             /\ allChars isSpace ws /\ isUnit u = true.
Proof.
  unfold matchHere. destruct (spanDigits s) as [ds0 r] eqn:Es.
  destruct (spanDigits_app _ _ _ Es) as [-> Hd].
  destruct (skipSpaces_app r) as [ws [Er Hws]].
  destruct ds0 as [|d ds0]; [discriminate |].
  destruct (skipSpaces r) as [|u0 rest0] eqn:Ek; [discriminate |].
  destruct (isUnit u0) eqn:Hu; [| discriminate].
  intros E; inversion E; subst. exists ws.
  repeat split; try assumption; try discriminate; apply Hd.
Qed.

(** A match found by [exec] is a token somewhere in the text. *)
Lemma exec_sound s ds u rest :
  exec s = Some (ds, u, rest) ->
  exists pre ws, s = pre +:+ ds +:+ ws +:+ String u rest
                 /\ ds <> EmptyString /\ allChars isDigit ds
                 /\ allChars isSpace ws /\ isUnit u = true.
Proof.
  induction s as [|c s IH]; simpl.
  - discriminate.
  - destruct (matchHere (String c s)) as [[[ds0 u0] rest0]|] eqn:Em.
    + intros E; inversion E; subst.
      destruct (matchHere_sound _ _ _ _ Em) as [ws H].
      exists EmptyString, ws. exact H.
    + intros E. destruct (IH E) as [pre [ws [-> H]]].
      exists (String c pre), ws. split; [reflexivity | exact H].
Qed.

Lemma exec_hasToken s m : exec s = Some m -> hasToken s.
Proof.
  destruct m as [[ds u] rest]. intros E.
  destruct (exec_sound _ _ _ _ E) as [pre [ws H]].
  exists pre, ds, ws, u, rest. exact H.
Qed.

(** Each match consumes at least two characters. *)
Lemma exec_shorter s ds u rest :
  exec s = Some (ds, u, rest) -> (S (String.length rest) < String.length s)%nat.
Proof.
  intros E. destruct (exec_sound _ _ _ _ E) as [pre [ws [-> [Hne _]]]].
  rewrite !length_app. destruct ds; [congruence |]. simpl. lia.
Qed.

Lemma isUnit_not_space u : isUnit u = true -> isSpace u = false.
Proof. destruct u as [[] [] [] [] [] [] [] []]; vm_compute; congruence. Qed.

Lemma isUnit_not_digit u : isUnit u = true -> isDigit u = false.
Proof. destruct u as [[] [] [] [] [] [] [] []]; vm_compute; congruence. Qed.

Lemma isSpace_not_digit u : isSpace u = true -> isDigit u = false.
Proof. destruct u as [[] [] [] [] [] [] [] []]; vm_compute; congruence. Qed.

Lemma spanDigits_stop ds r :
  allChars isDigit ds ->
  match r with String c _ => isDigit c = false | EmptyString => True end ->
  spanDigits (ds +:+ r) = (ds, r).
Proof.
  intros Hd Hr. induction ds as [|d ds IH]; simpl.
  - destruct r as [|c r]; [reflexivity |]. simpl. now rewrite Hr.
  - destruct Hd as [Hd1 Hd2]. rewrite Hd1, (IH Hd2). reflexivity.
Qed.

Lemma skipSpaces_stop ws u rest :
  allChars isSpace ws -> isSpace u = false ->
  skipSpaces (ws +:+ String u rest) = String u rest.
Proof.
  intros Hw Hu. induction ws as [|w ws IH]; simpl.
  - now rewrite Hu.
  - destruct Hw as [Hw1 Hw2]. rewrite Hw1. exact (IH Hw2).
Qed.

(** The greedy attempt finds every token that starts at the head of
    the text: no other way of splitting the digits and the spaces can
    match where it fails. *)
Lemma matchHere_complete ds ws u post :
  ds <> EmptyString -> allChars isDigit ds -> allChars isSpace ws ->
  isUnit u = true ->
  matchHere (ds +:+ ws +:+ String u post) = Some (ds, u, post).
Proof.
  intros Hne Hd Hw Hu. unfold matchHere.
  rewrite spanDigits_stop; [| assumption |].
  - destruct ds; [congruence |].
    rewrite skipSpaces_stop by auto using isUnit_not_space.
    now rewrite Hu.
  - destruct ws as [|w ws]; simpl.
    + now apply isUnit_not_digit.
    + apply isSpace_not_digit, Hw.
Qed.

Lemma exec_matchHere s m : matchHere s = Some m -> exec s = Some m.
Proof.
  intros H. destruct s as [|c s].
  - discriminate H.
  - change (exec (String c s))
      with (match matchHere (String c s) with
            | Some m => Some m
            | None => exec s
            end).
    now rewrite H.
Qed.

(** [exec] returns [null] exactly on the texts without a token. *)
Lemma exec_complete s : hasToken s -> exec s <> None.
Proof.
  intros (pre & ds & ws & u & post & -> & Hne & Hd & Hw & Hu).
  induction pre as [|c pre IH].
  - simpl "+:+".
    rewrite (exec_matchHere _ _ (matchHere_complete ds ws u post Hne Hd Hw Hu)).
    discriminate.
  - change (exec (String c pre +:+ ds +:+ ws +:+ String u post))
      with (match matchHere (String c (pre +:+ ds +:+ ws +:+ String u post)) with
            | Some m => Some m
            | None => exec (pre +:+ ds +:+ ws +:+ String u post)
            end).
    destruct (matchHere (String c (pre +:+ ds +:+ ws +:+ String u post)));
      [discriminate | exact IH].
Qed.

Lemma total_cons t l : total (t :: l) = contribution t + total l.
Proof. reflexivity. Qed.

Lemma computed_cons ms t l :
  computed ms (t :: l) = computed (addUnit ms (rnd (fst t)) (snd t)) l.
Proof. reflexivity. Qed.

(** The loop ends within the fuel [parseDuration] gives it, on what
    its matches add up to. *)
Lemma whileExec_enough fuel s l ms :
  Tokens s l -> (String.length s < fuel)%nat ->
  whileExec fuel s ms = Some (computed ms l).
Proof.
  intros HT. revert fuel ms.
  induction HT as [s E | s ds u rest l E HT IH]; intros fuel ms Hf.
  - destruct fuel; [lia |]. simpl. now rewrite E.
  - destruct fuel; [lia |]. cbn [whileExec]. rewrite E. rewrite computed_cons.
    apply exec_shorter in E.
    now rewrite IH by lia.
Qed.

(** The loop has a trace on every text. *)
Lemma Tokens_total s : exists l, Tokens s l.
Proof.
  remember (String.length s) as n eqn:Hn.
  revert s Hn. induction n as [n IH] using lt_wf_ind. intros s ->.
  destruct (exec s) as [[[ds u] rest]|] eqn:E.
  - destruct (IH (String.length rest)) with (s := rest) as [l Hl];
      [apply exec_shorter in E; lia | reflexivity |].
    eexists. eapply Tokens_step; eassumption.
  - exists []. now constructor.
Qed.

Lemma Tokens_unique s l1 l2 : Tokens s l1 -> Tokens s l2 -> l1 = l2.
Proof.
  intros H1. revert l2.
  induction H1 as [s E | s ds u rest l E H1 IH]; intros l2 H2;
    inversion H2; subst; try congruence.
  match goal with H : exec s = Some _ |- _ => rewrite E in H; inversion H; subst end.
  f_equal. now apply IH.
Qed.

Lemma Tokens_empty l : Tokens EmptyString l -> l = [].
Proof. intros H. inversion H; subst; [reflexivity | discriminate]. Qed.

(** [parseDuration] in terms of the matches of its loop. *)
Lemma parseDuration_tokens s l :
  Tokens s l ->
  parseDuration s
  = if positive (computed (Fin 0) l) then Some (computed (Fin 0) l) else None.
Proof.
  intros HT. unfold parseDuration.
  destruct s as [|c s].
  - apply Tokens_empty in HT. subst. reflexivity.
  - cbn [nonEmpty negb].
    now rewrite (whileExec_enough _ _ l (Fin 0) HT) by lia.
Qed.

Lemma digitsValue_nonneg ds acc :
  allChars isDigit ds -> 0 <= acc -> 0 <= digitsValue acc ds.
Proof.
  revert acc. induction ds as [|c ds IH]; intros acc Hd Hacc; cbn [digitsValue].
  - exact Hacc.
  - destruct Hd as [Hc Hd]. apply IH; [exact Hd |].
    unfold isDigit in Hc. apply andb_true_iff in Hc as [Hc _].
    apply Z.leb_le in Hc. unfold digitVal. lia.
Qed.

(** The values of the tokens are not negative. *)
Lemma Tokens_nonneg s l : Tokens s l -> Forall (fun t : Z * ascii => 0 <= fst t) l.
Proof.
  induction 1 as [s E | s ds u rest l E HT IH]; constructor; [| exact IH].
  destruct (exec_sound _ _ _ _ E) as (pre & ws & _ & _ & Hd & _).
  cbn [fst]. apply digitsValue_nonneg; [exact Hd | lia].
Qed.

Lemma contribution_nonneg v u : 0 <= v -> 0 <= contribution (v, u).
Proof.
  intros Hv. destruct u as [[] [] [] [] [] [] [] []]; cbn [contribution]; lia.
Qed.

Lemma total_nonneg l : Forall (fun t : Z * ascii => 0 <= fst t) l -> 0 <= total l.
Proof.
  induction 1 as [|[v u] l Hv _ IH]; [reflexivity |].
  rewrite total_cons. pose proof (contribution_nonneg v u Hv). lia.
Qed.

(** One turn of the loop against exact arithmetic. *)
Lemma addUnit_tracks ms a v u :
  0 <= a -> 0 <= v -> tracks ms a ->
  tracks (addUnit ms (rnd v) u) (a + contribution (v, u)).
Proof.
  intros Ha Hv Hms.
  pose proof (tracks_rnd v Hv) as Hval.
  assert (Hd1 : tracks (mul (rnd v) (Fin 24)) (v * 24))
    by (apply (tracks_mul _ v 24); [lia | reflexivity | exact Hval]).
  assert (Hd2 : tracks (mul (mul (rnd v) (Fin 24)) (Fin 60)) (v * 24 * 60))
    by (apply (tracks_mul _ (v * 24) 60); [lia | reflexivity | exact Hd1]).
  assert (Hd3 : tracks (mul (mul (mul (rnd v) (Fin 24)) (Fin 60)) (Fin 60))
                       (v * 24 * 60 * 60))
    by (apply (tracks_mul _ (v * 24 * 60) 60); [lia | reflexivity | exact Hd2]).
  assert (Hd4 : tracks (mul (mul (mul (mul (rnd v) (Fin 24)) (Fin 60)) (Fin 60)) (Fin 1000))
                       (v * 24 * 60 * 60 * 1000))
    by (apply (tracks_mul _ (v * 24 * 60 * 60) 1000); [lia | reflexivity | exact Hd3]).
  assert (Hh1 : tracks (mul (rnd v) (Fin 60)) (v * 60))
    by (apply (tracks_mul _ v 60); [lia | reflexivity | exact Hval]).
  assert (Hh2 : tracks (mul (mul (rnd v) (Fin 60)) (Fin 60)) (v * 60 * 60))
    by (apply (tracks_mul _ (v * 60) 60); [lia | reflexivity | exact Hh1]).
  assert (Hh3 : tracks (mul (mul (mul (rnd v) (Fin 60)) (Fin 60)) (Fin 1000))
                       (v * 60 * 60 * 1000))
    by (apply (tracks_mul _ (v * 60 * 60) 1000); [lia | reflexivity | exact Hh2]).
  assert (Hm2 : tracks (mul (mul (rnd v) (Fin 60)) (Fin 1000)) (v * 60 * 1000))
    by (apply (tracks_mul _ (v * 60) 1000); [lia | reflexivity | exact Hh1]).
  assert (Hs1 : tracks (mul (rnd v) (Fin 1000)) (v * 1000))
    by (apply (tracks_mul _ v 1000); [lia | reflexivity | exact Hval]).
  unfold addUnit.
  destruct u as [[] [] [] [] [] [] [] []];
    cbn [Ascii.eqb Bool.eqb contribution];
    first
      [ rewrite Z.add_0_r; exact Hms
      | replace (v * 86400000) with (v * 24 * 60 * 60 * 1000) by lia;
        apply tracks_add; [lia | lia | exact Hms | exact Hd4]
      | replace (v * 3600000) with (v * 60 * 60 * 1000) by lia;
        apply tracks_add; [lia | lia | exact Hms | exact Hh3]
      | replace (v * 60000) with (v * 60 * 1000) by lia;
        apply tracks_add; [lia | lia | exact Hms | exact Hm2]
      | apply tracks_add; [lia | lia | exact Hms | exact Hs1] ].
Qed.

(** The loop against exact arithmetic: the sum of the contributions
    while that is below 2^53, a number of at least 2^53 or [Infinity]
    from there on. *)
Lemma computed_tracks l : forall ms a,
  Forall (fun t : Z * ascii => 0 <= fst t) l ->
  0 <= a -> tracks ms a -> tracks (computed ms l) (a + total l).
Proof.
  induction l as [|[v u] l IH]; intros ms a Hl Ha Hms.
  - cbn [computed fold_left total fold_right]. now rewrite Z.add_0_r.
  - inversion Hl as [|? ? Hv Hl']; subst. cbn [fst] in Hv.
    rewrite computed_cons, total_cons, Z.add_assoc. cbn [fst snd].
    apply IH; [exact Hl' | pose proof (contribution_nonneg v u Hv); lia |].
    now apply addUnit_tracks.
Qed.

Lemma parseDuration_tracks s l :
  Tokens s l -> 0 <= total l /\ tracks (computed (Fin 0) l) (total l).
Proof.
  intros HT. pose proof (Tokens_nonneg s l HT) as Hn.
  split; [now apply total_nonneg |].
  apply (computed_tracks l (Fin 0) 0 Hn); [lia |].
  left. split; reflexivity.
Qed.

(** Below 2^53 the parser is exact. *)
Lemma parseDuration_exact s l :
  Tokens s l -> total l < 2 ^ 53 ->
  parseDuration s = if 0 <? total l then Some (Fin (Z.to_N (total l))) else None.
Proof.
  intros HT Hs. rewrite (parseDuration_tokens s l HT).
  destruct (parseDuration_tracks s l HT) as [H0 Ht].
  rewrite (tracks_positive _ _ H0 Ht).
  destruct Ht as [[_ ->] | [Hb _]]; [reflexivity | lia].
Qed.



(** C5. [parseDuration] maps "1h30m" to 5400000 and "10m" to 600000,
    and returns [null] on every string that contains no unit token
    (digits, optional white space, then one of d, h, m, s). *)
Theorem parseDuration_examples :
  parseDuration "1h30m" = Some (Fin 5400000)
  /\ parseDuration "10m" = Some (Fin 600000)
  /\ forall s, ~ hasToken s -> parseDuration s = None.
Proof.
  split; [reflexivity |]. split; [reflexivity |].
  intros s Hno.
  destruct (Tokens_total s) as [l HT].
  rewrite (parseDuration_tokens s l HT).
  inversion HT as [s' E | s' ds u rest l' E HT']; subst.
  - reflexivity.
  - exfalso. apply Hno. eapply exec_hasToken; eassumption.
Qed.

(** A text without any unit token, run through the theorem. *)
Lemma parseDuration_examples_witness :
  ~ hasToken "soon, 15 v" /\ parseDuration "soon, 15 v" = None.
Proof.
  assert (H : ~ hasToken "soon, 15 v").
  { intros H. apply exec_complete in H. apply H. reflexivity. }
  split; [exact H |].
  exact (proj2 (proj2 parseDuration_examples) "soon, 15 v" H).
Defined.




End DurationFacts.

(** ** Tic-tac-toe *)

Section TicTacToeFacts.
Import Js TicTacToe.

Lemma mark_eqb_eq a b : mark_eqb a b = true <-> a = b.
Proof. destruct a, b; simpl; split; congruence. Qed.

Lemma cell_eqb_Some m c : cell_eqb (Some m) c = true <-> c = Some m.
Proof.
  destruct c as [n|]; simpl.
  - rewrite mark_eqb_eq. split; congruence.
  - split; discriminate.
Qed.

(** The test of the loop succeeds with [m] exactly on a line fully
    occupied by [m]. *)
Lemma lineWinner_occupies b l m :
  lineWinner b l = Some m <-> occupies b m l.
Proof.
  destruct l as [[i j] k]. unfold lineWinner, occupies.
  destruct (cellAt b i) as [n|] eqn:Hi.
  - destruct (cell_eqb (Some n) (cellAt b j)) eqn:Hj;
      destruct (cell_eqb (Some n) (cellAt b k)) eqn:Hk; simpl;
      try (apply cell_eqb_Some in Hj); try (apply cell_eqb_Some in Hk).
    + rewrite Hj, Hk. split; [intros [= ->]; auto | intros [[= ->] _]; auto].
    + split; [discriminate |]. intros ([= ->] & _ & E).
      apply cell_eqb_Some in E. congruence.
    + split; [discriminate |]. intros ([= ->] & E & _).
      apply cell_eqb_Some in E. congruence.
    + split; [discriminate |]. intros ([= ->] & E & _).
      apply cell_eqb_Some in E. congruence.
  - split; [discriminate | intros [E _]; discriminate].
Qed.

Lemma firstWinner_Some b ls m :
  firstWinner b ls = Some m -> exists l, In l ls /\ occupies b m l.
Proof.
  induction ls as [|l ls IH]; simpl; [discriminate |].
  destruct (lineWinner b l) as [n|] eqn:E.
  - intros [= ->]. exists l. split; [now left | now apply lineWinner_occupies].
  - intros H. destruct (IH H) as [l' [Hin Hocc]]. exists l'. split; [now right | exact Hocc].
Qed.

Lemma firstWinner_None b ls :
  firstWinner b ls = None <-> forall l m, In l ls -> ~ occupies b m l.
Proof.
  induction ls as [|l ls IH]; simpl.
  - split; [intros _ l m [] | reflexivity].
  - destruct (lineWinner b l) as [n|] eqn:E.
    + split; [discriminate |]. intros H. exfalso.
      apply (H l n); [now left | now apply lineWinner_occupies].
    + rewrite IH. split.
      * intros H l' m [<- | Hin] Hocc; [| exact (H l' m Hin Hocc)].
        apply lineWinner_occupies in Hocc. congruence.
      * intros H l' m Hin. apply H. now right.
Qed.

Lemma firstWinner_someLine b :
  (exists m, firstWinner b lines = Some m) <-> someLine b.
Proof.
  split.
  - intros [m H]. exists m. now apply firstWinner_Some.
  - intros (m & l & Hin & Hocc).
    destruct (firstWinner b lines) as [n|] eqn:E; [eauto |].
    exfalso. exact (proj1 (firstWinner_None b lines) E l m Hin Hocc).
Qed.





(** When only one mark holds a line, that mark is the one returned. *)
Lemma tttWinner_mark (b : list cell) m :
  (forall n l, In l lines -> occupies b n l -> n = m) ->
  tttWinner b = Winner m <-> someLine b.
Proof.
  intros Honly. unfold tttWinner. pose proof (firstWinner_someLine b) as Hln.
  destruct (firstWinner b lines) as [n|] eqn:E.
  - destruct (firstWinner_Some _ _ _ E) as (l & Hin & Hocc).
    rewrite (Honly n l Hin Hocc). split; [intros _; apply Hln; eauto | reflexivity].
  - split; [destruct (forallb _ b); discriminate |].
    intros H. apply Hln in H as [n H]. discriminate.
Qed.

(** With a line of each mark on the board, the first line in the
    order of [lines] decides. *)
Example tttWinner_first_line :
  tttWinner [Some O; Some O; Some O; Some X; Some X; Some X; None; None; None]
  = Winner O.
Proof. reflexivity. Qed.

Lemma includes_In (u : uid) (l : list uid) :
  existsb (String.eqb u) l = true <-> In u l.
Proof.
  rewrite existsb_exists. split.
  - intros [x [Hin Heq]]. apply String.eqb_eq in Heq. now subst.
  - intros Hin. exists u. split; [exact Hin | apply String.eqb_refl].
Qed.

(** The three guards, one by one, on a button of the game message. *)
Lemma collect_not_participant g btn :
  startsWith "ttt:" (customId btn) = true ->
  ~ In (user btn) (players g) ->
  collect g btn = Some (g, Reply "Not your game.").
Proof.
  intros Hid Hout. unfold collect. rewrite Hid. cbn [negb].
  destruct (existsb (String.eqb (user btn)) (players g)) eqn:E; [| reflexivity].
  apply includes_In in E. contradiction.
Qed.

Lemma collect_wrong_turn g btn :
  startsWith "ttt:" (customId btn) = true ->
  In (user btn) (players g) ->
  atNum (players g) (Some (turn g)) <> Some (user btn) ->
  collect g btn = Some (g, Reply "Wait your turn.").
Proof.
  intros Hid Hin Hturn. unfold collect. rewrite Hid. cbn [negb].
  apply includes_In in Hin. rewrite Hin. cbn [negb].
  rewrite bool_decide_eq_false_2 by congruence. reflexivity.
Qed.

Lemma collect_spot_taken g btn :
  startsWith "ttt:" (customId btn) = true ->
  atNum (players g) (Some (turn g)) = Some (user btn) ->
  is_Some (mjoin (atNum (board g) (target btn))) ->
  collect g btn = Some (g, Reply "Spot taken.").
Proof.
  intros Hid Hturn Hocc. unfold collect. rewrite Hid. cbn [negb].
  assert (Hin : In (user btn) (players g)).
  { unfold atNum in Hturn. destruct (0 <=? turn g); [| discriminate].
    apply list_elem_of_In. eapply list_elem_of_lookup_2, Hturn. }
  apply includes_In in Hin. rewrite Hin. cbn [negb].
  rewrite bool_decide_eq_true_2 by congruence. cbn [negb].
  rewrite bool_decide_eq_true_2 by assumption. reflexivity.
Qed.

(** C2. A move by somebody who is not one of the players, a move by a
    player out of turn, and a move onto an occupied cell are all
    refused: the handler answers without touching the record, so the
    board, the turn index and the player list are what they were. *)
Theorem collect_refuses (g : game) (btn : button) :
  (~ In (user btn) (players g)
   \/ (In (user btn) (players g)
       /\ atNum (players g) (Some (turn g)) <> Some (user btn))
   \/ is_Some (mjoin (atNum (board g) (target btn)))) ->
  exists g' r,
    collect g btn = Some (g', r) /\ refusal r
    /\ g' = g
    /\ board g' = board g /\ turn g' = turn g /\ players g' = players g.
Proof.
  intros Hcase. exists g.
  enough (exists r, collect g btn = Some (g, r) /\ refusal r) as (r & Hr & Href)
      by (exists r; repeat split; assumption).
  unfold refusal.
  destruct (startsWith "ttt:" (customId btn)) eqn:Hid.
  2: { exists Silent. unfold collect. rewrite Hid. auto. }
  destruct (existsb (String.eqb (user btn)) (players g)) eqn:Hin.
  2: { exists (Reply "Not your game."). split; [| auto].
       apply collect_not_participant; [assumption |].
       rewrite <- includes_In. congruence. }
  apply includes_In in Hin.
  destruct (decide (atNum (players g) (Some (turn g)) = Some (user btn))) as [Ht | Ht].
  2: { exists (Reply "Wait your turn."). split; [| auto].
       now apply collect_wrong_turn. }
  destruct Hcase as [Hout | [[_ Hwrong] | Hocc]]; try contradiction.
  exists (Reply "Spot taken."). split; [| auto 6].
  now apply collect_spot_taken.
Qed.

(** A move out of turn in a fresh game, run through the theorem. *)
Lemma collect_refuses_witness :
  exists g' r,
    collect (newGame "alice" "bob") (Button "ttt:4" "bob") = Some (g', r)
    /\ refusal r
    /\ g' = newGame "alice" "bob"
    /\ board g' = board (newGame "alice" "bob")
    /\ turn g' = turn (newGame "alice" "bob")
    /\ players g' = players (newGame "alice" "bob").
Proof.
  apply (collect_refuses (newGame "alice" "bob") (Button "ttt:4" "bob")).
  right; left. split.
  - simpl. auto.
  - simpl. discriminate.
Defined.

(** A legal move, for contrast: the mark is placed and the turn
    passes. *)
Example collect_plays :
  collect (newGame "alice" "bob") (Button "ttt:4" "alice")
  = Some (Game ["alice"; "bob"] 1
               [None; None; None; None; Some X; None; None; None; None],
          Update ("<@alice> (X) vs <@bob> (O)" +:+ newline +:+ "Turn: <@bob>") false).
Proof. reflexivity. Qed.

End TicTacToeFacts.

(** ** Polls *)

Section PollFacts.
Import Js Poll.

Lemma fold_count_acc (opts : list pollOption) (a : Z) :
  fold_left (fun a b => a + count b) opts a = a + totalVotes opts.
Proof.
  unfold totalVotes. revert a.
  induction opts as [|o opts IH]; intros a; simpl; [lia |].
  rewrite (IH (a + count o)), (IH (0 + count o)). lia.
Qed.

Lemma totalVotes_cons o opts : totalVotes (o :: opts) = count o + totalVotes opts.
Proof. unfold totalVotes at 1. simpl. now rewrite fold_count_acc. Qed.

(** Changing one counter by [d] changes the total by [d]. *)
Lemma totalVotes_insert (opts : list pollOption) i o d :
  opts !! i = Some o ->
  totalVotes (<[i := PollOption (label o) (count o + d)]> opts) = totalVotes opts + d.
Proof.
  revert i. induction opts as [|x opts IH]; intros [|i] Hi; simpl in *; try discriminate.
  - inversion Hi; subst. rewrite !totalVotes_cons. simpl. lia.
  - rewrite !totalVotes_cons, (IH i Hi). lia.
Qed.

Lemma atNum_index {A} (l : list A) (i : nat) : atNum l (Some (Z.of_nat i)) = l !! i.
Proof.
  unfold atNum. rewrite (proj2 (Z.leb_le 0 (Z.of_nat i))) by lia.
  now rewrite Nat2Z.id.
Qed.

(** [bump] on a rendered index succeeds, keeps the labels and the
    length, and moves the total by [d]. *)
Lemma bump_index d (opts : list pollOption) (i : nat) :
  (i < length opts)%nat ->
  exists opts', bump d opts (Some (Z.of_nat i)) = Some opts'
                /\ length opts' = length opts
                /\ totalVotes opts' = totalVotes opts + d.
Proof.
  intros Hi. unfold bump. rewrite atNum_index.
  destruct (lookup_lt_is_Some_2 opts i Hi) as [o Ho]. rewrite Ho.
  eexists. split; [reflexivity |].
  change (default 0 (Some (Z.of_nat i))) with (Z.of_nat i). rewrite Nat2Z.id.
  split; [apply length_insert | now apply totalVotes_insert].
Qed.

Lemma createPoll_counted q raw p :
  createPoll q raw false = Some p -> counted p.
Proof.
  unfold createPoll. destruct (_ <? 2)%nat; [discriminate |].
  intros [= <-]. repeat split; simpl.
  - generalize (parseOptions raw). intros l.
    induction l as [|x l IH]; [reflexivity |].
    cbn [map]. rewrite totalVotes_cons, IH. reflexivity.
  - intros u v H. rewrite lookup_empty in H. discriminate.
Qed.

(** One click on a rendered button keeps the invariant and the
    options' number. *)
Lemma vote_counted p u (i : nat) :
  counted p -> (i < length (options p))%nat ->
  counted (fst (vote p u (Some (Z.of_nat i))))
  /\ length (options (fst (vote p u (Some (Z.of_nat i))))) = length (options p).
Proof.
  intros (Hm & Hsum & Hrange) Hi. unfold vote. rewrite Hm. cbn [negb].
  destruct (voters p !! u) as [prev|] eqn:Hu.
  - destruct (Hrange u prev Hu) as (j & -> & Hj).
    destruct (numEq (Some (Z.of_nat j)) (Some (Z.of_nat i))) eqn:Heq.
    + simpl. split; [repeat split; assumption | reflexivity].
    + destruct (bump_index (-1) (options p) j Hj) as (o1 & -> & Hl1 & Ht1).
      unfold recordVote. cbn [options withVoters withOptions].
      destruct (bump_index 1 o1 i ltac:(lia)) as (o2 & -> & Hl2 & Ht2).
      cbn [fst options voters multiple withOptions withVoters].
      unfold withOptions, withVoters, counted. simpl.
      split; [| lia]. repeat split; [assumption | |].
      * rewrite Ht2, Ht1, Hsum. rewrite map_size_insert_Some by eauto. lia.
      * intros w v Hw. rewrite Hl2, Hl1.
        destruct (decide (u = w)) as [-> | Hne].
        -- rewrite lookup_insert_eq in Hw. inversion Hw; subst. eauto.
        -- rewrite lookup_insert_ne in Hw by assumption. eauto.
  - unfold recordVote. cbn [options withVoters withOptions].
    destruct (bump_index 1 (options p) i Hi) as (o2 & -> & Hl2 & Ht2).
    cbn [fst options voters multiple withOptions withVoters].
    unfold withOptions, withVoters, counted. simpl.
    split; [| lia]. repeat split; [assumption | |].
    + rewrite Ht2, Hsum. rewrite map_size_insert_None by assumption. lia.
    + intros w v Hw. rewrite Hl2.
      destruct (decide (u = w)) as [-> | Hne].
      * rewrite lookup_insert_eq in Hw. inversion Hw; subst. eauto.
      * rewrite lookup_insert_ne in Hw by assumption. eauto.
Qed.

Lemma votes_counted p cs :
  counted p -> Forall (onButton p) cs -> counted (votes p cs).
Proof.
  intros Hc Hcs. revert p Hc Hcs.
  induction cs as [|c cs IH]; intros p Hc Hcs; [exact Hc |].
  inversion Hcs as [|? ? (i & Ht & Hi) Hrest]; subst.
  unfold votes. cbn [fold_left]. fold (votes (fst (vote p (clicker c) (target c))) cs).
  rewrite Ht. destruct (vote_counted p (clicker c) i Hc Hi) as [Hc' Hlen].
  apply IH; [exact Hc' |].
  eapply Forall_impl; [exact Hrest |].
  intros c' (k & Hk1 & Hk2). exists k. split; [exact Hk1 | lia].
Qed.

(** The size of a filtered voter map, split at one voter. *)
Lemma filter_size_insert (P : uid * num -> Prop) `{!forall kv, Decision (P kv)}
      (m : gmap uid num) u x :
  size (filter P (<[u := x]> m))
  = ((if decide (P (u, x)) then 1 else 0) + size (filter P (delete u m)))%nat.
Proof.
  rewrite map_filter_insert. case_decide; [| reflexivity].
  rewrite <- insert_delete_eq, <- map_filter_delete.
  rewrite map_size_insert_None; [reflexivity |].
  rewrite map_filter_delete. apply lookup_delete_eq.
Qed.

Lemma filter_size_lookup (P : uid * num -> Prop) `{!forall kv, Decision (P kv)}
      (m : gmap uid num) u :
  size (filter P m)
  = (match m !! u with
     | Some x => if decide (P (u, x)) then 1 else 0
     | None => 0
     end + size (filter P (delete u m)))%nat.
Proof.
  destruct (m !! u) as [x|] eqn:E.
  - rewrite <- (insert_id m u x E) at 1. apply filter_size_insert.
  - now rewrite (delete_id m u E).
Qed.

(** After [bump], only the counter of the bumped option differs. *)
Lemma bump_lookup d (opts : list pollOption) (i k : nat) opts' o' :
  bump d opts (Some (Z.of_nat i)) = Some opts' ->
  opts' !! k = Some o' ->
  exists o, opts !! k = Some o
            /\ count o' = count o + (if decide (k = i) then d else 0).
Proof.
  unfold bump. rewrite atNum_index.
  destruct (opts !! i) as [oi|] eqn:Hi; [| discriminate].
  change (default 0 (Some (Z.of_nat i))) with (Z.of_nat i). rewrite Nat2Z.id.
  intros [= <-] Hk. destruct (decide (k = i)) as [-> | Hne].
  - rewrite list_lookup_insert_eq in Hk by (eapply lookup_lt_Some, Hi).
    inversion Hk; subst. exists oi. split; [exact Hi | reflexivity].
  - rewrite list_lookup_insert_ne in Hk by congruence.
    exists o'. split; [exact Hk | lia].
Qed.

Lemma createPoll_tallied q raw p :
  createPoll q raw false = Some p -> tallied p.
Proof.
  unfold createPoll. destruct (_ <? 2)%nat; [discriminate |].
  intros [= <-] k o Hk. cbn [options] in Hk.
  unfold votersFor. cbn [voters]. rewrite map_filter_empty, map_size_empty.
  rewrite list_lookup_fmap in Hk.
  destruct (parseOptions raw !! k); inversion Hk; reflexivity.
Qed.

(** One click on a rendered button keeps every counter equal to the
    number of voters recorded for its option. *)
Lemma vote_tallied p u (i : nat) :
  counted p -> tallied p -> (i < length (options p))%nat ->
  tallied (fst (vote p u (Some (Z.of_nat i)))).
Proof.
  intros (Hm & _ & Hrange) Htal Hi. unfold vote. rewrite Hm. cbn [negb].
  destruct (voters p !! u) as [prev|] eqn:Hu.
  - destruct (Hrange u prev Hu) as (j & -> & Hj).
    destruct (numEq (Some (Z.of_nat j)) (Some (Z.of_nat i))) eqn:Heq; [exact Htal |].
    assert (Hji : j <> i) by (intros ->; cbn in Heq; rewrite Z.eqb_refl in Heq; discriminate).
    destruct (bump_index (-1) (options p) j Hj) as (o1 & E1 & Hl1 & _). rewrite E1.
    unfold recordVote. cbn [options withVoters withOptions].
    destruct (bump_index 1 o1 i ltac:(lia)) as (o2 & E2 & _ & _). rewrite E2.
    unfold tallied, votersFor, withOptions, withVoters. simpl.
    intros k o Hk.
    destruct (bump_lookup _ _ _ _ _ _ E2 Hk) as (oa & Ha & ->).
    destruct (bump_lookup _ _ _ _ _ _ E1 Ha) as (ob & Hb & ->).
    rewrite (Htal k ob Hb). unfold votersFor.
    rewrite filter_size_insert, (filter_size_lookup _ (voters p) u), Hu.
    unfold choseOption. cbn [snd].
    repeat case_decide; simplify_eq; lia.
  - unfold recordVote. cbn [options withVoters withOptions].
    destruct (bump_index 1 (options p) i Hi) as (o2 & E2 & _ & _). rewrite E2.
    unfold tallied, votersFor, withOptions, withVoters. simpl.
    intros k o Hk.
    destruct (bump_lookup _ _ _ _ _ _ E2 Hk) as (oa & Ha & ->).
    rewrite (Htal k oa Ha). unfold votersFor.
    rewrite filter_size_insert, (delete_id _ _ Hu).
    unfold choseOption. cbn [snd].
    repeat case_decide; simplify_eq; lia.
Qed.

Lemma votes_tallied p cs :
  counted p -> tallied p -> Forall (onButton p) cs -> tallied (votes p cs).
Proof.
  intros Hc Ht Hcs. revert p Hc Ht Hcs.
  induction cs as [|c cs IH]; intros p Hc Ht Hcs; [exact Ht |].
  inversion Hcs as [|? ? (i & Hi1 & Hi2) Hrest]; subst.
  unfold votes. cbn [fold_left]. fold (votes (fst (vote p (clicker c) (target c))) cs).
  rewrite Hi1. destruct (vote_counted p (clicker c) i Hc Hi2) as [Hc' Hlen].
  apply IH; [exact Hc' | now apply vote_tallied |].
  eapply Forall_impl; [exact Hrest |].
  intros c' (k & Hk1 & Hk2). exists k. split; [exact Hk1 | lia].
Qed.

(** C3. In a poll created in single-vote mode, after any sequence of
    clicks on its buttons, the option counts add up to the number of
    voters in the voter map, and no voter is counted twice: the count
    of each option is the number of voters whose recorded choice it
    is. *)
Theorem single_vote_total (q raw : string) (p0 : poll) (cs : list click) :
  createPoll q raw false = Some p0 ->
  Forall (onButton p0) cs ->
  totalVotes (options (votes p0 cs)) = Z.of_nat (size (voters (votes p0 cs)))
  /\ forall k o, options (votes p0 cs) !! k = Some o ->
                count o = Z.of_nat (votersFor (votes p0 cs) k).
Proof.
  intros Hnew Hcs. split.
  - apply (votes_counted p0 cs (createPoll_counted q raw p0 Hnew) Hcs).
  - apply (votes_tallied p0 cs (createPoll_counted q raw p0 Hnew)
             (createPoll_tallied q raw p0 Hnew) Hcs).
Qed.

(** Three clicks by two users on the three-option poll, run through
    the theorem. *)
Lemma single_vote_total_witness :
  let p0 := MkPoll "Best color?" false
                   [PollOption "Red" 0; PollOption "Blue" 0; PollOption "Green" 0] ∅ ∅ in
  let cs := [Click "u1" (Some 1); Click "u2" (Some 1); Click "u1" (Some 2)] in
  totalVotes (options (votes p0 cs)) = Z.of_nat (size (voters (votes p0 cs))).
Proof.
  intros p0 cs.
  refine (proj1 (single_vote_total "Best color?" "Red;Blue;Green" p0 cs _ _)).
  - reflexivity.
  - repeat constructor;
      [exists 1%nat | exists 1%nat | exists 2%nat]; (split; [reflexivity | simpl; lia]).
Defined.

(** What the source does with an index that no button carries: the
    voter is recorded, then reading the missing option raises. *)
Example vote_off_button :
  let p0 := MkPoll "Best color?" false
                   [PollOption "Red" 0; PollOption "Blue" 0] ∅ ∅ in
  snd (vote p0 "u1" (Some 7)) = Threw
  /\ voters (fst (vote p0 "u1" (Some 7))) !! "u1" = Some (Some 7)
  /\ totalVotes (options (fst (vote p0 "u1" (Some 7)))) = 0.
Proof. vm_compute. auto. Qed.

(** C6. The poll created from "Best color?" and "Red;Blue;Green" has
    three options, each at count 0.  A first click by [U] on option 1
    sets its count to 1 and records [U -> 1]; a second click by [U] on
    option 2 takes option 1 back to 0, sets option 2 to 1 and leaves
    the total at 1. *)
Theorem poll_end_to_end (U : uid) :
  exists p0,
    createPoll "Best color?" "Red;Blue;Green" false = Some p0
    /\ options p0 = [PollOption "Red" 0; PollOption "Blue" 0; PollOption "Green" 0]
    /\ voters p0 = ∅
    /\ let p1 := fst (vote p0 U (Some 1)) in
       options p1 = [PollOption "Red" 0; PollOption "Blue" 1; PollOption "Green" 0]
       /\ voters p1 !! U = Some (Some 1)
       /\ let p2 := fst (vote p1 U (Some 2)) in
          options p2 = [PollOption "Red" 0; PollOption "Blue" 0; PollOption "Green" 1]
          /\ voters p2 !! U = Some (Some 2)
          /\ size (voters p2) = 1%nat
          /\ totalVotes (options p2) = 1.
Proof.
  exists (MkPoll "Best color?" false
                 [PollOption "Red" 0; PollOption "Blue" 0; PollOption "Green" 0] ∅ ∅).
  split; [reflexivity |]. split; [reflexivity |]. split; [reflexivity |].
  assert (E1 : fst (vote (MkPoll "Best color?" false
                 [PollOption "Red" 0; PollOption "Blue" 0; PollOption "Green" 0] ∅ ∅)
                 U (Some 1))
               = MkPoll "Best color?" false
                   [PollOption "Red" 0; PollOption "Blue" 1; PollOption "Green" 0]
                   (<[U := Some 1]> ∅) ∅).
  { unfold vote. cbn [multiple negb voters]. rewrite lookup_empty. reflexivity. }
  cbv zeta. rewrite E1.
  assert (E2 : fst (vote (MkPoll "Best color?" false
                 [PollOption "Red" 0; PollOption "Blue" 1; PollOption "Green" 0]
                 (<[U := Some 1]> ∅) ∅) U (Some 2))
               = MkPoll "Best color?" false
                   [PollOption "Red" 0; PollOption "Blue" 0; PollOption "Green" 1]
                   (<[U := Some 2]> (<[U := Some 1]> ∅)) ∅).
  { unfold vote. cbn [multiple negb voters]. rewrite lookup_insert_eq. reflexivity. }
  rewrite E2. cbn [options voters].
  split; [reflexivity |]. split; [apply lookup_insert_eq |].
  split; [reflexivity |]. split; [apply lookup_insert_eq |].
  split; [| reflexivity].
  rewrite insert_insert_eq, insert_empty. apply map_size_singleton.
Qed.

End PollFacts.

(** ** Giveaways *)

Section GiveawayFacts.
Import Js Giveaway.

Lemma setAdd_member u s : In u s -> setAdd u s = s.
Proof.
  intros Hin. unfold setAdd.
  rewrite (proj2 (includes_In u s) Hin). reflexivity.
Qed.

Lemma setAdd_In u s : In u (setAdd u s).
Proof.
  unfold setAdd. destruct (existsb (String.eqb u) s) eqn:E.
  - now apply includes_In.
  - apply in_or_app. right. now left.
Qed.

Lemma setAdd_idem u s : setAdd u (setAdd u s) = setAdd u s.
Proof. apply setAdd_member, setAdd_In. Qed.

Lemma setAdd_NoDup u s : NoDup s -> NoDup (setAdd u s).
Proof.
  intros Hs. unfold setAdd. destruct (existsb (String.eqb u) s) eqn:E; [exact Hs |].
  apply NoDup_app. split; [exact Hs |]. split.
  - intros x Hx Hx'. apply list_elem_of_In in Hx.
    apply list_elem_of_In in Hx'. destruct Hx' as [<- | []].
    apply includes_In in Hx. congruence.
  - apply NoDup_singleton.
Qed.

Lemma join_member u g : In u (entrants g) -> join u g = g.
Proof.
  intros Hin. unfold join. rewrite (setAdd_member _ _ Hin). now destruct g.
Qed.

Lemma join_idem u g : join u (join u g) = join u g.
Proof. unfold join. cbn [entrants prize endsAt]. now rewrite setAdd_idem. Qed.

(** C4. At the close of a giveaway, no winner is drawn from an empty
    entrant set, and the winner drawn from a non-empty one is one of
    the entrants (for every value [Math.random] can return, with the
    product rounded as the program rounds it). *)
Theorem drawWinner_member (r : Z) (g : giveaway) :
  (entrants g = [] -> drawWinner r g = None)
  /\ (entrants g <> [] -> Double.random r ->
      exists w, drawWinner r g = Some w /\ In w (entrants g)).
Proof.
  unfold drawWinner. split.
  - intros ->. reflexivity.
  - intros Hne Hr.
    destruct (entrants g) as [|e es] eqn:E; [congruence |].
    cbn [length Nat.ltb Nat.leb]. unfold choice, atNum.
    destruct (floorTimes_index r (Z.of_nat (length (e :: es))) Hr) as [Hlo Hhi];
      [simpl; lia |].
    rewrite (proj2 (Z.leb_le _ _) Hlo).
    destruct (lookup_lt_is_Some_2 (e :: es)
                (Z.to_nat (Double.floorTimes r (Z.of_nat (length (e :: es))))))
      as [w Hw]; [lia |].
    exists w. split; [exact Hw |].
    apply list_elem_of_In. eapply list_elem_of_lookup_2, Hw.
Qed.

(** A draw among three entrants with the value 3/4, run through the
    theorem. *)
Lemma drawWinner_member_witness :
  exists w, drawWinner (3 * 2 ^ 1072) (MkGiveaway "Nitro" 0 ["ann"; "ben"; "cy"]) = Some w
            /\ In w ["ann"; "ben"; "cy"].
Proof.
  apply (proj2 (drawWinner_member (3 * 2 ^ 1072)
                  (MkGiveaway "Nitro" 0 ["ann"; "ben"; "cy"]))).
  - discriminate.
  - split; vm_compute; reflexivity.
Defined.

(** Draws by hand: 3/4 of three entrants; no entrant; and a value a
    little under 4/7 whose product with 7 rounds up to 4. *)
Example drawWinner_example :
  drawWinner (3 * 2 ^ 1072) (MkGiveaway "Nitro" 0 ["ann"; "ben"; "cy"]) = Some "cy"
  /\ drawWinner (3 * 2 ^ 1072) (MkGiveaway "Nitro" 0 []) = None
  /\ Double.random (2573485501354569 * 2 ^ 1022)
  /\ 2573485501354569 * 2 ^ 1022 * 7 < 4 * Double.grid
  /\ drawWinner (2573485501354569 * 2 ^ 1022)
       (MkGiveaway "Nitro" 0 ["a"; "b"; "c"; "d"; "e"; "f"; "g"]) = Some "e".
Proof. repeat split; vm_compute; reflexivity. Qed.

(** [choice] on an array that is not empty returns one of its
    elements. *)
Lemma choice_member {A} (r : Z) (l : list A) :
  Double.random r -> l <> [] ->
  exists q, choice r l = Some q /\ In q l.
Proof.
  intros Hr Hl. unfold choice, atNum.
  assert (Hn : 0 < Z.of_nat (length l)) by (destruct l; [congruence | cbn; lia]).
  destruct (floorTimes_index r _ Hr Hn) as [Hlo Hhi].
  rewrite (proj2 (Z.leb_le _ _) Hlo).
  destruct (lookup_lt_is_Some_2 l (Z.to_nat (Double.floorTimes r (Z.of_nat (length l)))))
    as [q Hq]; [lia |].
  exists q. split; [exact Hq |].
  apply list_elem_of_In. eapply list_elem_of_lookup_2, Hq.
Qed.

End GiveawayFacts.

(** ** The listeners *)

Section ListenerFacts.
Import Js Bot.
#[local] Open Scope listener_scope.

Lemma bestEffort_ok c w : exists w', bestEffort c w = (Ok tt, w').
Proof.
  unfold bestEffort, tryCatch, platform, ret.
  destruct (rejects w) as [|[] bs]; simpl; eauto.
Qed.

(** The [catch] block of the router never raises. *)
Lemma routerCatch_ok e w : exists w', routerCatch e w = (Ok tt, w').
Proof.
  unfold routerCatch, bind, consoleError, isReplied. simpl.
  destruct (replied w); apply bestEffort_ok.
Qed.

(** Whatever is raised inside the [try] block of the first
    interaction listener is caught: the listener ends normally. *)
Lemma onInteraction_catches others i w e w' :
  routerBody others i w = (Raise e, w') ->
  fst (onInteraction others i w) = Ok tt.
Proof.
  intros Hb. unfold onInteraction, tryCatch. rewrite Hb.
  destruct (routerCatch_ok e w') as [w'' E]. now rewrite E.
Qed.

(** It then reaches the console, and the user when the platform
    accepts the reply. *)
Lemma onInteraction_reports others i w e w' :
  routerBody others i w = (Raise e, w') ->
  rejects w' = [] ->
  exists c, out (snd (onInteraction others i w))
            = (out w' ++ [ConsoleError e; Sent c])%list
            /\ (c = CReply "An error occurred." \/ c = CFollowUp "An error occurred.").
Proof.
  intros Hb Hr. unfold onInteraction, tryCatch. rewrite Hb.
  unfold routerCatch, bind, consoleError, isReplied, bestEffort, tryCatch, platform.
  simpl. rewrite Hr.
  destruct (replied w'); simpl; rewrite <- app_assoc; eauto.
Qed.

(** The rejection of a returned promise is not: it leaves the
    listener as it left the body. *)
Lemma onInteraction_lets_through others i w e w' :
  routerBody others i w = (Reject e, w') ->
  onInteraction others i w = (Reject e, w').
Proof. intros Hb. unfold onInteraction, tryCatch. now rewrite Hb. Qed.

(** The same two facts for the prefix-command listener. *)
Lemma onMessage_catches commands w e w' :
  commands w = (Raise e, w') -> fst (onMessage commands w) = Ok tt.
Proof.
  intros Hc. unfold onMessage, tryCatch. rewrite Hc.
  unfold bind, consoleError. simpl.
  match goal with
  | |- context [bestEffort ?c ?x] => destruct (bestEffort_ok c x) as [w'' E]
  end.
  now rewrite E.
Qed.

Lemma onMessage_lets_through commands w e w' :
  commands w = (Reject e, w') -> onMessage commands w = (Reject e, w').
Proof. intros Hc. unfold onMessage, tryCatch. now rewrite Hc. Qed.

Lemma split_join_id gwId :
  plainId gwId -> split ":" ("gaw_join:" +:+ gwId) !! 1%nat = Some gwId.
Proof.
  intros Hp. unfold plainId in Hp.
  change (split ":" ("gaw_join:" +:+ gwId))
    with ("gaw_join" :: split ":" gwId).
  now rewrite Hp.
Qed.

(** Both giveaway listeners store the same thing on a join click: the
    record with the clicker added, before any reply is attempted. *)
Lemma onGiveawayJoin_store gwId g i w :
  plainId gwId ->
  giveaways (st w) !! gwId = Some g ->
  isButton i = true ->
  customId i = "gaw_join:" +:+ gwId ->
  st (snd (onGiveawayJoin i w)) = setGiveaway gwId (Giveaway.join (user i) g) (st w).
Proof.
  intros Hp Hg Hb Hid. unfold onGiveawayJoin. rewrite Hb, Hid. cbn [negb].
  change (startsWith "gaw_join:" ("gaw_join:" +:+ gwId)) with true. cbv iota.
  unfold bind, getStore. rewrite (split_join_id gwId Hp). simpl. rewrite Hg. simpl.
  unfold returning, platform. simpl. destruct (rejects w) as [|[] bs]; reflexivity.
Qed.

Lemma onGiveawayCollect_store gwId g i w :
  giveaways (st w) !! gwId = Some g ->
  customId i = "gaw_join:" +:+ gwId ->
  st (snd (onGiveawayCollect gwId i w)) = setGiveaway gwId (Giveaway.join (user i) g) (st w).
Proof.
  intros Hg Hid. unfold onGiveawayCollect. rewrite Hid, String.eqb_refl. cbn [negb].
  unfold bind, getStore. simpl. rewrite Hg.
  unfold platform. simpl. destruct (rejects w) as [|[] bs]; reflexivity.
Qed.

Lemma setGiveaway_same gwId g s :
  giveaways s !! gwId = Some g -> setGiveaway gwId g s = s.
Proof.
  intros H. unfold setGiveaway. rewrite (insert_id _ _ _ H). now destruct s.
Qed.

Lemma setGiveaway_lookup gwId g s :
  giveaways (setGiveaway gwId g s) !! gwId = Some g.
Proof. unfold setGiveaway. simpl. apply lookup_insert_eq. Qed.

Lemma setGiveaway_twice gwId g g' s :
  setGiveaway gwId g' (setGiveaway gwId g s) = setGiveaway gwId g' s.
Proof. unfold setGiveaway. simpl. now rewrite insert_insert_eq. Qed.

(** Any listener that stores a join as above is idempotent on the
    store. *)
Section Joins.
Variable listener : interaction -> M unit.
Variables (gwId : string) (i : interaction).
Hypothesis stores : forall g w,
    giveaways (st w) !! gwId = Some g ->
    st (snd (listener i w)) = setGiveaway gwId (Giveaway.join (user i) g) (st w).

Lemma joins_member g w :
  giveaways (st w) !! gwId = Some g ->
  In (user i) (Giveaway.entrants g) ->
  st (snd (listener i w)) = st w.
Proof.
  intros Hg Hin. rewrite (stores g w Hg), (join_member _ _ Hin).
  now apply setGiveaway_same.
Qed.

Lemma joins_once g w :
  giveaways (st w) !! gwId = Some g ->
  forall n, st (joins listener i (S n) w)
            = setGiveaway gwId (Giveaway.join (user i) g) (st w).
Proof.
  intros Hg n. revert g w Hg.
  induction n as [|n IH]; intros g w Hg.
  - simpl. now apply stores.
  - change (joins listener i (S (S n)) w)
      with (joins listener i (S n) (snd (listener i w))).
    rewrite (IH (Giveaway.join (user i) g)).
    + rewrite (stores g w Hg), join_idem. apply setGiveaway_twice.
    + rewrite (stores g w Hg). apply setGiveaway_lookup.
Qed.
End Joins.

(** C9. Joining is idempotent, for the global listener and for the
    collector of the giveaway alike: a join click by a user who is
    already an entrant leaves the store (and so the entrant set) as it
    was, and any number of join clicks by one user leaves the same
    entrants as a single click. *)
Theorem giveaway_join_idempotent (gwId : string) (g : Giveaway.giveaway)
        (i : interaction) (w : world) :
  plainId gwId ->
  giveaways (st w) !! gwId = Some g ->
  isButton i = true ->
  customId i = "gaw_join:" +:+ gwId ->
  (In (user i) (Giveaway.entrants g) ->
     st (snd (onGiveawayJoin i w)) = st w
     /\ st (snd (onGiveawayCollect gwId i w)) = st w
     /\ entrantsOf gwId (st (snd (onGiveawayJoin i w))) = Some (Giveaway.entrants g)
     /\ entrantsOf gwId (st (snd (onGiveawayCollect gwId i w))) = Some (Giveaway.entrants g))
  /\ (forall n,
        entrantsOf gwId (st (joins onGiveawayJoin i (S n) w))
        = entrantsOf gwId (st (joins onGiveawayJoin i 1 w))
        /\ entrantsOf gwId (st (joins (onGiveawayCollect gwId) i (S n) w))
           = entrantsOf gwId (st (joins (onGiveawayCollect gwId) i 1 w))
        /\ entrantsOf gwId (st (joins onGiveawayJoin i (S n) w))
           = Some (Giveaway.setAdd (user i) (Giveaway.entrants g))).
Proof.
  intros Hp Hg Hb Hid.
  assert (H1 : forall g w, giveaways (st w) !! gwId = Some g ->
               st (snd (onGiveawayJoin i w))
               = setGiveaway gwId (Giveaway.join (user i) g) (st w))
    by (intros; now apply onGiveawayJoin_store).
  assert (H2 : forall g w, giveaways (st w) !! gwId = Some g ->
               st (snd (onGiveawayCollect gwId i w))
               = setGiveaway gwId (Giveaway.join (user i) g) (st w))
    by (intros; now apply onGiveawayCollect_store).
  split.
  - intros Hin.
    rewrite (joins_member _ gwId i H1 g w Hg Hin).
    rewrite (joins_member _ gwId i H2 g w Hg Hin).
    unfold entrantsOf. rewrite Hg. auto.
  - intros n.
    rewrite !(joins_once _ gwId i H1 g w Hg).
    rewrite !(joins_once _ gwId i H2 g w Hg).
    unfold entrantsOf. rewrite setGiveaway_lookup. auto.
Qed.

(** Three clicks by an entrant-to-be on an open giveaway, run through
    the theorem. *)
Lemma giveaway_join_idempotent_witness :
  let w := World (Store ∅ {[ "gaw_k3j9x0ab" := Giveaway.MkGiveaway "Nitro" 0 ["ann"] ]})
                 [] false [] in
  let i := Interaction ButtonClick "gaw_join:gaw_k3j9x0ab" "ben" in
  entrantsOf "gaw_k3j9x0ab" (st (joins onGiveawayJoin i 3 w))
  = Some ["ann"; "ben"].
Proof.
  intros w i.
  refine (proj2 (proj2 (proj2
    (giveaway_join_idempotent "gaw_k3j9x0ab" (Giveaway.MkGiveaway "Nitro" 0 ["ann"])
       i w _ _ _ _) 2%nat))); reflexivity.
Defined.

(** Without a [try], a rejected reply leaves the giveaway listener as
    an exception, after the entrant was stored. *)
Lemma onGiveawayJoin_uncaught gwId g i w bs :
  plainId gwId ->
  giveaways (st w) !! gwId = Some g ->
  isButton i = true ->
  customId i = "gaw_join:" +:+ gwId ->
  rejects w = true :: bs ->
  onGiveawayJoin i w
  = (Reject (ApiError (CReply "You are entered!")),
     World (setGiveaway gwId (Giveaway.join (user i) g) (st w)) (out w) (replied w) bs).
Proof.
  intros Hp Hg Hb Hid Hr. unfold onGiveawayJoin. rewrite Hb, Hid. cbn [negb].
  change (startsWith "gaw_join:" ("gaw_join:" +:+ gwId)) with true. cbv iota.
  unfold bind, getStore. rewrite (split_join_id gwId Hp). simpl. rewrite Hg. simpl.
  unfold returning, platform. simpl. rewrite Hr. reflexivity.
Qed.

Lemma onGiveawayCollect_uncaught gwId g i w bs :
  giveaways (st w) !! gwId = Some g ->
  customId i = "gaw_join:" +:+ gwId ->
  rejects w = true :: bs ->
  propagates (onGiveawayCollect gwId i) w.
Proof.
  intros Hg Hid Hr. exists (ApiError (CReply "You are entered!")). left.
  unfold onGiveawayCollect. rewrite Hid, String.eqb_refl. cbn [negb].
  unfold bind, getStore. simpl. rewrite Hg.
  unfold platform. simpl. rewrite Hr. reflexivity.
Qed.

(** C8 (where the code departs from it).  A join click on an open
    giveaway whose reply the platform rejects: the giveaway listener,
    which has no [try], ends with the rejection, and nothing was sent
    to the user or written to the console.  In the first interaction
    listener the rejection of an awaited call is caught, logged and
    answered, but the rejection of a returned reply leaves it the same
    way. *)
Theorem giveaway_join_propagates :
  let gw := Giveaway.MkGiveaway "Nitro" 0 [] in
  let p := Poll.MkPoll "Best color?" false
             [Poll.PollOption "Red" 0; Poll.PollOption "Blue" 0] ∅ ∅ in
  let w := World (Store {[ "poll_ab12cd34" := p ]} {[ "gaw_k3j9x0ab" := gw ]})
                 [] false [true] in
  let join := Interaction ButtonClick "gaw_join:gaw_k3j9x0ab" "carol" in
  let vote := Interaction ButtonClick "poll:poll_ab12cd34:1" "carol" in
  let stale := Interaction ButtonClick "poll:poll_00000000:1" "carol" in
  (propagates (onGiveawayJoin join) w
   /\ fst (onGiveawayJoin join w) = Reject (ApiError (CReply "You are entered!"))
   /\ out (snd (onGiveawayJoin join w)) = [])
  /\ (fst (onInteraction (fun _ => ret tt) vote w) = Ok tt
      /\ out (snd (onInteraction (fun _ => ret tt) vote w))
         = [ConsoleError (ApiError CFetchMessage);
            Sent (CReply "An error occurred.")])
  /\ (propagates (onInteraction (fun _ => ret tt) stale) w
      /\ fst (onInteraction (fun _ => ret tt) stale w)
         = Reject (ApiError (CReply "Poll expired."))
      /\ out (snd (onInteraction (fun _ => ret tt) stale w)) = []).
Proof.
  intros gw p w join vote stale.
  assert (E : onGiveawayJoin join w
              = (Reject (ApiError (CReply "You are entered!")),
                 World (setGiveaway "gaw_k3j9x0ab" (Giveaway.join "carol" gw) (st w))
                       [] false [])).
  { apply (onGiveawayJoin_uncaught "gaw_k3j9x0ab" gw); reflexivity. }
  assert (V : onInteraction (fun _ => ret tt) vote w
              = (Ok tt,
                 World (setPoll "poll_ab12cd34"
                          (fst (Poll.vote p "carol" (Some 1))) (st w))
                       [ConsoleError (ApiError CFetchMessage);
                        Sent (CReply "An error occurred.")] true []))
    by reflexivity.
  assert (S : onInteraction (fun _ => ret tt) stale w
              = (Reject (ApiError (CReply "Poll expired.")),
                 World (st w) [] false []))
    by reflexivity.
  rewrite E, V, S. cbn [fst snd out].
  repeat split; eexists; [right | right]; reflexivity.
Qed.

Lemma split_plain a b :
  plainId a -> split ":" (a +:+ String ":" b) = a :: split ":" b.
Proof.
  unfold plainId. induction a as [|c a IH]; intros Hp.
  - reflexivity.
  - change (String c a +:+ String ":" b) with (String c (a +:+ String ":" b)).
    cbn [split] in Hp |- *. destruct (Ascii.eqb c ":"); [discriminate |].
    assert (Ha : split ":" a = [a]).
    { destruct (split ":" a) as [|x [|y ys]] eqn:Ea; inversion Hp; subst.
      - discriminate Ea.
      - reflexivity. }
    now rewrite (IH Ha).
Qed.

Lemma routerCatch_store e w : st (snd (routerCatch e w)) = st w.
Proof.
  unfold routerCatch, bind, consoleError, isReplied, bestEffort, tryCatch, platform, ret.
  simpl. destruct (replied w), (rejects w) as [|[] bs]; reflexivity.
Qed.

(** The id of a rendered poll button splits back into the poll id and
    the option index it was built from. *)
Lemma buttonId_parses pollId (i : nat) :
  plainId pollId -> (i < 5)%nat ->
  split ":" (Poll.buttonId pollId i) = ["poll"; pollId; pretty (Z.of_nat i)]
  /\ parseInt (pretty (Z.of_nat i)) = Some (Z.of_nat i).
Proof.
  intros Hp Hi. unfold Poll.buttonId.
  change ("poll:" +:+ pollId +:+ ":" +:+ pretty (Z.of_nat i))
    with ("poll" +:+ String ":" (pollId +:+ String ":" (pretty (Z.of_nat i)))).
  rewrite (split_plain "poll") by reflexivity.
  rewrite (split_plain pollId) by assumption.
  do 5 (destruct i as [|i]; [split; reflexivity |]). lia.
Qed.

(** A click on a rendered button of a stored poll is the vote it
    stands for: whatever the platform does with the calls that follow,
    the listener leaves the record that [Poll.vote] computes. *)
Lemma onInteraction_click others pollId p u (i : nat) w :
  plainId pollId -> (i < 5)%nat ->
  polls (st w) !! pollId = Some p ->
  st (snd (onInteraction others
             (Interaction ButtonClick (Poll.buttonId pollId i) u) w))
  = setPoll pollId (fst (Poll.vote p u (Some (Z.of_nat i)))) (st w).
Proof.
  intros Hp Hi Hs.
  destruct (buttonId_parses pollId i Hp Hi) as [Hsplit Hparse].
  unfold onInteraction, tryCatch, routerBody. cbn [ikind customId user].
  rewrite Hsplit. cbv iota.
  unfold pollButton, bind, getStore. simpl. rewrite Hs. simpl. rewrite Hparse.
  destruct (Poll.vote p u (Some (Z.of_nat i))) as [p' o]. simpl.
  destruct o; simpl; unfold returning, platform, throw; simpl;
    destruct (rejects w) as [|[] [|[] bs]]; simpl;
    try reflexivity; now rewrite routerCatch_store.
Qed.

(** The poll scenario of C6 through the router: two clicks by one
    user on the buttons rendered for the poll. *)
Example router_poll_clicks :
  let p0 := Poll.MkPoll "Best color?" false
              [Poll.PollOption "Red" 0; Poll.PollOption "Blue" 0; Poll.PollOption "Green" 0]
              ∅ ∅ in
  let w0 := World (Store {[ "poll_ab12cd34" := p0 ]} ∅) [] false [] in
  let click n := Interaction ButtonClick (Poll.buttonId "poll_ab12cd34" n) "U" in
  let w1 := snd (onInteraction (fun _ => ret tt) (click 1%nat) w0) in
  let w2 := snd (onInteraction (fun _ => ret tt) (click 2%nat) w1) in
  (Poll.options <$> polls (st w2) !! "poll_ab12cd34")
  = Some [Poll.PollOption "Red" 0; Poll.PollOption "Blue" 0; Poll.PollOption "Green" 1]
  /\ out w2 = [Sent CFetchMessage;
               Sent (CUpdate ["Red (0)"; "Blue (1)"; "Green (0)"] "Total votes: 1");
               Sent CFetchMessage;
               Sent (CUpdate ["Red (0)"; "Blue (0)"; "Green (1)"] "Total votes: 1")].
Proof. vm_compute. split; reflexivity. Qed.

End ListenerFacts.

(** ** The health endpoint *)

Section HealthFacts.
Import Js Health.

Lemma eqb_neq (a b : string) : a <> b -> String.eqb a b = false.
Proof. intros H. now apply String.eqb_neq. Qed.



End HealthFacts.

(** ** humanize *)

Section TimingFacts.
Import Js Double Duration Timing.

Lemma digitsValue_app a b acc :
  digitsValue acc (a +:+ b) = digitsValue (digitsValue acc a) b.
Proof. revert acc. induction a as [|c a IH]; intros acc; simpl; [reflexivity | apply IH]. Qed.

Lemma allChars_app p a b : allChars p a -> allChars p b -> allChars p (a +:+ b).
Proof. induction a as [|c a IH]; simpl; [auto | intros [Hc Ha] Hb; auto]. Qed.

Lemma pretty_N_char_digit x :
  (x < 10)%N -> isDigit (pretty_N_char x) = true /\ digitVal (pretty_N_char x) = Z.of_N x.
Proof.
  intros Hx.
  assert (x = 0 \/ x = 1 \/ x = 2 \/ x = 3 \/ x = 4 \/ x = 5 \/ x = 6
          \/ x = 7 \/ x = 8 \/ x = 9)%N as H by lia.
  repeat destruct H as [-> | H]; try subst x; split; reflexivity.
Qed.

(** What the digit printer puts in front of [s]: the decimal digits of
    [x]. *)
Lemma pretty_N_go_digits x s :
  exists ds, pretty_N_go x s = ds +:+ s
             /\ allChars isDigit ds
             /\ (x <> 0%N -> ds <> EmptyString)
             /\ forall acc, digitsValue acc ds
                            = acc * 10 ^ Z.of_nat (String.length ds) + Z.of_N x.
Proof.
  revert s. induction (N.lt_wf_0 x) as [x _ IH]. intros s.
  destruct (N.eq_dec x 0%N) as [-> | Hx].
  - exists EmptyString. rewrite pretty_N_go_0. repeat split; [congruence |].
    intros acc. simpl. lia.
  - rewrite pretty_N_go_step by lia.
    destruct (IH (x `div` 10)%N) with (s := String (pretty_N_char (x `mod` 10)) s)
      as (ds & E & Hd & _ & Hv).
    { apply N.div_lt; lia. }
    destruct (pretty_N_char_digit (x `mod` 10)%N) as [Hc1 Hc2].
    { apply N.mod_lt. lia. }
    exists (ds +:+ String (pretty_N_char (x `mod` 10)) EmptyString).
    rewrite E, app_assoc'. split; [reflexivity |].
    split; [apply allChars_app; simpl; auto |].
    split; [intros _; destruct ds; discriminate |].
    intros acc. rewrite digitsValue_app, Hv. simpl. rewrite Hc2.
    rewrite length_app. simpl String.length.
    rewrite Nat2Z.inj_add, Z.pow_add_r by lia. change (10 ^ Z.of_nat 1) with 10.
    rewrite (N.div_mod x 10) at 3 by lia.
    rewrite N2Z.inj_add, N2Z.inj_mul. change (Z.of_N 10) with 10. lia.
Qed.

(** A printed natural number reads back as itself. *)
Lemma pretty_digits (z : Z) :
  0 <= z ->
  allChars isDigit (pretty z) /\ pretty z <> EmptyString
  /\ digitsValue 0 (pretty z) = z.
Proof.
  intros Hz. destruct z as [|p|p]; [repeat split; discriminate | | lia].
  unfold pretty, pretty_Z, pretty, pretty_positive, pretty, pretty_N.
  rewrite decide_False by discriminate.
  destruct (pretty_N_go_digits (N.pos p) EmptyString) as (ds & E & Hd & Hne & Hv).
  rewrite E. replace (ds +:+ "") with ds by (clear; induction ds; simpl; congruence).
  repeat split; [exact Hd | apply Hne; discriminate |].
  rewrite Hv. simpl. reflexivity.
Qed.

Lemma exec_same_tokens s1 s2 l : exec s1 = exec s2 -> Tokens s2 l -> Tokens s1 l.
Proof.
  intros E H. inversion H; subst.
  - apply Tokens_done. congruence.
  - eapply Tokens_step; [| eassumption]. congruence.
Qed.

(** A space in front of a text changes nothing for the loop. *)
Lemma Tokens_space s l : Tokens s l -> Tokens (String " " s) l.
Proof. apply exec_same_tokens. reflexivity. Qed.

(** A printed amount with its unit letter is read as one token. *)
Lemma Tokens_amount v u rest l :
  0 <= v -> isUnit u = true -> toLowerCase u = u ->
  Tokens rest l -> Tokens (pretty v +:+ String u rest) ((v, u) :: l).
Proof.
  intros Hv Hu Hl HT.
  destruct (pretty_digits v Hv) as (Hd & Hne & Hval).
  rewrite <- Hval at 2. rewrite <- Hl at 2.
  eapply Tokens_step; [| exact HT].
  apply exec_matchHere.
  exact (matchHere_complete (pretty v) EmptyString u rest Hne Hd I Hu).
Qed.

Lemma Tokens_parts ts :
  Forall (fun t : Z * ascii => 0 <= fst t /\ isUnit (snd t) = true
                               /\ toLowerCase (snd t) = snd t) ts ->
  Tokens (Health.join " " (map part ts)) ts.
Proof.
  induction 1 as [|[v u] ts (Hv & Hu & Hl) Hts IH].
  - now constructor.
  - destruct ts as [|t2 ts].
    + apply Tokens_amount; assumption.
    + change (Health.join " " (map part ((v, u) :: t2 :: ts)))
        with (part (v, u) +:+ " " +:+ Health.join " " (map part (t2 :: ts))).
      unfold part at 1. cbn [fst snd]. rewrite app_assoc'.
      apply Tokens_amount; try assumption.
      now apply Tokens_space.
Qed.

Lemma parts_nonempty t ts : Health.join " " (map part (t :: ts)) <> EmptyString.
Proof.
  destruct ts; cbn [map Health.join]; unfold part at 1;
    destruct (pretty (fst t)); discriminate.
Qed.

Lemma join_or_default t ts :
  match Health.join " " (map part (t :: ts)) with
  | EmptyString => "0s"
  | text => text
  end = Health.join " " (map part (t :: ts)).
Proof.
  pose proof (parts_nonempty t ts) as Hne.
  destruct (Health.join " " (map part (t :: ts))); [congruence | reflexivity].
Qed.

(** [humanize] as the parts it joins: days, hours and minutes when not
    zero, and seconds only when they stand alone. *)
Lemma humanize_parts ms :
  let s := ms / 1000 in
  let one (v : Z) (u : ascii) := if v =? 0 then [] else [(v, u)] in
  let big := (one (s / 86400) "d" ++ one (Z.rem s 86400 / 3600) "h"
              ++ one (Z.rem s 3600 / 60) "m")%list%char in
  let ts := match big with
            | [] => one (Z.rem s 60) "s"%char
            | _ => big
            end in
  humanize ms = match ts with
                | [] => "0s"
                | _ => Health.join " " (map part ts)
                end.
Proof.
  intros s one big ts. subst ts big one. unfold humanize. fold s.
  cbv zeta.
  pose (d := s / 86400). pose (h := Z.rem s 86400 / 3600).
  pose (m := Z.rem s 3600 / 60). pose (sec := Z.rem s 60).
  fold d h m sec.
  destruct (d =? 0), (h =? 0), (m =? 0), (sec =? 0);
    cbn - [Z.div Z.rem pretty part Health.join];
    first
      [ reflexivity
      | exact (join_or_default (d, "d"%char) [])
      | exact (join_or_default (h, "h"%char) [])
      | exact (join_or_default (m, "m"%char) [])
      | exact (join_or_default (sec, "s"%char) [])
      | exact (join_or_default (d, "d"%char) [(h, "h"%char)])
      | exact (join_or_default (d, "d"%char) [(m, "m"%char)])
      | exact (join_or_default (h, "h"%char) [(m, "m"%char)])
      | exact (join_or_default (d, "d"%char) [(h, "h"%char); (m, "m"%char)]) ].
Qed.

(** Below 2^53 ms, the text of [humanize] read back by
    [parseDuration]. *)
Lemma humanize_reads_back (ms : Z) :
  0 <= ms < 2 ^ 53 ->
  parseDuration (humanize ms)
  = if ms <? 1000 then None
    else if ms <? 60000 then Some (Fin (Z.to_N (ms / 1000 * 1000)))
    else Some (Fin (Z.to_N (ms / 60000 * 60000))).
Proof.
  intros Hms. rewrite humanize_parts. cbv zeta.
  assert (H53 : 2 ^ 53 = 9007199254740992) by reflexivity.
  rewrite H53 in Hms.
  assert (Hs : 0 <= ms / 1000) by (apply Z.div_pos; lia).
  rewrite !Z.rem_mod_nonneg by lia.
  assert (Hd : 0 <= ms / 1000 / 86400) by (apply Z.div_pos; lia).
  assert (Hh : 0 <= (ms / 1000) mod 86400 / 3600)
    by (apply Z.div_pos; [apply Z.mod_pos_bound |]; lia).
  assert (Hm : 0 <= (ms / 1000) mod 3600 / 60)
    by (apply Z.div_pos; [apply Z.mod_pos_bound |]; lia).
  assert (Hsec : 0 <= (ms / 1000) mod 60) by (apply Z.mod_pos_bound; lia).
  destruct (ms / 1000 / 86400 =? 0) eqn:Ed,
           ((ms / 1000) mod 86400 / 3600 =? 0) eqn:Eh,
           ((ms / 1000) mod 3600 / 60 =? 0) eqn:Em,
           ((ms / 1000) mod 60 =? 0) eqn:Es;
    cbn - [Z.div Z.modulo pretty part Health.join parseDuration map Z.pow];
    rewrite ?Z.eqb_eq, ?Z.eqb_neq in Ed, Eh, Em, Es;
    try match goal with
        | |- context [parseDuration (Health.join " " (map part ?ts))] =>
            rewrite (parseDuration_exact _ ts
                       (Tokens_parts ts ltac:(repeat constructor; assumption)))
              by (cbn [total fold_right contribution fst snd]; rewrite H53;
                  Z.to_euclidean_division_equations; lia);
            cbn [total fold_right contribution fst snd]
        end;
    try change (parseDuration "0s") with (@None number);
    repeat match goal with
           | |- context [?a <? ?b] => destruct (Z.ltb_spec a b)
           end;
    try reflexivity; try (do 3 f_equal);
    Z.to_euclidean_division_equations; lia.
Qed.

(** X1. For a duration of [ms] milliseconds, an integer with
    [0 <= ms < 2^53], the text that [humanize] prints reads back
    through [parseDuration] as [ms] rounded down to whole minutes, or
    to whole seconds when it is below a minute; below one second the
    text is "0s", which does not parse. *)
Theorem humanize_round_trip (ms : Z) :
  0 <= ms < 2 ^ 53 ->
  parseDuration (humanize ms)
  = if ms <? 1000 then None
    else if ms <? 60000 then Some (Fin (Z.to_N (ms / 1000 * 1000)))
    else Some (Fin (Z.to_N (ms / 60000 * 60000))).
Proof. exact (humanize_reads_back ms). Qed.

(** One hour, one minute and one and a half seconds, run through the
    theorem. *)
Lemma humanize_round_trip_witness :
  parseDuration (humanize 3661500) = Some (Fin 3660000).
Proof. exact (humanize_round_trip 3661500 ltac:(split; [lia | reflexivity])). Defined.

Lemma contribution_thousands t : exists k, contribution t = 1000 * k.
Proof.
  destruct t as [v u]. destruct u as [[] [] [] [] [] [] [] []]; cbn [contribution];
    first [ exists 0; reflexivity | exists (v * 86400); lia | exists (v * 3600); lia
          | exists (v * 60); lia | exists v; lia ].
Qed.

Lemma total_thousands l : exists k, total l = 1000 * k.
Proof.
  induction l as [|t l [k IH]]; [now exists 0 |].
  destruct (contribution_thousands t) as [j Hj].
  exists (j + k). rewrite total_cons, Hj, IH. lia.
Qed.

(** X26. What [/remind] announces, for a text that [parseDuration]
    accepts with a delay below 2^53 ms: the delay is at least one
    second and a whole number of seconds, so [humanize] never prints
    "0s" for it, and the duration it prints reads back as the delay
    itself below a minute, and as the delay without its seconds from a
    minute on. *)
Theorem remind_announces (d : string) (ms : N) :
  parseDuration d = Some (Fin ms) -> Z.of_N ms < 2 ^ 53 ->
  1000 <= Z.of_N ms /\ Z.of_N ms mod 1000 = 0
  /\ humanize (Z.of_N ms) <> "0s"
  /\ parseDuration (humanize (Z.of_N ms))
     = Some (Fin (Z.to_N (if Z.of_N ms <? 60000 then Z.of_N ms
                          else Z.of_N ms / 60000 * 60000))).
Proof.
  intros Ep Hsafe.
  destruct (Tokens_total d) as [l Hl].
  destruct (parseDuration_tracks d l Hl) as [H0 Ht].
  rewrite (parseDuration_tokens _ _ Hl), (tracks_positive _ _ H0 Ht) in Ep.
  destruct (Z.ltb_spec 0 (total l)) as [Hpos |]; [| discriminate].
  assert (Hms : Z.of_N ms = total l).
  { destruct Ht as [[_ E] | [_ Hb]]; rewrite ?E in Ep.
    - injection Ep as <-. now rewrite Z2N.id.
    - injection Ep as E. rewrite E in Hb. cbn [big] in Hb. lia. }
  rewrite Hms in *. clear Hms Ep Ht.
  destruct (total_thousands l) as [k Hk].
  assert (Hge : 1000 <= total l) by lia.
  assert (Hmod : total l mod 1000 = 0)
    by (rewrite Hk, Z.mul_comm; apply Z.mod_mul; lia).
  assert (Hback : parseDuration (humanize (total l))
                  = Some (Fin (Z.to_N (if total l <? 60000 then total l
                                       else total l / 60000 * 60000)))).
  { rewrite humanize_reads_back by lia.
    destruct (Z.ltb_spec (total l) 1000); [lia |].
    destruct (total l <? 60000); [| reflexivity].
    do 3 f_equal. rewrite Hk, (Z.mul_comm 1000 k), Z.div_mul; lia. }
  repeat split; try assumption.
  intros E. rewrite E in Hback. discriminate Hback.
Qed.

(** A minute and a half, run through the theorem. *)
Lemma remind_announces_witness :
  1000 <= Z.of_N 90000 /\ Z.of_N 90000 mod 1000 = 0
  /\ humanize (Z.of_N 90000) <> "0s"
  /\ parseDuration (humanize (Z.of_N 90000))
     = Some (Fin (Z.to_N (if Z.of_N 90000 <? 60000 then Z.of_N 90000
                          else Z.of_N 90000 / 60000 * 60000))).
Proof. apply (remind_announces "90s" 90000); reflexivity. Defined.

End TimingFacts.

(** ** Rock, paper, scissors *)

Section RpsFacts.
Import Js Rps.

(** The counter-move is one of the three moves. *)
Lemma otherChoice_move r : Double.random r -> exists c, otherChoice r = Some c /\ move c.
Proof.
  intros Hr. unfold otherChoice, atNum.
  destruct (floorTimes_index r 3 Hr) as [Hlo Hhi]; [lia |].
  rewrite (proj2 (Z.leb_le _ _) Hlo).
  assert (Hk : Double.floorTimes r 3 = 0 \/ Double.floorTimes r 3 = 1
               \/ Double.floorTimes r 3 = 2) by lia.
  unfold move. destruct Hk as [-> | [-> | ->]]; simpl; eauto 6.
Qed.

(** X2. Between two of the three moves, [result] says "Tie!" exactly
    when they are equal, and one side wins exactly when the other side
    loses; and the counter-move drawn for any value of [Math.random],
    with the product rounded as the program rounds it, is one of the
    three moves. *)
Theorem rps_fair (a b : string) (r : Z) :
  move a -> move b -> Double.random r ->
  (result a b = "Tie!" <-> a = b)
  /\ (result a b = "You win!" <-> result b a = "You lose!")
  /\ (result a b = "You lose!" <-> result b a = "You win!")
  /\ (result a b = "Tie!" \/ result a b = "You win!" \/ result a b = "You lose!")
  /\ exists c, otherChoice r = Some c /\ move c.
Proof.
  intros Ha Hb Hr.
  assert (Hab : (result a b = "Tie!" <-> a = b)
                /\ (result a b = "You win!" <-> result b a = "You lose!")
                /\ (result a b = "You lose!" <-> result b a = "You win!")
                /\ (result a b = "Tie!" \/ result a b = "You win!"
                    \/ result a b = "You lose!")).
  { destruct Ha as [-> | [-> | ->]], Hb as [-> | [-> | ->]]; vm_compute;
      repeat split; intros; try discriminate; try reflexivity; auto. }
  destruct Hab as (T & W & L & A). repeat split; try tauto.
  apply otherChoice_move, Hr.
Qed.

(** Paper against rock with the draw 1/2, run through the theorem. *)
Lemma rps_fair_witness :
  (result "paper" "rock" = "You win!" <-> result "rock" "paper" = "You lose!")
  /\ exists c, otherChoice (6004799503160661 * 2 ^ 1020) = Some c /\ move c.
Proof.
  assert (H := rps_fair "paper" "rock" (6004799503160661 * 2 ^ 1020)).
  split; [refine (proj1 (proj2 (H _ _ _))) | refine (proj2 (proj2 (proj2 (proj2 (H _ _ _)))))];
    first [ split; vm_compute; reflexivity | unfold move; auto ].
Defined.

(** The double nearest to 1/3 times 3 rounds to 1: the draw is paper,
    where the exact product, a little under 1, would draw rock. *)
Example otherChoice_rounds :
  Double.random (6004799503160661 * 2 ^ 1020)
  /\ 6004799503160661 * 2 ^ 1020 * 3 < Double.grid
  /\ otherChoice (6004799503160661 * 2 ^ 1020) = Some "paper".
Proof. repeat split; vm_compute; reflexivity. Qed.

End RpsFacts.

(** ** The tic-tac-toe board and its games *)

Section BoardFacts.
Import Js TicTacToe Board.

(** The id of the button of cell [i] is read back as [i]. *)
Lemma target_rendered (i : nat) u :
  (i < 9)%nat ->
  startsWith "ttt:" ("ttt:" +:+ pretty (Z.of_nat i)) = true
  /\ target (Button ("ttt:" +:+ pretty (Z.of_nat i)) u) = Some (Z.of_nat i).
Proof.
  intros Hi. do 9 (destruct i as [|i]; [split; reflexivity |]). lia.
Qed.

Lemma renderTTT_flat b : concat (renderTTT b) = map (renderCell b) (seq 0 9).
Proof. reflexivity. Qed.

(** X3. [renderTTT] lays out nine buttons, in three rows of three; the
    button at position [k] carries an id that the move handler reads
    back as [k], and it is disabled exactly when cell [k] is taken. *)
Theorem renderTTT_buttons (b : list cell) (k : nat) (btn : tttButton) (u : uid) :
  concat (renderTTT b) !! k = Some btn ->
  (k < 9)%nat
  /\ length (renderTTT b) = 3%nat
  /\ Forall (fun row => length row = 3%nat) (renderTTT b)
  /\ target (Button (bCustomId btn) u) = Some (Z.of_nat k)
  /\ (bDisabled btn = true <-> is_Some (cellAt b k))
  /\ (bLabel btn = " " <-> cellAt b k = None).
Proof.
  rewrite renderTTT_flat, list_lookup_fmap. intros H.
  destruct (seq 0 9 !! k) as [j|] eqn:Ej; [| discriminate].
  apply lookup_seq in Ej as [-> Hk]. cbn in H. inversion H; subst btn. clear H.
  split; [exact Hk |]. split; [reflexivity |].
  split; [repeat constructor |].
  cbn [bCustomId bDisabled bLabel renderCell].
  split; [apply target_rendered; exact Hk |].
  split.
  - rewrite bool_decide_eq_true. reflexivity.
  - destruct (cellAt b k) as [[]|]; split; intros; try discriminate; reflexivity.
Qed.

(** The middle button of a board with one mark, run through the
    theorem. *)
Lemma renderTTT_buttons_witness :
  target (Button "ttt:4" "ann") = Some 4.
Proof.
  exact (proj1 (proj2 (proj2 (proj2
    (renderTTT_buttons [None; None; None; None; Some X; None; None; None; None]
       4 (TttButton "ttt:4" "X" Danger true) "ann" eq_refl))))).
Defined.

Lemma cellAt_insert (b : list cell) i j v :
  (i < length b)%nat ->
  cellAt (<[i := v]> b) j = if decide (i = j) then v else cellAt b j.
Proof.
  intros Hi. unfold cellAt, cell in *. case_decide as E.
  - subst j. now rewrite list_lookup_insert_eq.
  - now rewrite list_lookup_insert_ne.
Qed.

Lemma cellAt_atNum (b : list cell) (i : nat) :
  mjoin (atNum b (Some (Z.of_nat i))) = cellAt b i.
Proof.
  rewrite atNum_index. unfold cellAt, cell in *.
  destruct (b !! i) as [c|]; reflexivity.
Qed.

(** What a click can do to a game: be refused and change nothing, or
    put the mover's mark on the free cell it names and then either pass
    the turn (no verdict yet) or send the board with its buttons
    disabled (a verdict). *)
Lemma collect_cases g btn g' r :
  collect g btn = Some (g', r) ->
  (g' = g /\ refusal r)
  \/ exists i : nat,
       target btn = Some (Z.of_nat i) /\ (i < length (board g))%nat
       /\ cellAt (board g) i = None
       /\ atNum (players g) (Some (turn g)) = Some (user btn)
       /\ board g' = <[i := Some (moverMark g)]> (board g)
       /\ players g' = players g
       /\ ((tttWinner (board g') = Pending /\ turn g' = 1 - turn g
            /\ exists d, r = Update d false)
           \/ (tttWinner (board g') <> Pending /\ turn g' = turn g
               /\ exists d, r = Update d true)).
Proof.
  unfold collect, refusal.
  destruct (startsWith "ttt:" (customId btn)); cbn [negb];
    [| intros [= <- <-]; auto 8].
  destruct (existsb (String.eqb (user btn)) (players g)); cbn [negb];
    [| intros [= <- <-]; auto 8].
  case_bool_decide as Hturn; cbn [negb]; [| intros [= <- <-]; auto 8].
  case_bool_decide as Hocc; [intros [= <- <-]; auto 8 |].
  unfold writeCell. destruct (target btn) as [z|] eqn:Ht; [| discriminate].
  destruct ((0 <=? z) && (z <? Z.of_nat (length (board g)))) eqn:Hz; [| discriminate].
  apply andb_true_iff in Hz as [Hz1 Hz2].
  apply Z.leb_le in Hz1. apply Z.ltb_lt in Hz2.
  intros H. right. exists (Z.to_nat z).
  rewrite Z2Nat.id by lia.
  rewrite <- (Z2Nat.id z) in Hocc by lia. rewrite cellAt_atNum in Hocc.
  split; [reflexivity |]. split; [lia |].
  split; [destruct (cellAt (board g) (Z.to_nat z)); [exfalso; apply Hocc; eauto | reflexivity] |].
  split; [congruence |].
  fold (moverMark g) in H. revert H.
  match goal with
  | |- context [tttWinner ?b] => destruct (tttWinner b) eqn:Hw
  end; intros [= <- <-]; cbn [board players turn]; rewrite Hw;
    (split; [reflexivity |]); (split; [reflexivity |]).
  - right. repeat split; [discriminate | eauto].
  - right. repeat split; [discriminate | eauto].
  - left. repeat split; eauto.
Qed.

(** X4. A click by the player in turn on the button of a free cell is
    played: the mover's mark goes to that cell and to no other, the
    players stay, and the turn passes exactly when the board has no
    verdict yet.  When it has one the turn stays, the buttons are sent
    disabled and the handler awaits the update; the collector keeps
    running until the update has settled, is stopped when the platform
    accepts it, and goes on over the decided board when the update is
    rejected. *)
Theorem collect_legal_move (g : game) (btn : button) (k i : nat) :
  (i < 9)%nat -> length (board g) = 9%nat ->
  customId btn = "ttt:" +:+ pretty (Z.of_nat i) ->
  atNum (players g) (Some (turn g)) = Some (user btn) ->
  cellAt (board g) i = None ->
  exists g' desc over,
    collect g btn = Some (g', Update desc over)
    /\ deliver (Session g true k) (Click btn)
       = Some (Session g' true (if over then S k else k))
    /\ (forall ok, deliver (Session g' true (S k)) (Settled ok)
                   = Some (Session g' (negb ok) k))
    /\ board g' = <[i := Some (moverMark g)]> (board g)
    /\ (forall j, j <> i -> cellAt (board g') j = cellAt (board g) j)
    /\ cellAt (board g') i = Some (moverMark g)
    /\ players g' = players g
    /\ (over = false <-> tttWinner (board g') = Pending)
    /\ turn g' = (if over then turn g else 1 - turn g).
Proof.
  intros Hi Hlen Hid Hturn Hfree.
  destruct btn as [cid u]. cbn [customId user] in *. subst cid.
  destruct (target_rendered i u Hi) as [Hs Ht].
  assert (Hin : existsb (String.eqb u) (players g) = true).
  { apply includes_In. unfold atNum in Hturn. destruct (0 <=? turn g); [| discriminate].
    apply list_elem_of_In. eapply list_elem_of_lookup_2, Hturn. }
  assert (Hcell : forall j, cellAt (<[i := Some (moverMark g)]> (board g)) j
                            = if decide (i = j) then Some (moverMark g)
                              else cellAt (board g) j)
    by (intros j; apply cellAt_insert; lia).
  unfold deliver. cbn [running data awaiting].
  unfold collect. cbn [customId user]. rewrite Hs. cbn [negb].
  rewrite Hin. cbn [negb].
  rewrite bool_decide_eq_true_2 by congruence. cbn [negb].
  rewrite Ht, cellAt_atNum, Hfree.
  rewrite bool_decide_eq_false_2 by (intros [? ?]; discriminate).
  unfold writeCell.
  rewrite (proj2 (Z.leb_le 0 (Z.of_nat i))) by lia.
  rewrite (proj2 (Z.ltb_lt (Z.of_nat i) (Z.of_nat (length (board g))))) by lia.
  cbn [andb]. rewrite Nat2Z.id. fold (moverMark g).
  match goal with
  | |- context [tttWinner ?b] => destruct (tttWinner b) eqn:Hw
  end;
    do 3 eexists; (split; [reflexivity |]); (split; [reflexivity |]);
    (split; [intros ok; reflexivity |]);
    cbn [board players turn]; rewrite ?Hw;
    (split; [reflexivity |]);
    (split; [intros j Hj; rewrite Hcell; now rewrite decide_False by congruence |]);
    (split; [rewrite Hcell; now rewrite decide_True |]);
    (split; [reflexivity |]);
    (split; [split; intros; try discriminate; reflexivity | reflexivity]).
Qed.

(** The opening move of a game, run through the theorem. *)
Lemma collect_legal_move_witness :
  exists g' desc over,
    collect (newGame "ann" "ben") (Button "ttt:4" "ann") = Some (g', Update desc over)
    /\ deliver (Session (newGame "ann" "ben") true 0) (Click (Button "ttt:4" "ann"))
       = Some (Session g' true (if over then 1%nat else 0%nat))
    /\ (forall ok, deliver (Session g' true 1) (Settled ok) = Some (Session g' (negb ok) 0))
    /\ board g' = <[4%nat := Some (moverMark (newGame "ann" "ben"))]>
                    (board (newGame "ann" "ben"))
    /\ (forall j, j <> 4%nat -> cellAt (board g') j = cellAt (board (newGame "ann" "ben")) j)
    /\ cellAt (board g') 4 = Some (moverMark (newGame "ann" "ben"))
    /\ players g' = players (newGame "ann" "ben")
    /\ (over = false <-> tttWinner (board g') = Pending)
    /\ turn g' = (if over then turn (newGame "ann" "ben")
                  else 1 - turn (newGame "ann" "ben")).
Proof.
  apply (collect_legal_move (newGame "ann" "ben") (Button "ttt:4" "ann") 0 4);
    [lia | reflexivity | reflexivity | reflexivity | reflexivity].
Defined.

(** X5. The winner that a move brings about is the player who made
    it: when the board had no verdict before a click and shows a winner
    after it, the winning mark is the mover's. *)
Theorem winner_is_mover (g g' : game) (btn : button) (r : reaction) (m : mark) :
  tttWinner (board g) = Pending ->
  collect g btn = Some (g', r) ->
  tttWinner (board g') = Winner m ->
  m = moverMark g.
Proof.
  intros Hpend Hc Hwin.
  destruct (collect_cases _ _ _ _ Hc)
    as [[-> _] | (i & _ & Hi & _ & _ & Hb & _ & _)]; [congruence |].
  destruct (decide (m = moverMark g)) as [| Hne]; [assumption | exfalso].
  assert (Hl : exists l, In l lines /\ occupies (board g') m l).
  { unfold tttWinner in Hwin. destruct (firstWinner (board g') lines) eqn:E.
    - inversion Hwin; subst. now apply firstWinner_Some.
    - destruct (forallb _ _); discriminate. }
  destruct Hl as ([[a b] c] & Hin & Ha & Hb' & Hc').
  rewrite Hb in Ha, Hb', Hc'. rewrite cellAt_insert in Ha, Hb', Hc' by assumption.
  assert (Hold : someLine (board g)).
  { exists m, (a, b, c). split; [exact Hin |].
    repeat case_decide; simplify_eq; repeat split; assumption. }
  apply firstWinner_someLine in Hold as [n Hn].
  unfold tttWinner in Hpend. rewrite Hn in Hpend. discriminate.
Qed.

(** X completes the top row, run through the theorem. *)
Lemma winner_is_mover_witness :
  X = moverMark (Game ["ann"; "ben"] 0
                      [Some X; Some X; None; Some O; Some O; None; None; None; None]).
Proof.
  eapply (winner_is_mover
            (Game ["ann"; "ben"] 0
                  [Some X; Some X; None; Some O; Some O; None; None; None; None])
            _ (Button "ttt:2" "ann") _ X); reflexivity.
Defined.

Lemma marks_insert (b : list cell) i m m0 :
  b !! i = Some None ->
  marks m (<[i := Some m0]> b) = marks m b + (if decide (m = m0) then 1 else 0).
Proof.
  unfold marks. revert i. induction b as [|c b IH]; intros [|i] Hi;
    simpl in Hi; try discriminate.
  - inversion Hi; subst. change (<[0%nat := Some m0]> (None :: b)) with (Some m0 :: b).
    rewrite !filter_cons.
    repeat case_decide; try congruence; cbn [length]; lia.
  - change (<[S i := Some m0]> (c :: b)) with (c :: <[i := Some m0]> b).
    rewrite !filter_cons.
    specialize (IH i Hi).
    repeat case_decide; simplify_eq; cbn [length]; lia.
Qed.

(** A click on a button of the board is never a write outside it. *)
Lemma collect_onBoard g btn :
  length (board g) = 9%nat -> onBoard btn -> is_Some (collect g btn).
Proof.
  intros Hlen (i & Hi & Hid). destruct btn as [cid u]. cbn [customId] in Hid. subst cid.
  destruct (target_rendered i u Hi) as [Hs Ht].
  unfold collect. cbn [customId user]. rewrite Hs. cbn [negb].
  destruct (existsb (String.eqb u) (players g)); cbn [negb]; [| eauto].
  case_bool_decide; cbn [negb]; [| eauto].
  case_bool_decide; [eauto |].
  rewrite Ht. unfold writeCell.
  rewrite (proj2 (Z.leb_le 0 (Z.of_nat i))) by lia.
  rewrite (proj2 (Z.ltb_lt (Z.of_nat i) (Z.of_nat (length (board g))))) by lia.
  cbn [andb]. destruct (tttWinner _); eauto.
Qed.

(** What an event can do to a session.  Either the record stays: then
    the collector goes on as it was, or it ends (the time is up, or an
    awaited update is accepted), and the count of awaited updates
    stays or goes down by one.  Or a click puts one more mark of the
    player in turn on a free cell of a running game: the turn passes
    exactly when the new board has no verdict, and otherwise one more
    update is awaited. *)
Lemma deliver_cases s e s' :
  deliver s e = Some s' ->
  (data s' = data s
   /\ ((running s' = running s /\ awaiting s' = awaiting s)
       \/ (e = TimeUp /\ running s' = false /\ awaiting s' = awaiting s)
       \/ (exists ok, e = Settled ok /\ running s' = (running s && negb ok)
                      /\ awaiting s = S (awaiting s'))))
  \/ exists (i : nat) btn,
       e = Click btn /\ running s = true /\ running s' = true
       /\ board (data s) !! i = Some None
       /\ board (data s') = <[i := Some (moverMark (data s))]> (board (data s))
       /\ players (data s') = players (data s)
       /\ ((tttWinner (board (data s')) = Pending
            /\ turn (data s') = 1 - turn (data s) /\ awaiting s' = awaiting s)
           \/ (tttWinner (board (data s')) <> Pending
               /\ turn (data s') = turn (data s) /\ awaiting s' = S (awaiting s))).
Proof.
  unfold deliver. destruct e as [btn | ok |].
  - destruct (running s) eqn:Er; [| intros [= <-]; auto].
    destruct (collect (data s) btn) as [[g r]|] eqn:Hc; [| discriminate].
    destruct (collect_cases _ _ _ _ Hc)
      as [[-> Href] | (i & _ & Hi & Hfree & _ & Hb & Hpl & Hend)].
    + destruct Href as [-> | [-> | [-> | ->]]]; intros [= <-]; cbn; auto.
    + assert (Hnone : board (data s) !! i = Some None).
      { destruct (lookup_lt_is_Some_2 (board (data s)) i Hi) as [c Hc'].
        unfold cellAt, cell in *.
        rewrite Hc' in Hfree |- *. simpl in Hfree. congruence. }
      destruct Hend as [(Hw & Htn & d & ->) | (Hw & Htn & d & ->)];
        intros [= <-]; right; exists i, btn; cbn [data running awaiting];
        (split; [reflexivity |]); (split; [reflexivity |]); (split; [reflexivity |]);
        (split; [assumption |]); (split; [assumption |]); (split; [assumption |]).
      * left. auto.
      * right. auto.
  - destruct (awaiting s) as [|k] eqn:Ek; intros [= <-]; left; cbn [data running awaiting].
    + split; [reflexivity |]. left. auto.
    + split; [reflexivity |]. right. right. exists ok. auto.
  - intros [= <-]. left. cbn [data running awaiting].
    split; [reflexivity |]. right. left. auto.
Qed.

Lemma deliver_onBoard a b s e :
  shape a b s -> onBoardEvent e -> is_Some (deliver s e).
Proof.
  intros (_ & Hlen & _) He. unfold deliver.
  destruct e as [btn | ok |]; [| destruct (awaiting s); eauto | eauto].
  destruct (running s); [| eauto].
  destruct (collect_onBoard (data s) btn Hlen He) as [[g r] ->].
  destruct r; eauto.
Qed.

Lemma deliver_shape a b s e s' :
  shape a b s -> deliver s e = Some s' -> shape a b s'.
Proof.
  intros (Hp & Hlen & Hturn) Hd.
  destruct (deliver_cases _ _ _ Hd)
    as [[Hdat _] | (i & btn & _ & _ & _ & _ & Hb & Hpl & Hend)].
  - unfold shape. rewrite Hdat. repeat split; assumption.
  - unfold shape. rewrite Hb, Hpl, length_insert.
    repeat split; try assumption.
    destruct Hend as [(_ & -> & _) | (_ & -> & _)]; lia.
Qed.

(** One event in good order keeps the game fair. *)
Lemma deliver_fair a b s e s' :
  shape a b s -> fair s -> orderly s [e] -> deliver s e = Some s' -> fair s'.
Proof.
  intros (Hp & Hlen & Hturn) Hfair [Hord _] Hd.
  destruct (deliver_cases _ _ _ Hd)
    as [[Hdat Hr] | (i & btn & -> & Er & Er' & Hnone & Hb & Hpl & Hend)].
  - unfold fair in *. rewrite Hdat.
    destruct (tttWinner (board (data s))).
    + destruct Hfair as [Haw Hm]. split; [| exact Hm].
      intros Hr'.
      destruct Hr as [[E1 E2] | [(_ & E1 & E2) | (ok & -> & E1 & E2)]];
        [rewrite E2; apply Haw; congruence | congruence |].
      cbn in Hord. subst ok. rewrite andb_false_r in E1. congruence.
    + destruct Hfair as [Haw Hm]. split; [| exact Hm].
      intros Hr'.
      destruct Hr as [[E1 E2] | [(_ & E1 & E2) | (ok & -> & E1 & E2)]];
        [rewrite E2; apply Haw; congruence | congruence |].
      cbn in Hord. subst ok. rewrite andb_false_r in E1. congruence.
    + destruct Hfair as [Haw Hm]. split; [| exact Hm].
      destruct Hr as [[_ E2] | [(_ & _ & E2) | (ok & _ & _ & E2)]]; lia.
  - cbn in Hord. destruct Hord as [Haw | ?]; [| congruence].
    assert (Hpend : tttWinner (board (data s)) = Pending).
    { unfold fair in Hfair. destruct (tttWinner (board (data s))); [| | reflexivity];
        destruct Hfair as [Hone _]; specialize (Hone Er); lia. }
    unfold fair in Hfair. rewrite Hpend in Hfair. destruct Hfair as [_ Hmarks].
    assert (HX := marks_insert (board (data s)) i X (moverMark (data s)) Hnone).
    assert (HO := marks_insert (board (data s)) i O (moverMark (data s)) Hnone).
    rewrite <- Hb in HX, HO. unfold moverMark in HX, HO.
    unfold fair.
    destruct Hend as [(Hw & Htn & Ha) | (Hw & Htn & Ha)]; rewrite Ha, Htn.
    + rewrite Hw. split; [exact Haw |].
      destruct Hturn as [E | E]; rewrite E in *; cbn in HX, HO;
        repeat case_decide; try discriminate; try congruence; lia.
    + destruct (tttWinner (board (data s'))); try congruence;
        (split; [intros _; lia |]);
        destruct Hturn as [E | E]; rewrite E in *; cbn in HX, HO;
        repeat case_decide; try discriminate; try congruence; lia.
Qed.

(** An ended collector leaves the record alone. *)
Lemma play_ended s es s' :
  running s = false -> play s es = Some s' -> data s' = data s /\ running s' = false.
Proof.
  revert s. induction es as [|e es IH]; intros s Hr Hp; cbn [play] in Hp.
  - inversion Hp; subst. auto.
  - destruct (deliver s e) as [s1|] eqn:Hd; [| discriminate].
    destruct (deliver_cases _ _ _ Hd)
      as [[Hdat Hr1] | (i & btn & _ & Er & _)]; [| congruence].
    assert (Hr1' : running s1 = false).
    { destruct Hr1 as [[E _] | [(_ & E & _) | (ok & _ & E & _)]];
        rewrite E; [exact Hr | reflexivity | now rewrite Hr]. }
    destruct (IH s1 Hr1' Hp) as [E1 E2]. split; [congruence | exact E2].
Qed.

(** The invariants along a run. *)
Lemma play_invariant a b es : forall s,
  shape a b s -> Forall onBoardEvent es ->
  exists s',
    play s es = Some s'
    /\ shape a b s'
    /\ (fair s -> orderly s es ->
        fair s'
        /\ (running s' = false ->
            running s = false \/ tttWinner (board (data s')) <> Pending \/ In TimeUp es)).
Proof.
  induction es as [|e es IH]; intros s Hshape Hon.
  - exists s. split; [reflexivity |]. split; [exact Hshape |]. auto.
  - inversion Hon as [|? ? He Hes]; subst.
    destruct (deliver_onBoard a b s e Hshape He) as [s1 Hd].
    pose proof (deliver_shape a b s e s1 Hshape Hd) as Hshape1.
    destruct (IH s1 Hshape1 Hes) as (s' & Hplay & Hshape' & Hrest).
    exists s'. cbn [play]. rewrite Hd. split; [exact Hplay |]. split; [exact Hshape' |].
    intros Hfair Hord.
    assert (Hord1 : orderly s [e]).
    { cbn [orderly] in Hord |- *. rewrite Hd in *. split; [exact (proj1 Hord) | exact I]. }
    assert (Hord' : orderly s1 es).
    { cbn [orderly] in Hord. rewrite Hd in Hord. exact (proj2 Hord). }
    pose proof (deliver_fair a b s e s1 Hshape Hfair Hord1 Hd) as Hfair1.
    destruct (Hrest Hfair1 Hord') as [Hfair' Hstop].
    split; [exact Hfair' |].
    intros Hr. destruct (Hstop Hr) as [Hr1 | [Hw | Hin]].
    + destruct (play_ended s1 es s' Hr1 Hplay) as [Hdat _].
      destruct (deliver_cases _ _ _ Hd)
        as [[Hdat1 Hc] | (i & btn & _ & _ & Er1 & _)]; [| congruence].
      destruct Hc as [[E _] | [(-> & _) | (ok & -> & E & Haw)]].
      * left. congruence.
      * right. right. now left.
      * destruct (running s) eqn:Er; [| now left].
        right. left. rewrite Hdat, Hdat1. intros Hpend.
        unfold fair in Hfair. rewrite Hpend in Hfair. lia.
    + right. now left.
    + right. right. now right.
Qed.

(** X6. Whatever buttons of the board are clicked, by whomever and in
    whatever order, whether the platform accepts the updates or not,
    however late they settle and whenever the collector times out, the
    game keeps its nine cells and its two players and the turn is 0 or
    1.  As long as the events come in good order (every update is
    accepted, and no click comes in while the update of a decided
    board is awaited), the marks alternate (X leads by the turn index)
    up to the verdict, after which the last mover is still in turn; a
    running game with no update awaited has no verdict; and the
    collector has not ended unless the board is won or full or the
    time was up. *)
Theorem play_wellFormed (a b : uid) (es : list event) :
  Forall onBoardEvent es ->
  exists s,
    play (start a b) es = Some s
    /\ shape a b s
    /\ (orderly (start a b) es ->
        fair s
        /\ (running s = true -> awaiting s = 0%nat ->
            tttWinner (board (data s)) = Pending)
        /\ (running s = false ->
            tttWinner (board (data s)) <> Pending \/ In TimeUp es)).
Proof.
  intros Hon.
  assert (Hshape : shape a b (start a b)) by (unfold shape, start; cbn; auto).
  assert (Hfair : fair (start a b)) by (split; reflexivity).
  destruct (play_invariant a b es (start a b) Hshape Hon) as (s & Hplay & Hs & Hrest).
  exists s. split; [exact Hplay |]. split; [exact Hs |].
  intros Hord. destruct (Hrest Hfair Hord) as [Hf Hstop].
  split; [exact Hf |]. split.
  - intros Hr Haw. unfold fair in Hf.
    destruct (tttWinner (board (data s))); [| | reflexivity];
      destruct Hf as [Hone _]; specialize (Hone Hr); lia.
  - intros Hr. destruct (Hstop Hr) as [Hr0 | H]; [discriminate | exact H].
Qed.

(** A game of four clicks in good order, one of them by a bystander,
    and the time-out, run through the theorem. *)
Lemma play_wellFormed_witness :
  exists s,
    play (start "ann" "ben")
         [Click (Button "ttt:4" "ann"); Click (Button "ttt:4" "ben");
          Click (Button "ttt:0" "cy"); Click (Button "ttt:0" "ben"); TimeUp] = Some s
    /\ shape "ann" "ben" s
    /\ fair s
    /\ (running s = false ->
        tttWinner (board (data s)) <> Pending
        \/ In TimeUp
             [Click (Button "ttt:4" "ann"); Click (Button "ttt:4" "ben");
              Click (Button "ttt:0" "cy"); Click (Button "ttt:0" "ben"); TimeUp]).
Proof.
  destruct (play_wellFormed "ann" "ben"
              [Click (Button "ttt:4" "ann"); Click (Button "ttt:4" "ben");
               Click (Button "ttt:0" "cy"); Click (Button "ttt:0" "ben"); TimeUp])
    as (s & Hplay & Hshape & Hrest).
  - repeat constructor;
      [exists 4%nat | exists 4%nat | exists 0%nat | exists 0%nat];
      (split; [lia | reflexivity]).
  - exists s. split; [exact Hplay |]. split; [exact Hshape |].
    destruct Hrest as (Hf & _ & Hstop); [| auto].
    vm_compute. repeat split; auto.
Defined.

(** Out of good order the game goes on over a decided board.  X
    completes the top row and the update is rejected: X, still in turn,
    is let to play a fourth mark against two.  The same happens when
    the click comes in before the update has settled. *)
Example play_out_of_order :
  play (start "ann" "ben")
       [Click (Button "ttt:0" "ann"); Click (Button "ttt:3" "ben");
        Click (Button "ttt:1" "ann"); Click (Button "ttt:4" "ben");
        Click (Button "ttt:2" "ann"); Settled false; Click (Button "ttt:8" "ann");
        Settled true]
  = Some (Session (Game ["ann"; "ben"] 0
                        [Some X; Some X; Some X; Some O; Some O; None; None; None; Some X])
                  false 0)
  /\ play (start "ann" "ben")
       [Click (Button "ttt:0" "ann"); Click (Button "ttt:3" "ben");
        Click (Button "ttt:1" "ann"); Click (Button "ttt:4" "ben");
        Click (Button "ttt:2" "ann"); Click (Button "ttt:8" "ann"); Settled true;
        Settled true]
  = Some (Session (Game ["ann"; "ben"] 0
                        [Some X; Some X; Some X; Some O; Some O; None; None; None; Some X])
                  false 0).
Proof. split; reflexivity. Qed.

End BoardFacts.

(** ** More on polls *)

Section PollMoreFacts.
Import Js Poll.

Lemma skipSpaces_head s :
  match skipSpaces s with
  | String c _ => isSpace c = false
  | EmptyString => True
  end.
Proof.
  induction s as [|c s IH]; simpl; [exact I |].
  destruct (isSpace c) eqn:E; [exact IH | exact E].
Qed.

Lemma trimEnd_idem s : trimEnd (trimEnd s) = trimEnd s.
Proof.
  induction s as [|c s IH]; [reflexivity |].
  cbn [trimEnd]. destruct (trimEnd s) as [|d t] eqn:E.
  - destruct (isSpace c) eqn:Ec; [reflexivity |].
    cbn [trimEnd]. now rewrite Ec.
  - cbn [trimEnd]. cbn [trimEnd] in IH. rewrite IH. reflexivity.
Qed.

Lemma trimEnd_head c s :
  isSpace c = false -> exists t, trimEnd (String c s) = String c t.
Proof.
  intros Hc. cbn [trimEnd]. destruct (trimEnd s); [rewrite Hc |]; eauto.
Qed.

(** Trimming a trimmed string changes nothing. *)
Lemma trim_idem s : trim (trim s) = trim s.
Proof.
  unfold trim. pose proof (skipSpaces_head s) as Hh.
  destruct (skipSpaces s) as [|c x]; [reflexivity |].
  destruct (trimEnd_head c x Hh) as [t Et].
  rewrite Et. cbn [skipSpaces]. rewrite Hh, <- Et. apply trimEnd_idem.
Qed.

(** A poll starts with every count at 0 and no voter. *)
Lemma createPoll_start q raw multi p :
  createPoll q raw multi = Some p ->
  Forall (fun o => count o = 0) (options p)
  /\ voters p = ∅ /\ multiVoters p = ∅ /\ question p = q /\ multiple p = multi.
Proof.
  unfold createPoll. destruct (length (parseOptions raw) <? 2)%nat; [discriminate |].
  intros [= <-]. cbn [options voters multiVoters question multiple].
  repeat split. apply Forall_map. apply Forall_forall. reflexivity.
Qed.

(** X7. The [/poll] command stores a poll exactly when the option text
    has at least two non-blank pieces between semicolons, and refuses
    exactly when it has fewer; the labels of the stored poll are the
    first five of these pieces, trimmed, in their order, so there are
    between two and five options, each with a trimmed, non-empty label
    and the count 0, and no recorded voter. *)
Theorem createPoll_shape (q raw : string) (multi : bool) :
  let pieces := filter (fun s => nonEmpty s = true) (map trim (split ";" raw)) in
  match createPoll q raw multi with
  | Some p =>
      (2 <= length pieces)%nat
      /\ map label (options p) = take 5 pieces
      /\ (2 <= length (options p) <= 5)%nat
      /\ Forall (fun o => count o = 0 /\ nonEmpty (label o) = true
                          /\ trim (label o) = label o) (options p)
      /\ voters p = ∅ /\ multiVoters p = ∅
      /\ question p = q /\ multiple p = multi
  | None => (length pieces < 2)%nat
  end.
Proof.
  intros pieces. unfold createPoll, parseOptions. fold pieces.
  assert (Hp : Forall (fun s => nonEmpty s = true /\ trim s = s) pieces).
  { subst pieces. apply Forall_forall. intros x Hx.
    apply list_elem_of_filter in Hx as [Hx1 Hx2].
    split; [exact Hx1 |].
    apply (proj1 (list_elem_of_In _ _)) in Hx2.
    apply in_map_iff in Hx2 as (y & <- & _). apply trim_idem. }
  destruct (length (take 5 pieces) <? 2)%nat eqn:E.
  - apply Nat.ltb_lt in E. rewrite length_take in E. lia.
  - apply Nat.ltb_ge in E. cbn [options voters multiVoters question multiple].
    rewrite length_map.
    split; [rewrite length_take in E; lia |].
    split.
    { generalize (take 5 pieces). intros l.
      induction l as [|x l IH]; [reflexivity |]. cbn [map label]. now rewrite IH. }
    split; [rewrite length_take in *; lia |].
    split; [| auto].
    apply Forall_map. eapply Forall_impl; [apply Forall_take, Hp |].
    intros s [H1 H2]. cbn [count label]. auto.
Qed.

Lemma bump_undo d (opts opts1 : list pollOption) (i : nat) :
  bump d opts (Some (Z.of_nat i)) = Some opts1 ->
  bump (- d) opts1 (Some (Z.of_nat i)) = Some opts.
Proof.
  unfold bump. rewrite !atNum_index.
  destruct (opts !! i) as [o|] eqn:Ho; [| discriminate].
  change (default 0 (Some (Z.of_nat i))) with (Z.of_nat i). rewrite Nat2Z.id.
  intros [= <-].
  rewrite list_lookup_insert_eq by (eapply lookup_lt_Some, Ho).
  rewrite list_insert_insert_eq. cbn [label count].
  f_equal. apply list_insert_id. rewrite Ho. f_equal.
  destruct o as [l c]. cbn. f_equal. lia.
Qed.

(** X8. In a multiple-choice poll a second click by the same user on
    the same button takes the first one back: the poll is exactly what
    it was, and neither click raises. *)
Theorem multi_vote_toggle (p : poll) (u : uid) (i : nat) :
  multiple p = true -> (i < length (options p))%nat ->
  fst (vote (fst (vote p u (Some (Z.of_nat i)))) u (Some (Z.of_nat i))) = p
  /\ snd (vote p u (Some (Z.of_nat i))) <> Threw
  /\ snd (vote (fst (vote p u (Some (Z.of_nat i)))) u (Some (Z.of_nat i))) <> Threw.
Proof.
  intros Hm Hi. destruct p as [q m opts vs mv]. cbn [multiple options] in *. subst m.
  set (key := u +:+ ":" +:+ showNum (Some (Z.of_nat i))).
  unfold vote. cbn [multiple negb multiVoters options withMultiVoters withOptions
                   question voters]. fold key.
  destruct (bump_index 1 opts i Hi) as (o1 & E1 & Hl1 & _).
  destruct (bump_index (-1) opts i Hi) as (o2 & E2 & Hl2 & _).
  pose proof (bump_undo _ _ _ _ E1) as U1. change (Z.opp 1) with (-1) in U1.
  pose proof (bump_undo _ _ _ _ E2) as U2. change (Z.opp (-1)) with 1 in U2.
  case_bool_decide as Hk.
  - rewrite E2. unfold render, withOptions, withMultiVoters.
    cbn [fst snd multiple negb multiVoters options question voters]. fold key.
    rewrite bool_decide_eq_false_2
      by (intros [_ Hn]%elem_of_difference; apply Hn, elem_of_singleton; reflexivity).
    rewrite U2. cbn [fst snd]. repeat split; try discriminate.
    f_equal. apply set_eq. intros x.
    rewrite elem_of_union, elem_of_difference, elem_of_singleton.
    destruct (decide (x = key)); subst; tauto.
  - rewrite E1. unfold render, withOptions, withMultiVoters.
    cbn [fst snd multiple negb multiVoters options question voters]. fold key.
    rewrite bool_decide_eq_true_2 by (apply elem_of_union; left; now apply elem_of_singleton).
    rewrite U1. cbn [fst snd]. repeat split; try discriminate.
    f_equal. apply set_eq. intros x.
    rewrite elem_of_difference, elem_of_union, elem_of_singleton.
    split; [intros [[-> | H] Hn]; [contradiction Hn; reflexivity | exact H] |].
    intros H. split; [now right |]. intros ->. contradiction.
Qed.

(** A double click on the second of two options, run through the
    theorem. *)
Lemma multi_vote_toggle_witness :
  let p := MkPoll "Snacks?" true [PollOption "Tea" 0; PollOption "Cake" 3] ∅ ∅ in
  fst (vote (fst (vote p "ann" (Some 1))) "ann" (Some 1)) = p.
Proof.
  intros p.
  refine (proj1 (multi_vote_toggle p "ann" 1 _ _)); [reflexivity | simpl; lia].
Defined.

Lemma size_add_key (key : string) (S : gset string) :
  key ∉ S -> size ({[key]} ∪ S) = (1 + size S)%nat.
Proof.
  intros Hk. rewrite size_union by (apply disjoint_singleton_l; exact Hk).
  now rewrite size_singleton.
Qed.

Lemma size_remove_key (key : string) (S : gset string) :
  key ∈ S -> size S = (1 + size (S ∖ {[key]}))%nat.
Proof.
  intros Hk. rewrite <- (size_add_key key (S ∖ {[key]})).
  - f_equal. apply set_eq. intros x.
    rewrite elem_of_union, elem_of_difference, elem_of_singleton.
    destruct (decide (x = key)); subst; tauto.
  - intros [_ Hn]%elem_of_difference. apply Hn, elem_of_singleton. reflexivity.
Qed.

(** One click in a multiple-choice poll keeps the total equal to the
    number of recorded (voter, option) keys. *)
Lemma vote_multi_total p u (i : nat) :
  multiple p = true -> (i < length (options p))%nat ->
  totalVotes (options p) = Z.of_nat (size (multiVoters p)) ->
  let p' := fst (vote p u (Some (Z.of_nat i))) in
  multiple p' = true /\ length (options p') = length (options p)
  /\ totalVotes (options p') = Z.of_nat (size (multiVoters p')).
Proof.
  intros Hm Hi Ht p'. subst p'. unfold vote. rewrite Hm. cbn [negb].
  set (key := u +:+ ":" +:+ showNum (Some (Z.of_nat i))).
  destruct (bump_index 1 (options p) i Hi) as (o1 & E1 & Hl1 & Ht1).
  destruct (bump_index (-1) (options p) i Hi) as (o2 & E2 & Hl2 & Ht2).
  case_bool_decide as Hk.
  - cbn [options withMultiVoters]. rewrite E2.
    unfold withOptions, withMultiVoters. simpl.
    split; [assumption |]. split; [assumption |].
    rewrite Ht2, Ht, (size_remove_key _ _ Hk). lia.
  - cbn [options withMultiVoters]. rewrite E1.
    unfold withOptions, withMultiVoters. simpl.
    split; [assumption |]. split; [assumption |].
    rewrite Ht1, Ht, (size_add_key _ _ Hk). lia.
Qed.

(** X9. In a poll created in multiple-choice mode, after any sequence
    of clicks on its buttons, the option counts add up to the number of
    (voter, option) keys recorded in the multi-voter set. *)
Theorem multi_vote_total (q raw : string) (p0 : poll) (cs : list click) :
  createPoll q raw true = Some p0 ->
  Forall (onButton p0) cs ->
  totalVotes (options (votes p0 cs)) = Z.of_nat (size (multiVoters (votes p0 cs))).
Proof.
  intros Hnew Hcs.
  assert (H0 : multiple p0 = true
               /\ totalVotes (options p0) = Z.of_nat (size (multiVoters p0))).
  { destruct (createPoll_start q raw true p0 Hnew) as (Hz & _ & Hmv & _ & Hm).
    split; [exact Hm |].
    rewrite Hmv, size_empty. clear -Hz.
    induction Hz as [|o l Hc _ IH]; [reflexivity |].
    rewrite totalVotes_cons, IH, Hc. reflexivity. }
  clear Hnew. revert p0 H0 Hcs.
  induction cs as [|c cs IH]; intros p [Hm Ht] Hcs; [exact Ht |].
  inversion Hcs as [|? ? (i & Hi1 & Hi2) Hrest]; subst.
  unfold votes. cbn [fold_left]. fold (votes (fst (vote p (clicker c) (target c))) cs).
  rewrite Hi1.
  destruct (vote_multi_total p (clicker c) i Hm Hi2 Ht) as (Hm' & Hl' & Ht').
  apply IH; [split; assumption |].
  eapply Forall_impl; [exact Hrest |].
  intros c' (k & Hk1 & Hk2). exists k. split; [exact Hk1 | lia].
Qed.

(** Two voters, one of them taking a vote back, run through the
    theorem. *)
Lemma multi_vote_total_witness :
  let p0 := MkPoll "Snacks?" true [PollOption "Tea" 0; PollOption "Cake" 0] ∅ ∅ in
  let cs := [Click "ann" (Some 0); Click "ann" (Some 1); Click "ben" (Some 1);
             Click "ann" (Some 0)] in
  totalVotes (options (votes p0 cs)) = Z.of_nat (size (multiVoters (votes p0 cs))).
Proof.
  intros p0 cs. apply (multi_vote_total "Snacks?" "Tea; Cake" p0 cs).
  - reflexivity.
  - repeat constructor;
      [exists 0%nat | exists 1%nat | exists 1%nat | exists 0%nat];
      (split; [reflexivity | simpl; lia]).
Defined.

Lemma bump_labels d (opts opts' : list pollOption) (i : num) :
  bump d opts i = Some opts' -> map label opts' = map label opts.
Proof.
  unfold bump. destruct (atNum opts i) as [o|] eqn:Ho; [| discriminate].
  intros [= <-]. destruct i as [z|]; [| discriminate].
  unfold atNum in Ho. destruct (0 <=? z); [| discriminate].
  cbn [default from_option id]. rewrite list_fmap_insert. cbn [label].
  apply list_insert_id. rewrite list_lookup_fmap, Ho. reflexivity.
Qed.

(** X10. In a single-vote poll a click on a button records that option
    as the clicker's choice, whatever they chose before; it leaves
    every other voter's choice and all labels alone, and it does not
    raise. *)
Theorem single_vote_latest (p : poll) (u : uid) (i : nat) :
  counted p -> (i < length (options p))%nat ->
  voters (fst (vote p u (Some (Z.of_nat i)))) !! u = Some (Some (Z.of_nat i))
  /\ (forall w, w <> u ->
        voters (fst (vote p u (Some (Z.of_nat i)))) !! w = voters p !! w)
  /\ map label (options (fst (vote p u (Some (Z.of_nat i))))) = map label (options p)
  /\ snd (vote p u (Some (Z.of_nat i))) <> Threw.
Proof.
  intros (Hm & _ & Hrange) Hi. unfold vote. rewrite Hm. cbn [negb].
  destruct (voters p !! u) as [prev|] eqn:Hu.
  - destruct (Hrange u prev Hu) as (j & -> & Hj).
    destruct (numEq (Some (Z.of_nat j)) (Some (Z.of_nat i))) eqn:Heq.
    + cbn in Heq. apply Z.eqb_eq in Heq. cbn [fst snd].
      repeat split; intros; try discriminate; try reflexivity.
      rewrite <- Heq. exact Hu.
    + destruct (bump_index (-1) (options p) j Hj) as (o1 & E1 & Hl1 & _). rewrite E1.
      unfold recordVote. cbn [options withVoters withOptions].
      destruct (bump_index 1 o1 i ltac:(lia)) as (o2 & E2 & _ & _). rewrite E2.
      unfold render, withOptions, withVoters. cbn.
      repeat split; try discriminate.
      * apply lookup_insert_eq.
      * intros w Hw. now rewrite lookup_insert_ne by congruence.
      * rewrite (bump_labels _ _ _ _ E2). apply (bump_labels _ _ _ _ E1).
  - unfold recordVote. cbn [options withVoters withOptions].
    destruct (bump_index 1 (options p) i Hi) as (o2 & E2 & _ & _). rewrite E2.
    unfold render, withOptions, withVoters. cbn.
    repeat split; try discriminate.
    + apply lookup_insert_eq.
    + intros w Hw. now rewrite lookup_insert_ne by congruence.
    + apply (bump_labels _ _ _ _ E2).
Qed.

(** A change of mind in the three-option poll, run through the
    theorem. *)
Lemma single_vote_latest_witness :
  let p := fst (vote (MkPoll "Best color?" false
                        [PollOption "Red" 0; PollOption "Blue" 0; PollOption "Green" 0]
                        ∅ ∅) "ann" (Some 0)) in
  voters (fst (vote p "ann" (Some 2))) !! "ann" = Some (Some 2).
Proof.
  intros p.
  refine (proj1 (single_vote_latest p "ann" 2 _ _));
    [| subst p; vm_compute; lia].
  destruct (vote_counted (MkPoll "Best color?" false
              [PollOption "Red" 0; PollOption "Blue" 0; PollOption "Green" 0] ∅ ∅)
              "ann" 0) as [Hc _]; [| simpl; lia | exact Hc].
  exact (createPoll_counted "Best color?" "Red;Blue;Green" _ eq_refl).
Defined.

End PollMoreFacts.

(** ** More on the listeners and giveaways *)

Section ListenerMoreFacts.
Import Js Bot.
#[local] Open Scope listener_scope.

(** X11. A click on the button of a poll that is not in the store
    leaves the store as it is and sends the single reply "Poll
    expired."; and the first interaction listener does nothing at all
    for the buttons of tic-tac-toe games and giveaways. *)
Theorem router_foreign_buttons others (pollId idx : string) (u : uid) (w : world) :
  plainId pollId -> polls (st w) !! pollId = None -> rejects w = [] ->
  onInteraction others
    (Interaction ButtonClick ("poll:" +:+ pollId +:+ ":" +:+ idx) u) w
  = (Ok tt, World (st w) (out w ++ [Sent (CReply "Poll expired.")]) true [])
  /\ (forall rest, onInteraction others (Interaction ButtonClick ("ttt:" +:+ rest) u) w
                   = (Ok tt, w))
  /\ (forall rest, onInteraction others (Interaction ButtonClick ("gaw_join:" +:+ rest) u) w
                   = (Ok tt, w)).
Proof.
  intros Hp Hs Hr. split; [| split].
  - unfold onInteraction, tryCatch, routerBody. cbn [ikind customId user].
    change ("poll:" +:+ pollId +:+ ":" +:+ idx)
      with ("poll" +:+ String ":" (pollId +:+ String ":" idx)).
    rewrite (split_plain "poll") by reflexivity.
    rewrite (split_plain pollId) by assumption.
    cbv iota. unfold pollButton, bind, getStore. cbn [lookup list_lookup mbind option_bind].
    rewrite Hs. cbn. unfold returning, platform. rewrite Hr. reflexivity.
  - intros rest. unfold onInteraction, tryCatch, routerBody. cbn [ikind customId].
    change ("ttt:" +:+ rest) with ("ttt" +:+ String ":" rest).
    rewrite (split_plain "ttt") by reflexivity. reflexivity.
  - intros rest. unfold onInteraction, tryCatch, routerBody. cbn [ikind customId].
    change ("gaw_join:" +:+ rest) with ("gaw_join" +:+ String ":" rest).
    rewrite (split_plain "gaw_join") by reflexivity. reflexivity.
Qed.

(** A stale poll button, run through the theorem. *)
Lemma router_foreign_buttons_witness :
  onInteraction (fun _ => ret tt)
    (Interaction ButtonClick "poll:poll_00000000:1" "carol")
    (World (Store ∅ ∅) [] false [])
  = (Ok tt, World (Store ∅ ∅) [Sent (CReply "Poll expired.")] true []).
Proof.
  refine (proj1 (router_foreign_buttons (fun _ => ret tt) "poll_00000000" "1" "carol"
                   (World (Store ∅ ∅) [] false []) _ _ _)); reflexivity.
Defined.

(** X12. When the body of the first interaction listener raises inside
    its [try] block, the listener ends normally with the store as the
    body left it; the error is written to the console once, and one
    error message is attempted: a follow-up when the interaction was
    already replied to, a reply otherwise. *)
Theorem onInteraction_error_report others (i : interaction) (w w' : world) (e : exn) :
  routerBody others i w = (Raise e, w') ->
  fst (onInteraction others i w) = Ok tt
  /\ st (snd (onInteraction others i w)) = st w'
  /\ exists c,
       c = (if replied w' then CFollowUp "An error occurred."
            else CReply "An error occurred.")
       /\ (out (snd (onInteraction others i w)) = (out w' ++ [ConsoleError e; Sent c])%list
           \/ out (snd (onInteraction others i w)) = (out w' ++ [ConsoleError e])%list
              /\ exists bs, rejects w' = true :: bs).
Proof.
  intros Hb. split; [eapply onInteraction_catches, Hb |].
  unfold onInteraction, tryCatch. rewrite Hb.
  split; [apply routerCatch_store |].
  eexists. split; [reflexivity |].
  unfold routerCatch, bind, consoleError, isReplied, bestEffort, tryCatch, platform, ret.
  cbn. destruct (replied w'), (rejects w') as [|[] bs]; cbn;
    rewrite <- ?app_assoc; eauto.
Qed.

(** A vote on an option that does not exist, run through the theorem. *)
Lemma onInteraction_error_report_witness :
  let i := Interaction ButtonClick "poll:poll_ab12cd34:7" "carol" in
  let w := World (Store {[ "poll_ab12cd34" :=
                             Poll.MkPoll "Best color?" false
                               [Poll.PollOption "Red" 0; Poll.PollOption "Blue" 0] ∅ ∅ ]} ∅)
                 [] false [] in
  fst (onInteraction (fun _ => ret tt) i w) = Ok tt.
Proof.
  intros i w.
  refine (proj1 (onInteraction_error_report (fun _ => ret tt) i w
                   (snd (routerBody (fun _ => ret tt) i w)) TypeError _)).
  vm_compute. reflexivity.
Defined.

(** X13. The giveaway listener touches nothing but the entrants of the
    giveaway it is clicked for: for every interaction and every world,
    the polls stay as they are, no giveaway appears or disappears, and
    each giveaway keeps its prize and end time, with its entrants
    either unchanged or extended by the clicker. *)
Theorem onGiveawayJoin_frame (i : interaction) (w : world) (id : string) :
  polls (st (snd (onGiveawayJoin i w))) = polls (st w)
  /\ match giveaways (st w) !! id with
     | None => giveaways (st (snd (onGiveawayJoin i w))) !! id = None
     | Some g =>
         exists g', giveaways (st (snd (onGiveawayJoin i w))) !! id = Some g'
                    /\ Giveaway.prize g' = Giveaway.prize g
                    /\ Giveaway.endsAt g' = Giveaway.endsAt g
                    /\ (Giveaway.entrants g' = Giveaway.entrants g
                        \/ Giveaway.entrants g'
                           = Giveaway.setAdd (user i) (Giveaway.entrants g))
     end.
Proof.
  assert (Hsame : polls (st w) = polls (st w)
                  /\ match giveaways (st w) !! id with
                     | None => giveaways (st w) !! id = None
                     | Some g =>
                         exists g', giveaways (st w) !! id = Some g'
                                    /\ Giveaway.prize g' = Giveaway.prize g
                                    /\ Giveaway.endsAt g' = Giveaway.endsAt g
                                    /\ (Giveaway.entrants g' = Giveaway.entrants g
                                        \/ Giveaway.entrants g'
                                           = Giveaway.setAdd (user i) (Giveaway.entrants g))
                     end).
  { split; [reflexivity |]. destruct (giveaways (st w) !! id) as [g|]; eauto 6. }
  unfold onGiveawayJoin.
  destruct (isButton i); cbn [negb]; [| exact Hsame].
  destruct (startsWith "gaw_join:" (customId i)); [| exact Hsame].
  unfold bind, getStore.
  destruct (split ":" (customId i) !! 1%nat) as [gwId|]; cbn [mbind option_bind].
  2: { unfold returning, platform. destruct (rejects w) as [|[] bs]; exact Hsame. }
  destruct (giveaways (st w) !! gwId) as [data|] eqn:Hd; cbn [fmap option_fmap option_map].
  2: { unfold returning, platform. destruct (rejects w) as [|[] bs]; exact Hsame. }
  assert (Hst : st (snd ((putStore (setGiveaway gwId (Giveaway.join (user i) data) (st w));;
                          returning (CReply "You are entered!")) w))
                = setGiveaway gwId (Giveaway.join (user i) data) (st w)).
  { unfold bind, putStore, returning, platform. cbn.
    destruct (rejects w) as [|[] bs]; reflexivity. }
  unfold bind in Hst. rewrite Hst. clear Hst Hsame.
  unfold setGiveaway. cbn [polls giveaways]. split; [reflexivity |].
  destruct (decide (gwId = id)) as [-> | Hne].
  - rewrite Hd, lookup_insert_eq. eexists. split; [reflexivity |].
    unfold Giveaway.join. cbn. auto.
  - rewrite lookup_insert_ne by assumption.
    destruct (giveaways (st w) !! id) as [g|]; eauto 6.
Qed.

End ListenerMoreFacts.

Section GiveawayMoreFacts.
Import Js Giveaway.

(** [add] only ever appends. *)
Lemma setAdd_prefix u s : exists t, setAdd u s = (s ++ t)%list.
Proof.
  unfold setAdd.
  destruct (existsb (String.eqb u) s); [exists []; now rewrite app_nil_r | eauto].
Qed.

Lemma setAdd_spec u s x : In x (setAdd u s) <-> In x s \/ x = u.
Proof.
  unfold setAdd. destruct (existsb (String.eqb u) s) eqn:E.
  - apply includes_In in E. split; [auto | intros [H | ->]; assumption].
  - rewrite in_app_iff. cbn. intuition congruence.
Qed.

(** X14. Joins build a set: after any sequence of joins the entrants
    have no repeats, they are exactly the earlier entrants and the
    users who joined, and the earlier entrants keep their places at
    the front. *)
Theorem joins_build_a_set (g : giveaway) (us : list uid) :
  NoDup (entrants g) ->
  let g' := fold_left (fun h u => join u h) us g in
  NoDup (entrants g')
  /\ (forall x, In x (entrants g') <-> In x (entrants g) \/ In x us)
  /\ (exists t, entrants g' = (entrants g ++ t)%list)
  /\ prize g' = prize g /\ endsAt g' = endsAt g.
Proof.
  revert g. induction us as [|u us IH]; intros g Hnd g'; subst g'.
  - cbn. repeat split; auto; [tauto | exists []; now rewrite app_nil_r].
  - cbn [fold_left].
    destruct (IH (join u g)) as (H1 & H2 & (t & H3) & H4 & H5).
    { apply setAdd_NoDup, Hnd. }
    cbn [entrants join prize endsAt] in *.
    split; [exact H1 |]. split; [| split; [| auto]].
    + intros x. rewrite H2, setAdd_spec. cbn. intuition congruence.
    + destruct (setAdd_prefix u (entrants g)) as [t0 E]. rewrite E in H3.
      exists (t0 ++ t)%list. now rewrite app_assoc.
Qed.

(** Three joins, one repeated, on a giveaway with one entrant, run
    through the theorem. *)
Lemma joins_build_a_set_witness :
  NoDup (entrants (fold_left (fun h u => join u h) ["ben"; "ann"; "ben"]
                     (MkGiveaway "Nitro" 0 ["ann"]))).
Proof.
  refine (proj1 (joins_build_a_set (MkGiveaway "Nitro" 0 ["ann"]) ["ben"; "ann"; "ben"] _)).
  apply NoDup_singleton.
Defined.

(** For every index of an array of fewer than 2^32 elements there is a
    double below 1, a multiple of 2^-52, whose rounded product with the
    length has that index as its floor. *)
Lemma floorTimes_reaches k n :
  0 <= k < n -> n < 2 ^ 32 ->
  exists r, Double.random r /\ (exists c, r = c * 2 ^ 1022)
            /\ Double.floorTimes r n = k.
Proof.
  intros Hk Hn.
  set (A := 9007199254740992).
  set (B := 4503599627370496).
  assert (HA : 2 ^ 53 = A) by reflexivity.
  assert (H32 : 2 ^ 32 = 4294967296) by reflexivity.
  rewrite H32 in Hn.
  set (P := 2 ^ 1022).
  assert (HP : 0 < P) by reflexivity.
  assert (HG : Double.grid = B * P) by reflexivity.
  set (c := (k * B + n - 1) / n).
  assert (Hc : n * c <= k * B + n - 1 < n * c + n).
  { unfold c. pose proof (Z.div_mod (k * B + n - 1) n ltac:(lia)) as E.
    pose proof (Z.mod_pos_bound (k * B + n - 1) n ltac:(lia)). lia. }
  assert (Hc0 : 0 <= c) by (unfold c; apply Z.div_pos; unfold B; lia).
  assert (Hc52 : c < B).
  { unfold c. apply Z.div_lt_upper_bound; [lia |]. unfold B in *. nia. }
  assert (Hrep : Double.round53 (c * P) = c * P).
  { apply round53_scaled; [rewrite HA; unfold A, B in *; lia | lia]. }
  assert (HrepK : Double.round53 (k * Double.grid) = k * Double.grid).
  { apply round53_scaled; [rewrite HA; unfold A; lia | lia]. }
  exists (c * P). split; [| split; [now exists c |]].
  - split.
    + unfold Double.double. rewrite Hrep, Z.eqb_refl, andb_true_r.
      apply Z.leb_le. nia.
    + rewrite HG. nia.
  - unfold Double.floorTimes.
    assert (HN : c * P * n = (n * c) * P) by ring.
    assert (Hlow : k * Double.grid <= c * P * n).
    { rewrite HN, HG. assert (k * B <= n * c) by lia. nia. }
    assert (Hhigh : c * P * n <= (k * B + n - 1) * P).
    { rewrite HN. apply Z.mul_le_mono_nonneg_r; lia. }
    assert (HK0 : 0 <= k * Double.grid) by (rewrite HG; nia).
    assert (HN0 : 0 <= c * P * n) by nia.
    pose proof (round53_floor _ _ HK0 HrepK Hlow) as Hfl.
    pose proof (round53_above (c * P * n) HN0) as Hab.
    rewrite HA in Hab.
    symmetry. apply Z.div_unique with (Double.round53 (c * P * n) - k * Double.grid);
      [| lia].
    left. split; [lia |].
    rewrite HG in *.
    assert (HkP : 0 <= k * P <= 4294967296 * P) by nia.
    assert (HnP : 0 <= n * P <= 4294967296 * P) by nia.
    assert (E1 : (k * B + n - 1) * P = B * (k * P) + n * P - P) by ring.
    assert (E2 : k * (B * P) = B * (k * P)) by ring.
    rewrite E1 in Hhigh. rewrite E2 in *.
    generalize dependent (Double.round53 (c * P * n)).
    generalize dependent (c * P * n).
    generalize dependent (k * P). generalize dependent (n * P).
    unfold A, B. intros. lia.
Qed.

(** X15. Every entrant can win: for each entrant of a giveaway (of
    fewer than 2^32 entrants, as every array has) there is a double
    that [Math.random] may return, a multiple of 2^-52 below 1, for
    which the draw, with its rounded product, returns that entrant. *)
Theorem drawWinner_reaches (g : giveaway) (k : nat) (w : uid) :
  Z.of_nat (length (entrants g)) < 2 ^ 32 ->
  entrants g !! k = Some w ->
  exists r, Double.random r /\ (exists c, r = c * 2 ^ 1022)
            /\ drawWinner r g = Some w.
Proof.
  intros Hlen Hk.
  assert (Hlt : (k < length (entrants g))%nat) by (eapply lookup_lt_Some, Hk).
  destruct (floorTimes_reaches (Z.of_nat k) (Z.of_nat (length (entrants g))))
    as (r & Hr & Hc & Hf); [lia | exact Hlen |].
  exists r. split; [exact Hr |]. split; [exact Hc |].
  unfold drawWinner.
  rewrite (proj2 (Nat.ltb_lt 0 (length (entrants g)))) by lia.
  unfold choice, atNum.
  rewrite Hf, (proj2 (Z.leb_le 0 (Z.of_nat k))) by lia.
  now rewrite Nat2Z.id.
Qed.

(** The second of three entrants, run through the theorem. *)
Lemma drawWinner_reaches_witness :
  exists r, Double.random r /\ (exists c, r = c * 2 ^ 1022)
            /\ drawWinner r (MkGiveaway "Nitro" 0 ["ann"; "ben"; "cy"]) = Some "ben".
Proof.
  apply (drawWinner_reaches (MkGiveaway "Nitro" 0 ["ann"; "ben"; "cy"]) 1 "ben");
    reflexivity.
Defined.

End GiveawayMoreFacts.

(** ** Quotes, to-do lists and karma *)

Section SocialFacts.
Import Js Social.

Lemma ensureMap_lookup {V} (m : gmap string V) k (init : V) :
  fst (ensureMap m k init) !! k = Some (snd (ensureMap m k init))
  /\ snd (ensureMap m k init) = default init (m !! k)
  /\ forall j, j <> k -> fst (ensureMap m k init) !! j = m !! j.
Proof.
  unfold ensureMap. destruct (m !! k) as [v|] eqn:E; cbn.
  - auto.
  - rewrite lookup_insert_eq. repeat split.
    intros j Hj. now rewrite lookup_insert_ne by congruence.
Qed.

(** X16. To-do lists.  [/todo add] appends an open item to the caller's
    list and answers with its number.  [/todo done] never changes a
    text, an order or another user's list; it marks the item whose
    number is given and no other, it never reopens an item, and it
    answers "Invalid index." exactly when the number is not that of an
    item. *)
Theorem todo_lists (todos : gmap string (list todo)) (u txt : string) (n : Z) :
  (todosOf (fst (todoAdd todos u txt)) u = (todosOf todos u ++ [Todo txt false])%list
   /\ snd (todoAdd todos u txt)
      = "Added TODO #" +:+ pretty (S (length (todosOf todos u))) +:+ "."
   /\ forall v, v <> u -> fst (todoAdd todos u txt) !! v = todos !! v)
  /\ (forall v, v <> u -> fst (todoDone todos u n) !! v = todos !! v)
  /\ map text (todosOf (fst (todoDone todos u n)) u) = map text (todosOf todos u)
  /\ (forall k t, todosOf todos u !! k = Some t ->
        exists t', todosOf (fst (todoDone todos u n)) u !! k = Some t'
                   /\ done t' = done t || (Z.of_nat k =? n - 1))
  /\ (snd (todoDone todos u n) = "Invalid index."
      <-> ~ (1 <= n <= Z.of_nat (length (todosOf todos u)))).
Proof.
  destruct (ensureMap_lookup todos u []) as (He1 & He2 & He3).
  unfold todoAdd, todoDone, todosOf.
  destruct (ensureMap todos u []) as [m items] eqn:E. cbn [fst snd] in *. subst items.
  set (items := default [] (todos !! u)).
  split; [| split; [| split; [| split]]].
  - cbn [fst snd]. rewrite lookup_insert_eq. cbn. repeat split.
    + rewrite List.length_app. cbn. now rewrite Nat.add_1_r.
    + intros v Hv. rewrite lookup_insert_ne by congruence. now apply He3.
  - intros v Hv. destruct (atNum items (Some (n - 1))); cbn [fst].
    + rewrite lookup_insert_ne by congruence. now apply He3.
    + now apply He3.
  - destruct (atNum items (Some (n - 1))) as [t|] eqn:Et; cbn [fst].
    + rewrite lookup_insert_eq. cbn. rewrite list_fmap_insert. cbn [text].
      apply list_insert_id. rewrite list_lookup_fmap.
      unfold atNum in Et. destruct (0 <=? n - 1); [| discriminate]. now rewrite Et.
    + now rewrite He1.
  - intros k t Hk.
    destruct (atNum items (Some (n - 1))) as [t0|] eqn:Et; cbn [fst].
    + rewrite lookup_insert_eq. cbn.
      unfold atNum in Et. destruct (Z.leb_spec 0 (n - 1)) as [Hn|]; [| discriminate].
      destruct (decide (k = Z.to_nat (n - 1))) as [-> | Hne].
      * rewrite list_lookup_insert_eq by (eapply lookup_lt_Some, Hk).
        eexists. split; [reflexivity |]. cbn.
        rewrite Z2Nat.id, Z.eqb_refl by lia. now rewrite orb_true_r.
      * rewrite list_lookup_insert_ne by congruence.
        exists t. split; [exact Hk |].
        rewrite (proj2 (Z.eqb_neq _ _)) by lia. now rewrite orb_false_r.
    + rewrite He1. cbn. exists t. split; [exact Hk |].
      apply lookup_lt_Some in Hk.
      unfold atNum in Et. destruct (Z.leb_spec 0 (n - 1)) as [Hn|].
      * apply lookup_ge_None in Et.
        rewrite (proj2 (Z.eqb_neq _ _)) by lia. now rewrite orb_false_r.
      * rewrite (proj2 (Z.eqb_neq _ _)) by lia. now rewrite orb_false_r.
  - destruct (atNum items (Some (n - 1))) as [t0|] eqn:Et; cbn [snd].
    + unfold atNum in Et. destruct (Z.leb_spec 0 (n - 1)) as [Hn|]; [| discriminate].
      apply lookup_lt_Some in Et. split; [discriminate | lia].
    + unfold atNum in Et. split; [intros _ | reflexivity].
      destruct (Z.leb_spec 0 (n - 1)) as [Hn|]; [| lia].
      apply lookup_ge_None in Et. lia.
Qed.

Lemma mapGet_mapSet m k v j :
  mapGet (mapSet k v m) j = if String.eqb k j then Some v else mapGet m j.
Proof.
  induction m as [|[k0 w] m IH]; cbn.
  - destruct (String.eqb k j); reflexivity.
  - destruct (String.eqb k0 k) eqn:E0; cbn.
    + apply String.eqb_eq in E0. subst k0. destruct (String.eqb k j); reflexivity.
    + destruct (String.eqb k0 j) eqn:E1; [| exact IH].
      apply String.eqb_eq in E1. subst k0. now rewrite String.eqb_sym, E0.
Qed.

Lemma karmaGive_karmaOf karma guild u tag a j :
  karmaOf (fst (karmaGive karma guild u tag (Some a))) guild j
  = karmaOf karma guild j + (if String.eqb u j then a else 0).
Proof.
  destruct (ensureMap_lookup karma guild []) as (He1 & He2 & He3).
  unfold karmaGive, karmaOf.
  destruct (ensureMap karma guild []) as [m map] eqn:E. cbn [fst snd] in *. subst map.
  rewrite lookup_insert_eq. cbn [default from_option id].
  rewrite mapGet_mapSet.
  destruct (String.eqb u j) eqn:Ej; [| now rewrite Z.add_0_r].
  apply String.eqb_eq in Ej. subst j. reflexivity.
Qed.

Lemma karmaGive_other karma guild u tag a other :
  other <> guild ->
  fst (karmaGive karma guild u tag a) !! other = karma !! other.
Proof.
  intros Hne. destruct (ensureMap_lookup karma guild []) as (_ & _ & He3).
  unfold karmaGive. destruct (ensureMap karma guild []) as [m map]. cbn [fst] in *.
  rewrite lookup_insert_ne by congruence. now apply He3.
Qed.

(** X17. Karma adds up: after any sequence of gifts in a guild, a
    member's score there is the score they had plus everything given
    to them, and the scores of every other guild are untouched. *)
Theorem gifts_sum (karma : gmap string scores) (guild : string)
        (gs : list (uid * Z)) (u : uid) :
  karmaOf (gifts karma guild gs) guild u = karmaOf karma guild u + given u gs
  /\ forall other, other <> guild -> gifts karma guild gs !! other = karma !! other.
Proof.
  revert karma. induction gs as [|[r a] gs IH]; intros karma.
  - cbn. split; [lia | reflexivity].
  - unfold gifts. cbn [fold_left fst snd].
    fold (gifts (fst (karmaGive karma guild r r (Some a))) guild gs).
    destruct (IH (fst (karmaGive karma guild r r (Some a)))) as [H1 H2]. split.
    + rewrite H1, karmaGive_karmaOf. cbn [given fold_right fst snd].
      fold (given u gs). lia.
    + intros other Hne. rewrite H2 by assumption. now apply karmaGive_other.
Qed.

Lemma insertDesc_perm x l : Permutation (insertDesc x l) (x :: l).
Proof.
  induction l as [|y l IH]; cbn; [reflexivity |].
  destruct (snd y <=? snd x); [reflexivity |].
  rewrite IH. apply perm_swap.
Qed.

Lemma sortDesc_perm m : Permutation (sortDesc m) m.
Proof.
  induction m as [|x m IH]; cbn; [reflexivity |].
  rewrite insertDesc_perm. now constructor.
Qed.

Lemma insertDesc_sorted x l :
  StronglySorted (fun a b : uid * Z => snd b <= snd a) l ->
  StronglySorted (fun a b : uid * Z => snd b <= snd a) (insertDesc x l).
Proof.
  induction 1 as [|y l Hs IH Hy]; cbn; [repeat constructor |].
  destruct (Z.leb_spec (snd y) (snd x)) as [Hle | Hgt].
  - constructor; [now constructor |].
    constructor; [exact Hle |].
    eapply Forall_impl; [exact Hy |]. cbn. intros z Hz. lia.
  - constructor; [exact IH |].
    rewrite (insertDesc_perm x l). constructor; [lia | exact Hy].
Qed.

Lemma sortDesc_sorted m :
  StronglySorted (fun a b : uid * Z => snd b <= snd a) (sortDesc m).
Proof.
  induction m as [|x m IH]; cbn; [constructor | now apply insertDesc_sorted].
Qed.

Lemma insertDesc_stable v x l :
  filter (fun y : uid * Z => snd y = v) (insertDesc x l)
  = filter (fun y : uid * Z => snd y = v) (x :: l).
Proof.
  unfold scores in *.
  induction l as [|y l IH]; cbn [insertDesc]; [reflexivity |].
  destruct (Z.leb_spec (snd y) (snd x)) as [Hle | Hgt]; [reflexivity |].
  rewrite (filter_cons _ y), IH, !filter_cons.
  repeat case_decide; try reflexivity; lia.
Qed.

Lemma sortDesc_stable v m :
  filter (fun y : uid * Z => snd y = v) (sortDesc m)
  = filter (fun y : uid * Z => snd y = v) m.
Proof.
  induction m as [|x m IH]; [reflexivity |].
  change (sortDesc (x :: m)) with (insertDesc x (sortDesc m)).
  etransitivity; [apply insertDesc_stable |].
  rewrite !filter_cons. unfold scores in *. rewrite IH. reflexivity.
Qed.

(** X18. The leaderboard holds the ten best entries of the score map,
    best first: it is in descending order of score, it has ten entries
    or all of them when there are fewer, each of its entries is an
    entry of the map, every entry left out scores no more than any
    entry shown, and entries with equal scores keep the order they had
    in the map. *)
Theorem leaderboard_top (m : scores) :
  StronglySorted (fun a b : uid * Z => snd b <= snd a) (leaderboard m)
  /\ length (leaderboard m) = Nat.min 10 (length m)
  /\ (forall x, In x (leaderboard m) -> In x m)
  /\ (exists rest,
        Permutation m (leaderboard m ++ rest)
        /\ forall x y, In x (leaderboard m) -> In y rest -> snd y <= snd x)
  /\ forall v, filter (fun y : uid * Z => snd y = v) (sortDesc m)
               = filter (fun y : uid * Z => snd y = v) m.
Proof.
  pose proof (sortDesc_sorted m) as Hs. pose proof (sortDesc_perm m) as Hp.
  unfold leaderboard. rewrite <- (take_drop 10 (sortDesc m)) in Hs.
  apply StronglySorted_app in Hs as (Hcross & Hl & _).
  split; [exact Hl |]. split; [| split; [| split]].
  - rewrite length_take, (Permutation_length Hp). reflexivity.
  - intros x Hx. apply (Permutation_in _ Hp).
    rewrite <- (take_drop 10 (sortDesc m)). apply in_or_app. now left.
  - exists (drop 10 (sortDesc m)). split.
    + rewrite take_drop. now symmetry.
    + intros x y Hx Hy. apply Hcross; now apply list_elem_of_In.
  - intros v. apply sortDesc_stable.
Qed.

Lemma joined_app (a b : list string) : joined (a ++ b) = joined a +:+ joined b.
Proof.
  unfold joined. induction a as [|x a IH]; cbn; [reflexivity |].
  rewrite IH. now rewrite app_assoc'.
Qed.

Lemma append_empty_r s : s +:+ EmptyString = s.
Proof. induction s; cbn; congruence. Qed.

(** What the loop of [/quote list] keeps: the text, and the size of
    what it has cut. *)
Lemma chunkLoop_spec lines chunks cur :
  let r := chunkLoop lines chunks cur in
  joined (fst r) +:+ snd r = joined chunks +:+ cur +:+ joined lines
  /\ (Forall (fun l => (0 < String.length l <= 1900)%nat) lines ->
      Forall (fun c => (0 < String.length c <= 1900)%nat) chunks ->
      (String.length cur <= 1900)%nat ->
      (chunks <> [] -> cur <> EmptyString) ->
      Forall (fun c => (0 < String.length c <= 1900)%nat) (fst r)
      /\ (String.length (snd r) <= 1900)%nat).
Proof.
  revert chunks cur. induction lines as [|line lines IH]; intros chunks cur;
    cbv zeta; cbn [chunkLoop].
  - cbn [fst snd]. split; [unfold joined at 3; cbn; now rewrite append_empty_r | auto].
  - destruct (Nat.ltb_spec 1900 (String.length cur + String.length line)) as [Hbig | Hfit].
    + destruct (IH (chunks ++ [cur])%list line) as [H1 H2]. cbv zeta in *. split.
      * rewrite H1, joined_app. unfold joined at 2 3. cbn [fold_right].
        fold (joined lines). rewrite append_empty_r, !app_assoc'. reflexivity.
      * intros Hl Hc Hcur Hne. inversion Hl as [|? ? Hline Hrest]; subst.
        apply H2; [assumption | | lia | intros _; destruct line; cbn in *; [lia | discriminate]].
        apply Forall_app. split; [exact Hc |]. constructor; [| constructor].
        split; [| exact Hcur]. destruct cur; cbn in *; lia.
    + destruct (IH chunks (cur +:+ line)) as [H1 H2]. cbv zeta in *. split.
      * rewrite H1. unfold joined at 3. cbn [fold_right]. fold (joined lines).
        rewrite !app_assoc'. reflexivity.
      * intros Hl Hc Hcur Hne. inversion Hl as [|? ? Hline Hrest]; subst.
        apply H2; [assumption | assumption | rewrite length_app; lia |].
        intros _. destruct cur; cbn; [destruct line; cbn in *; [lia | discriminate] | discriminate].
Qed.

(** X19. [/quote list] cuts the lines into chunks without losing or
    reordering a character; and when every line is non-empty and at
    most 1900 characters long, so is every chunk. *)
Theorem chunksOf_keeps_text (lines : list string) :
  joined (chunksOf lines) = joined lines
  /\ (Forall (fun l => (0 < String.length l <= 1900)%nat) lines ->
      Forall (fun c => (0 < String.length c <= 1900)%nat) (chunksOf lines)).
Proof.
  destruct (chunkLoop_spec lines [] EmptyString) as [H1 H2]. cbv zeta in *.
  unfold chunksOf. destruct (chunkLoop lines [] EmptyString) as [chunks cur].
  cbn [fst snd joined fold_right] in *. split.
  - destruct cur as [|c cur]; cbn [nonEmpty].
    + now rewrite append_empty_r in H1.
    + rewrite joined_app. cbn. now rewrite append_empty_r.
  - intros Hl. destruct (H2 Hl) as [Hc Hcur]; [constructor | cbn; lia | congruence |].
    destruct cur as [|c cur]; cbn [nonEmpty]; [exact Hc |].
    apply Forall_app. split; [exact Hc |]. constructor; [| constructor].
    cbn in *. lia.
Qed.

(** Three short lines, run through the theorem. *)
Lemma chunksOf_keeps_text_witness :
  Forall (fun c => (0 < String.length c <= 1900)%nat)
         (chunksOf (imap quoteLine ["carpe diem"; "so it goes"; "42"])).
Proof.
  apply (proj2 (chunksOf_keeps_text (imap quoteLine ["carpe diem"; "so it goes"; "42"]))).
  repeat (constructor; [vm_compute; lia | idtac]). constructor.
Defined.

End SocialFacts.

(** ** The last deleted message *)

Section SnipeFacts.
Import Js Snipe.

Lemma deletions_snoc snipes ds d :
  deletions snipes (ds ++ [d]) = onDelete (deletions snipes ds) (fst d) (snd d).
Proof. unfold deletions. now rewrite fold_left_app. Qed.

(** X20. After any sequence of deletions, what is remembered for a
    channel is the last message deleted in it while in a guild, and
    what was remembered before when there is none; [/snipe] then shows
    that message, with "(no content)" for an empty text, and the age
    in whole seconds. *)
Theorem snipe_shows_last (snipes : gmap string snipe) (ds : list (deleted * Z))
        (c : string) (now : Z) :
  deletions snipes ds !! c
  = match last (filter (fun d => recordedIn c d = true) ds) with
    | Some d => Some (recordOf (fst d) (snd d))
    | None => snipes !! c
    end
  /\ snipeCommand (deletions snipes ds) c now
     = match deletions snipes ds !! c with
       | None => Nothing
       | Some r =>
           Embed (sAuthorTag r)
                 (if nonEmpty (sContent r) then sContent r else "(no content)")
                 ("Deleted " +:+ pretty ((now - sCreatedAt r) / 1000) +:+ "s ago")
       end.
Proof.
  split; [| unfold snipeCommand; destruct (deletions snipes ds !! c); reflexivity].
  induction ds as [|d ds IH] using rev_ind; [reflexivity |].
  rewrite deletions_snoc, filter_app, filter_cons, filter_nil.
  assert (Hr : recordedIn c d = true
               <-> inGuild (fst d) = true /\ channelId (fst d) = Some c).
  { unfold recordedIn. now rewrite andb_true_iff, bool_decide_eq_true. }
  unfold onDelete.
  destruct (decide (recordedIn c d = true)) as [Hy | Hn].
  - apply Hr in Hy as [Hg Hc]. rewrite Hc, Hg, lookup_insert_eq.
    now rewrite last_snoc.
  - rewrite app_nil_r.
    destruct (channelId (fst d)) as [c'|] eqn:Ec; [| exact IH].
    destruct (inGuild (fst d)) eqn:Eg; [| exact IH].
    rewrite lookup_insert_ne; [exact IH |].
    intros ->. apply Hn, Hr. auto.
Qed.

End SnipeFacts.

(** ** Prefix commands *)

Section PrefixFacts.
Import Js Prefix.

Lemma parse_guard msg cmd args :
  parse msg = Some (cmd, args) ->
  startsWith "!" (content msg) = true /\ authorIsBot msg = false /\ inGuild msg = true.
Proof.
  unfold parse.
  destruct (startsWith "!" (content msg)), (authorIsBot msg), (inGuild msg);
    cbn; try discriminate; auto.
Qed.

(** X21. The moderation commands act only for a member who may: a kick
    is attempted only when the author has the Kick Members permission,
    a user is mentioned and that user is a member of the guild; a ban
    only when the author has the Ban Members permission and a user is
    mentioned; and neither for a message from a bot, outside a guild or
    without the prefix. *)
Theorem moderation_guarded (ctx : context) (msg : message) (id : uid) (reason : string) :
  (In (Kick id reason) (moderation ctx msg) ->
     mayKick ctx = true /\ memberFound ctx = true
     /\ (exists tag, mentioned ctx = Some (id, tag))
     /\ startsWith "!" (content msg) = true
     /\ authorIsBot msg = false /\ inGuild msg = true)
  /\ (In (Ban id reason) (moderation ctx msg) ->
        mayBan ctx = true
        /\ (exists tag, mentioned ctx = Some (id, tag))
        /\ startsWith "!" (content msg) = true
        /\ authorIsBot msg = false /\ inGuild msg = true).
Proof.
  unfold moderation. destruct (parse msg) as [[cmd args]|] eqn:Ep.
  2: { split; intros []. }
  destruct (parse_guard _ _ _ Ep) as (G1 & G2 & G3).
  destruct (String.eqb cmd "kick"); [| destruct (String.eqb cmd "ban")].
  - unfold kick.
    destruct (mayKick ctx); cbn [negb];
      [| split; cbn; intros H; intuition discriminate].
    destruct (mentioned ctx) as [[i t]|];
      [| split; cbn; intros H; intuition discriminate].
    destruct (memberFound ctx); cbn [negb];
      [| split; cbn; intros H; intuition discriminate].
    destruct (platformError ctx); split; cbn; intros H;
      repeat (destruct H as [H | H]; try discriminate);
      try contradiction; inversion H; subst; eauto 10.
  - unfold ban.
    destruct (mayBan ctx); cbn [negb];
      [| split; cbn; intros H; intuition discriminate].
    destruct (mentioned ctx) as [[i t]|];
      [| split; cbn; intros H; intuition discriminate].
    destruct (platformError ctx); split; cbn; intros H;
      repeat (destruct H as [H | H]; try discriminate);
      try contradiction; inversion H; subst; eauto 10.
  - split; intros [].
Qed.

(** A kick by a moderator, run through the theorem. *)
Lemma moderation_guarded_witness :
  mayKick (Context true false (Some ("7", "eve#1")) true None) = true
  /\ memberFound (Context true false (Some ("7", "eve#1")) true None) = true
  /\ (exists tag, mentioned (Context true false (Some ("7", "eve#1")) true None)
                  = Some ("7", tag))
  /\ startsWith "!" (content (Message "!Kick @eve spam" false true)) = true
  /\ authorIsBot (Message "!Kick @eve spam" false true) = false
  /\ inGuild (Message "!Kick @eve spam" false true) = true.
Proof.
  apply (proj1 (moderation_guarded (Context true false (Some ("7", "eve#1")) true None)
                  (Message "!Kick @eve spam" false true) "7" "spam")).
  vm_compute. auto.
Defined.

Lemma lowerChar_space c : isSpace (lowerChar c) = isSpace c.
Proof. destruct c as [[] [] [] [] [] [] [] []]; reflexivity. Qed.

Lemma lowerChar_idem c : lowerChar (lowerChar c) = lowerChar c.
Proof. destruct c as [[] [] [] [] [] [] [] []]; reflexivity. Qed.

Lemma lower_idem s : lower (lower s) = lower s.
Proof. induction s as [|c s IH]; cbn; [reflexivity | now rewrite lowerChar_idem, IH]. Qed.

Lemma lower_word s : word s -> word (lower s).
Proof.
  unfold word. induction s as [|c s IH]; cbn; [auto |].
  intros [Hc Hs]. rewrite lowerChar_space. auto.
Qed.

Lemma splitWs_words s : Forall word (splitWs s).
Proof.
  unfold word. induction s as [|c s IH]; cbn [splitWs].
  - repeat constructor.
  - destruct (isSpace c) eqn:Ec.
    + destruct s as [|c' s']; [repeat constructor |].
      destruct (isSpace c'); [exact IH | constructor; [exact I | exact IH]].
    + destruct (splitWs s) as [|p ps]; [repeat constructor; cbn; now rewrite Ec |].
      inversion IH; subst. constructor; [| assumption].
      cbn. rewrite Ec. auto.
Qed.

Lemma lower_startsWith s :
  startsWith "!" s = true -> startsWith "!" (lower s) = true.
Proof.
  destruct s as [|b s]; [discriminate |].
  destruct b as [[] [] [] [] [] [] [] []]; try discriminate. reflexivity.
Qed.

Lemma lower_slice1 s : slice1 (lower s) = lower (slice1 s).
Proof. now destruct s. Qed.

Lemma lower_skipSpaces s : skipSpaces (lower s) = lower (skipSpaces s).
Proof.
  induction s as [|c s IH]; cbn [lower skipSpaces]; [reflexivity |].
  rewrite lowerChar_space. now destruct (isSpace c).
Qed.

Lemma lower_trimEnd s : trimEnd (lower s) = lower (trimEnd s).
Proof.
  induction s as [|c s IH]; cbn [lower trimEnd]; [reflexivity |].
  rewrite IH, lowerChar_space.
  destruct (trimEnd s); cbn [lower]; [now destruct (isSpace c) | reflexivity].
Qed.

Lemma lower_trim s : trim (lower s) = lower (trim s).
Proof. unfold trim. now rewrite lower_skipSpaces, lower_trimEnd. Qed.

Lemma lower_splitWs s : splitWs (lower s) = map lower (splitWs s).
Proof.
  induction s as [|c s IH]; cbn [lower splitWs]; [reflexivity |].
  rewrite lowerChar_space. destruct (isSpace c).
  - destruct s as [|c' s']; [reflexivity |].
    cbn [lower] in *. rewrite lowerChar_space.
    destruct (isSpace c'); [exact IH | cbn [map]; now rewrite IH].
  - rewrite IH. now destruct (splitWs s).
Qed.

(** X22. What the prefix listener takes from a message: only messages
    that start with [!], come from a user and are sent in a guild are
    parsed at all; the command word is in lower case, whatever the case
    it was typed in, and neither it nor any argument contains white
    space. *)
Theorem parse_words (msg : message) (cmd : string) (args : list string) :
  parse msg = Some (cmd, args) ->
  startsWith "!" (content msg) = true /\ authorIsBot msg = false /\ inGuild msg = true
  /\ lower cmd = cmd /\ word cmd /\ Forall word args
  /\ parse (Message (lower (content msg)) (authorIsBot msg) (inGuild msg))
     = Some (cmd, map lower args).
Proof.
  intros Hp. destruct (parse_guard _ _ _ Hp) as (G1 & G2 & G3).
  repeat split; try assumption.
  all: unfold parse in Hp; rewrite G1, G2, G3 in Hp; cbn [negb orb] in Hp;
    pose proof (splitWs_words (trim (slice1 (content msg)))) as Hw;
    destruct (splitWs (trim (slice1 (content msg)))) as [|c0 a0] eqn:Es; [discriminate |];
    inversion Hp; subst; inversion Hw; subst.
  - apply lower_idem.
  - now apply lower_word.
  - assumption.
  - unfold parse. cbn [content authorIsBot inGuild]. rewrite G2, G3.
    rewrite (lower_startsWith _ G1). cbn [negb orb].
    rewrite lower_slice1, lower_trim, lower_splitWs, Es. cbn [map].
    now rewrite lower_idem.
Qed.

(** A command typed in capitals, run through the theorem. *)
Lemma parse_words_witness :
  startsWith "!" (content (Message "!KICK  @Eve Spam" false true)) = true
  /\ authorIsBot (Message "!KICK  @Eve Spam" false true) = false
  /\ inGuild (Message "!KICK  @Eve Spam" false true) = true
  /\ lower "kick" = "kick" /\ word "kick" /\ Forall word ["@Eve"; "Spam"]
  /\ parse (Message (lower (content (Message "!KICK  @Eve Spam" false true)))
                    (authorIsBot (Message "!KICK  @Eve Spam" false true))
                    (inGuild (Message "!KICK  @Eve Spam" false true)))
     = Some ("kick", map lower ["@Eve"; "Spam"]).
Proof.
  apply (parse_words (Message "!KICK  @Eve Spam" false true) "kick" ["@Eve"; "Spam"]).
  vm_compute. reflexivity.
Defined.

End PrefixFacts.

(** ** Rock, paper, scissors: from the command to the click *)

Section RpsButtonFacts.
Import Js Rps Bot.



End RpsButtonFacts.

(** ** Quotes *)

Section QuoteFacts.
Import Js Social.

(** X24. The quotes of a guild are kept in the order they were added:
    [/quote add] puts the text at the end of the guild's list, answers
    with its number and leaves the other guilds alone; and a
    [/quote random] that follows draws one of the guild's quotes, for
    every value of [Math.random] (the product rounded as the program
    rounds it). *)
Theorem quote_add_random (quotes : gmap string (list string)) (g t : string) (r : Z) :
  Double.random r ->
  let l := default [] (quotes !! g) in
  fst (quoteAdd quotes g t) !! g = Some (l ++ [t])%list
  /\ snd (quoteAdd quotes g t) = "Added quote #" +:+ pretty (S (length l)) +:+ "."
  /\ (forall g', g' <> g -> fst (quoteAdd quotes g t) !! g' = quotes !! g')
  /\ fst (quoteRandom r (fst (quoteAdd quotes g t)) g) = fst (quoteAdd quotes g t)
  /\ exists q, snd (quoteRandom r (fst (quoteAdd quotes g t)) g) = Some q
               /\ In q (l ++ [t])%list.
Proof.
  intros Hr l.
  assert (Ha : fst (quoteAdd quotes g t) !! g = Some (l ++ [t])%list).
  { unfold quoteAdd, ensureMap, l.
    destruct (quotes !! g) as [old|] eqn:E; cbn [fst default];
      now rewrite lookup_insert_eq. }
  split; [exact Ha |]. split; [| split; [| split]].
  - unfold quoteAdd, ensureMap, l.
    destruct (quotes !! g) as [old|] eqn:E; cbn [snd default];
      rewrite List.length_app; cbn [length]; now rewrite Nat.add_1_r.
  - intros g' Hg. unfold quoteAdd, ensureMap.
    destruct (quotes !! g) as [old|] eqn:E; cbn [fst];
      rewrite ?lookup_insert_ne by congruence; reflexivity.
  - unfold quoteRandom, ensureMap. rewrite Ha.
    now destruct (length (l ++ [t]) =? 0)%nat.
  - unfold quoteRandom, ensureMap. rewrite Ha.
    assert (Hne : (l ++ [t])%list <> []) by (now destruct l).
    destruct (length (l ++ [t]) =? 0)%nat eqn:El.
    + apply Nat.eqb_eq in El. destruct (l ++ [t])%list; [congruence | discriminate].
    + cbn [snd]. now apply choice_member.
Qed.

(** A second quote and a draw, run through the theorem. *)
Lemma quote_add_random_witness :
  fst (quoteAdd {["g1" := ["first"]]} "g1" "second") !! "g1"
  = Some ((default [] (({["g1" := ["first"]]} : gmap string (list string)) !! "g1"))
          ++ ["second"])%list.
Proof.
  refine (proj1 (quote_add_random {["g1" := ["first"]]} "g1" "second" (2 ^ 1073) _)).
  split; vm_compute; reflexivity.
Defined.

Lemma chunkLoop_bounded lines : forall chunks cur,
  Forall (fun l => (0 < String.length l <= 1900)%nat) lines ->
  Forall (fun ch => (0 < String.length ch <= 1900)%nat) chunks ->
  (String.length cur <= 1900)%nat ->
  Forall (fun ch => (0 < String.length ch <= 1900)%nat) (fst (chunkLoop lines chunks cur))
  /\ (String.length (snd (chunkLoop lines chunks cur)) <= 1900)%nat
  /\ (lines <> [] -> snd (chunkLoop lines chunks cur) <> EmptyString)
  /\ (length (fst (chunkLoop lines chunks cur))
      + (if nonEmpty (snd (chunkLoop lines chunks cur)) then 1 else 0)
      <= length chunks + (if nonEmpty cur then 1 else 0) + length lines)%nat.
Proof.
  induction lines as [|line rest IH]; intros chunks cur Hl Hc Hcur.
  - cbn. repeat split; try assumption; [congruence | lia].
  - inversion Hl as [|? ? Hline Hrest]; subst. cbn [chunkLoop].
    destruct (1900 <? String.length cur + String.length line)%nat eqn:E.
    + apply Nat.ltb_lt in E.
      assert (Hpos : (0 < String.length cur)%nat) by lia.
      destruct (IH (chunks ++ [cur])%list line Hrest) as (A & B & C & D).
      { apply Forall_app. split; [assumption |]. constructor; [lia | constructor]. }
      { lia. }
      repeat split; try assumption.
      * intros _. destruct rest as [|l2 rest'].
        -- cbn. destruct line; [cbn in Hline; lia | discriminate].
        -- apply C. discriminate.
      * rewrite List.length_app in D. cbn [length] in D |- *.
        destruct cur; [cbn in Hpos; lia |]. cbn [nonEmpty] in D |- *.
        destruct line; [cbn in Hline; lia |]. cbn [nonEmpty] in D. lia.
    + apply Nat.ltb_ge in E.
      destruct (IH chunks (cur +:+ line) Hrest Hc) as (A & B & C & D).
      { rewrite length_app. exact E. }
      repeat split; try assumption.
      * intros _. destruct rest as [|l2 rest'].
        -- cbn. intros Hx. apply (f_equal String.length) in Hx.
           rewrite length_app in Hx. cbn in Hx. lia.
        -- apply C. discriminate.
      * cbn [length].
        assert (Hn : nonEmpty (cur +:+ line) = true).
        { destruct cur; cbn; [| reflexivity]. destruct line; [cbn in Hline; lia | reflexivity]. }
        rewrite Hn in D. destruct (nonEmpty cur); lia.
Qed.

(** X25. [/quote list] sends one message for each chunk.  When every
    line is between 1 and 1900 characters long, there is at least one
    chunk for a list that is not empty and never more chunks than
    lines.  (A first line above 1900 characters would push the empty
    chunk before it.) *)
Theorem chunksOf_count (lines : list string) :
  Forall (fun l => (0 < String.length l <= 1900)%nat) lines ->
  (lines <> [] -> chunksOf lines <> [])
  /\ (length (chunksOf lines) <= length lines)%nat.
Proof.
  intros Hl. unfold chunksOf.
  destruct (chunkLoop_bounded lines [] EmptyString Hl) as (A & B & C & D);
    [constructor | cbn; lia |].
  destruct (chunkLoop lines [] EmptyString) as [chunks cur]. cbn [fst snd] in *.
  destruct cur as [|a cur]; cbn [nonEmpty length] in *.
  - split; [| lia]. intros Hne. now destruct (C Hne).
  - split.
    + intros _. now destruct chunks.
    + rewrite List.length_app. cbn [length] in *. lia.
Qed.

(** Three short lines, run through the theorem. *)
Lemma chunksOf_count_witness :
  (length (chunksOf (imap quoteLine ["a"; "b"; "c"])) <= 3)%nat.
Proof.
  refine (proj2 (chunksOf_count (imap quoteLine ["a"; "b"; "c"]) _)).
  repeat (constructor; [vm_compute; lia | idtac]). constructor.
Defined.

End QuoteFacts.
